(** * Referral commission engine of the e-learning backend

    A shallow embedding of the referral subsystem:

    - [backend/models/*.py]                 : the rows and their column types
    - [backend/crud/user_crud.py]           : the lookups, [create_user]
      (upline lineage), [update_user_by_admin]
    - [backend/routes/auth_routes.py]       : registration and login
    - [backend/routes/subscription_routes.py] : the commission block of the
      [invoice.payment_succeeded] webhook branch
    - [backend/crud/referral_crud.py]       : earnings CRUD and listings,
      downline, stats
    - [backend/crud/payment_crud.py]        : the payment lookups and
      [create_payment_record], with the payment step of the webhook
    - [backend/core/dependencies.py]        : the authentication gate

    The relational store is an explicit value [DB] threaded through the
    operations; a [db.commit()] is the point where the new value is returned.
    Python [Decimal] values are coefficient/exponent pairs, integers are [Z],
    [Optional[...]] is [option], SQL tables are lists of records in insertion
    order. *)

From Stdlib Require Import ZArith Lia String List Bool.
From stdpp Require Import gmap strings list pretty sorting.

Local Open Scope Z_scope.

(** ** Python truthiness *)

(** [if x:] for an [Optional[int]]: [None] and [0] are falsy. *)
Definition truthy_int (o : option Z) : bool :=
  match o with
  | Some z => negb (z =? 0)
  | None => false
  end.

(** [if s:] for an [Optional[str]]: [None] and the empty string are falsy. *)
Definition truthy_str (o : option string) : bool :=
  match o with
  | Some EmptyString => false
  | Some _ => true
  | None => false
  end.

(** ** Decimal numbers *)

Module Decimal.

(** A finite [decimal.Decimal]: the number [coef * 10 ^ exp].  The sign is
    carried by [coef]; negative zero, infinities and NaN do not arise from
    the values handled here and are left out, as are the exponent limits
    [Emin]/[Emax] of the context. *)
Record t : Type := mk { coef : Z; exp : Z }.

(** Precision of the default context ([getcontext().prec]). *)
Definition prec : Z := 28.

(** How many low digits have to go for [c] to fit in [prec] digits. *)
Fixpoint surplus_digits (fuel : nat) (c : Z) : Z :=
  match fuel with
  | O => 0
  | S fuel' =>
      if c <? 10 ^ prec then 0 else 1 + surplus_digits fuel' (c / 10)
  end.

(** [ROUND_HALF_EVEN] of the quotient [n / d], for [0 <= n] and [0 < d]. *)
Definition round_half_even (n d : Z) : Z :=
  let q := n / d in
  let r := n mod d in
  if 2 * r <? d then q
  else if d <? 2 * r then q + 1
  else if Z.even q then q else q + 1.

(** [Decimal._fix]: round a result to the context precision. *)
Definition fix_ (c e : Z) : t :=
  let k := surplus_digits (Z.to_nat (Z.log2 (Z.abs c))) (Z.abs c) in
  if k =? 0 then mk c e
  else
    let c' := round_half_even (Z.abs c) (10 ^ k) in
    if c' =? 10 ^ prec
    then mk (Z.sgn c * 10 ^ (prec - 1)) (e + k + 1)
    else mk (Z.sgn c * c') (e + k).

(** [x * y]: coefficients multiply, exponents add, then [_fix]. *)
Definition mul (x y : t) : t :=
  fix_ (coef x * coef y) (exp x + exp y).

(** The exact sum, at the smaller of the two exponents. *)
Definition add_exact (x y : t) : t :=
  let e := Z.min (exp x) (exp y) in
  mk (coef x * 10 ^ (exp x - e) + coef y * 10 ^ (exp y - e)) e.

(** [x + y]: the exact sum rounded to the context precision. *)
Definition add (x y : t) : t :=
  let s := add_exact x y in
  fix_ (coef s) (exp s).

(** [bool(d)]: a Decimal is truthy when it is not zero. *)
Definition truthy (d : t) : bool := negb (coef d =? 0).

(** [Decimal("0.00")]. *)
Definition zero_00 : t := mk 0 (-2).

(** A money literal with two decimal places, given in cents:
    [cents 1000] is [Decimal("10.00")]. *)
Definition cents (c : Z) : t := mk c (-2).

End Decimal.

(** ** Column types of the relational store *)

(** The two [sqlalchemy.exc] errors a commit can raise here. *)
Inductive db_error : Type :=
| IntegrityError   (* a unique or foreign-key constraint is violated *)
| DataError.       (* a value does not fit its column type *)

(** The store is the PostgreSQL database named by the default
    [DATABASE_URL] of [backend/core/database.py].  Round-half-away-from-zero
    of [n / d], for [0 < d], is how its [numeric] type rounds a value that
    has more fractional digits than its [DECIMAL(p, s)] column. *)
Definition round_half_away (n d : Z) : Z :=
  let q := Z.abs n / d in
  let r := Z.abs n mod d in
  Z.sgn n * (if 2 * r <? d then q else q + 1).

(** The value in units of [10 ^ -s]. *)
Definition to_scale (s : Z) (d : Decimal.t) : Z :=
  let shift := Decimal.exp d + s in
  if 0 <=? shift then Decimal.coef d * 10 ^ shift
  else round_half_away (Decimal.coef d) (10 ^ (- shift)).

(** Writing a Decimal to a [DECIMAL(p, s)] column and reading it back
    ([db.commit(); db.refresh(row)]): the value is rounded to [s] fractional
    digits and must then have at most [p] digits in all. *)
Definition numeric_column (p s : Z) (d : Decimal.t) : db_error + Decimal.t :=
  let units := to_scale s d in
  if Z.abs units <? 10 ^ p then inr (Decimal.mk units (- s)) else inl DataError.

(** A value is a [DECIMAL(p, s)] cell: [s] fractional digits, at most [p]
    digits in all. *)
Definition numeric_okb (p s : Z) (d : Decimal.t) : bool :=
  (Decimal.exp d =? - s) && (Z.abs (Decimal.coef d) <? 10 ^ p).

Definition is_numeric (p s : Z) (d : Decimal.t) : Prop :=
  numeric_okb p s d = true.

(** ** Enumerations ([backend/models/enums.py]) *)

Inductive ReferralCommissionStatus : Type :=
| PENDING | APPROVED | PAID | REJECTED.

Inductive PaymentStatus : Type :=
| PAY_PENDING | PAY_SUCCEEDED | PAY_FAILED | PAY_REFUNDED.

Definition status_eqb (a b : ReferralCommissionStatus) : bool :=
  match a, b with
  | PENDING, PENDING | APPROVED, APPROVED | PAID, PAID | REJECTED, REJECTED => true
  | _, _ => false
  end.

(** ** Rows *)

Module User.
(** [backend/models/user_model.py]. *)
Record t : Type := mk {
  id : Z;
  firebase_uid : string;
  email : string;
  role : string;
  referral_code : option string;
  referred_by_id : option Z;
  upline_l1_id : option Z;
  upline_l2_id : option Z;
  upline_l3_id : option Z;
  stripe_customer_id : option string;
  created_at : Z;
  updated_at : Z
}.
End User.

Module Payment.
(** [backend/models/payment_model.py], the columns the commission block
    reads together with the owner and status of the payment. *)
Record t : Type := mk {
  id : Z;
  user_id : option Z;
  amount : Decimal.t;           (* DECIMAL(10, 2) *)
  currency : string;
  status : PaymentStatus
}.
End Payment.

Module ReferralEarning.
(** [backend/models/referral_model.py]. *)
Record t : Type := mk {
  id : Z;
  user_id : Z;
  referred_user_id : option Z;
  source_payment_id : option Z;
  commission_amount : Decimal.t;  (* DECIMAL(10, 2) *)
  commission_rate : Decimal.t;    (* DECIMAL(5, 4) *)
  referral_level : Z;
  status : ReferralCommissionStatus;
  notes : option string;
  created_at : Z;
  updated_at : Z
}.

Definition set_status (s : ReferralCommissionStatus) (e : t) : t :=
  mk (id e) (user_id e) (referred_user_id e) (source_payment_id e)
     (commission_amount e) (commission_rate e) (referral_level e)
     s (notes e) (created_at e) (updated_at e).

Definition set_notes (n : option string) (e : t) : t :=
  mk (id e) (user_id e) (referred_user_id e) (source_payment_id e)
     (commission_amount e) (commission_rate e) (referral_level e)
     (status e) n (created_at e) (updated_at e).

Definition set_updated_at (ts : Z) (e : t) : t :=
  mk (id e) (user_id e) (referred_user_id e) (source_payment_id e)
     (commission_amount e) (commission_rate e) (referral_level e)
     (status e) (notes e) (created_at e) ts.
End ReferralEarning.

(** [schemas.ReferralEarningCreate]. *)
Module ReferralEarningCreate.
Record t : Type := mk {
  user_id : Z;
  referred_user_id : Z;
  source_payment_id : Z;
  commission_amount : Decimal.t;
  commission_rate : Decimal.t;
  referral_level : Z;
  status : ReferralCommissionStatus;
  notes : option string
}.
End ReferralEarningCreate.

(** [schemas.UserCreateInternal]. *)
Module UserCreateInternal.
Record t : Type := mk {
  email : string;
  role : option string;
  firebase_uid : string;
  referral_code : option string;
  referred_by_id : option Z
}.
End UserCreateInternal.

(** ** The store *)

(** The two tables of the referral subsystem, the next value of each
    [id] sequence, and the server clock read by [func.now()]. *)
Record DB : Type := mkDB {
  users : list User.t;
  referral_earnings : list ReferralEarning.t;
  users_id_seq : Z;
  referral_earnings_id_seq : Z;
  now : Z
}.

Definition empty_db : DB := mkDB [] [] 1 1 0.

Definition with_users (us : list User.t) (seq : Z) (db : DB) : DB :=
  mkDB us (referral_earnings db) seq (referral_earnings_id_seq db) (now db).

Definition with_earnings (es : list ReferralEarning.t) (seq : Z) (db : DB) : DB :=
  mkDB (users db) es (users_id_seq db) seq (now db).

(** ** [backend/crud/user_crud.py] *)

(** [db.query(User).filter(...).first()]: the first matching row. *)
Definition get_user_by_id (db : DB) (user_id : Z) : option User.t :=
  List.find (fun u => User.id u =? user_id) (users db).

Definition get_user_by_email (db : DB) (email : string) : option User.t :=
  List.find (fun u => String.eqb (User.email u) email) (users db).

Definition get_user_by_firebase_uid (db : DB) (firebase_uid : string)
  : option User.t :=
  List.find (fun u => String.eqb (User.firebase_uid u) firebase_uid) (users db).

(** A NULL [referral_code] never compares equal. *)
Definition has_referral_code (code : string) (u : User.t) : bool :=
  match User.referral_code u with
  | Some c => String.eqb c code
  | None => false
  end.

Definition get_user_by_referral_code (db : DB) (referral_code : string)
  : option User.t :=
  List.find (has_referral_code referral_code) (users db).

(** The [upline_l1] relationship of the model: the row [upline_l1_id]
    points at, if there is one. *)
Definition upline_l1 (db : DB) (u : User.t) : option User.t :=
  match User.upline_l1_id u with
  | Some i => get_user_by_id db i
  | None => None
  end.

(** The "Populate upline structure" block of [create_user]: the three
    pointers stamped on the new row.  Each [if x:] of the source is a
    truthiness test, so a pointer equal to [0] counts as absent. *)
Definition populate_upline (db : DB) (referred_by_id : option Z)
  : option Z * option Z * option Z :=
  match referred_by_id with
  | None => (None, None, None)
  | Some rid =>
      if rid =? 0 then (None, None, None)
      else
        match get_user_by_id db rid with
        | None => (None, None, None)
        | Some referrer_l1 =>
            let l1 := Some (User.id referrer_l1) in
            if truthy_int (User.upline_l1_id referrer_l1) then
              let l2 := User.upline_l1_id referrer_l1 in
              match upline_l1 db referrer_l1 with
              | Some grand =>
                  if truthy_int (User.upline_l1_id grand)
                  then (l1, l2, User.upline_l2_id referrer_l1)
                  else (l1, l2, None)
              | None => (l1, l2, None)
              end
            else (l1, None, None)
        end
  end.

(** A nullable foreign key into [users.id]. *)
Definition fk_users (rows : list User.t) (ref : option Z) : bool :=
  match ref with
  | None => true
  | Some i => existsb (fun u => User.id u =? i) rows
  end.

(** A nullable unique column: NULLs never collide. *)
Definition opt_string_eqb (a b : option string) : bool :=
  match a, b with
  | Some x, Some y => String.eqb x y
  | _, _ => false
  end.

(** A [String(n)] column holds at most [n] characters. *)
Definition varchar_okb (n : nat) (s : string) : bool :=
  (String.length s <=? n)%nat.

(** The widths of the string columns of [users]
    ([backend/models/user_model.py]): the store refuses a row with a longer
    value with a [DataError].  (A value that is too long by trailing blanks
    only is refused here as well; the store would cut the blanks.) *)
Definition users_widths_ok (u : User.t) : bool :=
  varchar_okb 255 (User.firebase_uid u)
  && varchar_okb 255 (User.email u)
  && varchar_okb 50 (User.role u)
  && match User.referral_code u with
     | Some c => varchar_okb 255 c
     | None => true
     end
  && match User.stripe_customer_id u with
     | Some c => varchar_okb 255 c
     | None => true
     end.

(** The values [create_user] takes from [user_data] fit their columns. *)
Definition user_data_widths_ok (user_data : UserCreateInternal.t) : bool :=
  varchar_okb 255 (UserCreateInternal.firebase_uid user_data)
  && varchar_okb 255 (UserCreateInternal.email user_data)
  && match UserCreateInternal.role user_data with
     | Some r => varchar_okb 50 r
     | None => true
     end
  && match UserCreateInternal.referral_code user_data with
     | Some c => varchar_okb 255 c
     | None => true
     end.

(** The constraints of the [users] table checked when a row is inserted:
    the four unique columns and the four self-referencing foreign keys
    (which the new row itself may satisfy). *)
Definition users_constraints_ok (db : DB) (u : User.t) : bool :=
  negb (existsb (fun v => String.eqb (User.firebase_uid v) (User.firebase_uid u))
          (users db))
  && negb (existsb (fun v => String.eqb (User.email v) (User.email u)) (users db))
  && negb (existsb (fun v => opt_string_eqb (User.referral_code v)
                               (User.referral_code u)) (users db))
  && negb (existsb (fun v => opt_string_eqb (User.stripe_customer_id v)
                               (User.stripe_customer_id u)) (users db))
  && fk_users (users db ++ [u]) (User.referred_by_id u)
  && fk_users (users db ++ [u]) (User.upline_l1_id u)
  && fk_users (users db ++ [u]) (User.upline_l2_id u)
  && fk_users (users db ++ [u]) (User.upline_l3_id u).

(** [create_user].  [None] is returned for a duplicate Firebase UID or
    email and when the commit raises (the transaction is rolled back): a
    value too long for its column is refused before the row gets an id; a
    row that violates a constraint is refused after it has drawn its id
    from the sequence, and the sequence keeps the draw.  The welcome e-mail
    is sent outside the store and its failure is caught, so it does not
    appear here. *)
Definition create_user (db : DB) (user_data : UserCreateInternal.t)
  : DB * option User.t :=
  match get_user_by_firebase_uid db (UserCreateInternal.firebase_uid user_data) with
  | Some _ => (db, None)
  | None =>
      match get_user_by_email db (UserCreateInternal.email user_data) with
      | Some _ => (db, None)
      | None =>
          let role :=
            match UserCreateInternal.role user_data with
            | Some r => if truthy_str (Some r) then r else "Subscriber"%string
            | None => "Subscriber"%string
            end in
          let '(l1, l2, l3) :=
            populate_upline db (UserCreateInternal.referred_by_id user_data) in
          let db_user :=
            User.mk (users_id_seq db)
              (UserCreateInternal.firebase_uid user_data)
              (UserCreateInternal.email user_data)
              role
              (UserCreateInternal.referral_code user_data)
              (UserCreateInternal.referred_by_id user_data)
              l1 l2 l3 None (now db) (now db) in
          if negb (users_widths_ok db_user) then (db, None)
          else if users_constraints_ok db db_user
          then (with_users (users db ++ [db_user]) (users_id_seq db + 1) db,
                Some db_user)
          else (with_users (users db) (users_id_seq db + 1) db, None)
      end
  end.

(** ** [backend/routes/auth_routes.py] *)

Inductive http_result (A : Type) : Type :=
| Response (body : A)
| HTTPException (status_code : Z) (detail : string).
Arguments Response {A} body.
Arguments HTTPException {A} status_code detail.

Record TokenData : Type := mkTokenData {
  token_firebase_uid : string;
  token_email : string
}.

(** [generate_unique_referral_code]: the loop draws random codes until one
    is unused.  The draws are supplied as a list; [None] means that every
    supplied draw was already taken. *)
Fixpoint generate_unique_referral_code (db : DB) (draws : list string)
  : option string :=
  match draws with
  | [] => None
  | code :: rest =>
      match get_user_by_referral_code db code with
      | None => Some code
      | Some _ => generate_unique_referral_code db rest
      end
  end.

(** [register_user_after_firebase].  [token] is the outcome of
    [verify_firebase_id_token] (an identity provider call) and [draws] the
    random codes available to the code generator; the result is [None] only
    when the draws run out. *)
Definition register_user_after_firebase (db : DB)
    (token : http_result TokenData) (referral_code_used : option string)
    (draws : list string) : option (DB * http_result User.t) :=
  match token with
  | HTTPException c d => Some (db, HTTPException c d)
  | Response token_data =>
      let firebase_uid := token_firebase_uid token_data in
      let email := token_email token_data in
      match get_user_by_firebase_uid db firebase_uid with
      | Some _ =>
          Some (db, HTTPException 409 "User with this Firebase UID already exists.")
      | None =>
      match get_user_by_email db email with
      | Some _ =>
          Some (db, HTTPException 409 "User with this email already exists.")
      | None =>
          let referred_by_user_id : http_result (option Z) :=
            match referral_code_used with
            | Some code =>
                if truthy_str (Some code) then
                  match get_user_by_referral_code db code with
                  | None =>
                      HTTPException 400 ("Invalid referral code: " ++ code)
                  | Some referrer => Response (Some (User.id referrer))
                  end
                else Response None
            | None => Response None
            end in
          match referred_by_user_id with
          | HTTPException c d => Some (db, HTTPException c d)
          | Response referred_by =>
              match generate_unique_referral_code db draws with
              | None => None
              | Some new_referral_code =>
                  let user_create_data :=
                    UserCreateInternal.mk email (Some "Subscriber"%string)
                      firebase_uid (Some new_referral_code) referred_by in
                  match create_user db user_create_data with
                  | (db', Some db_user) => Some (db', Response db_user)
                  | (db', None) =>
                      Some (db', HTTPException 500
                        "Could not create user account. Please try again later.")
                  end
              end
          end
      end
      end
  end.

(** ** Store operations that may raise *)

(** A computation over the store that either returns or raises a database
    error.  Every [db.commit()] that succeeded before the error stays in
    the returned store. *)
Definition M (A : Type) : Type := DB → DB * (db_error + A).

Definition ret {A : Type} (a : A) : M A := fun db => (db, inr a).

Definition raise {A : Type} (e : db_error) : M A := fun db => (db, inl e).

Definition bind {A B : Type} (m : M A) (k : A → M B) : M B :=
  fun db =>
    match m db with
    | (db', inr a) => k a db'
    | (db', inl e) => (db', inl e)
    end.

Notation "'run' x <- c 'in' k" := (bind c (fun x => k))
  (at level 10, x name, c at level 100, k at level 200).

(** ** [backend/crud/referral_crud.py]: earnings *)

(** [create_referral_earning]: one INSERT and commit.  The row gets the
    next [id], the column types round the two decimals, and the foreign
    keys into [users] must resolve.  ([source_payment_id] points at the
    payment row the caller has just read or created.)  The notification
    e-mail that follows is sent outside the store and its failure is
    caught. *)
Definition create_referral_earning (earning_in : ReferralEarningCreate.t)
  : M ReferralEarning.t :=
  fun db =>
    if negb (fk_users (users db) (Some (ReferralEarningCreate.user_id earning_in))
             && fk_users (users db)
                  (Some (ReferralEarningCreate.referred_user_id earning_in)))
    then raise IntegrityError db
    else
      match numeric_column 10 2 (ReferralEarningCreate.commission_amount earning_in),
            numeric_column 5 4 (ReferralEarningCreate.commission_rate earning_in) with
      | inr amount, inr rate =>
          let db_earning :=
            ReferralEarning.mk (referral_earnings_id_seq db)
              (ReferralEarningCreate.user_id earning_in)
              (Some (ReferralEarningCreate.referred_user_id earning_in))
              (Some (ReferralEarningCreate.source_payment_id earning_in))
              amount rate
              (ReferralEarningCreate.referral_level earning_in)
              (ReferralEarningCreate.status earning_in)
              (ReferralEarningCreate.notes earning_in)
              (now db) (now db) in
          (with_earnings (referral_earnings db ++ [db_earning])
             (referral_earnings_id_seq db + 1) db,
           inr db_earning)
      | _, _ => raise DataError db
      end.

Definition get_referral_earning_by_id (db : DB) (earning_id : Z)
  : option ReferralEarning.t :=
  List.find (fun e => ReferralEarning.id e =? earning_id) (referral_earnings db).

(** Write [e'] over the first row whose [id] is [earning_id] (the row that
    [get_referral_earning_by_id] loaded; [id] is the primary key). *)
Fixpoint replace_earning (earning_id : Z) (e' : ReferralEarning.t)
    (rows : list ReferralEarning.t) : list ReferralEarning.t :=
  match rows with
  | [] => []
  | e :: rest =>
      if ReferralEarning.id e =? earning_id then e' :: rest
      else e :: replace_earning earning_id e' rest
  end.

Definition opt_str_same (a b : option string) : bool :=
  match a, b with
  | None, None => true
  | Some x, Some y => String.eqb x y
  | _, _ => false
  end.

(** [update_referral_earning_status].  The status is assigned whatever the
    current one is; [notes] is assigned only when it is not [None].  The
    commit issues an UPDATE, and with it the [onupdate] timestamp, only if
    a column value has changed. *)
Definition update_referral_earning_status (db : DB) (earning_id : Z)
    (new_status : ReferralCommissionStatus) (notes : option string)
  : DB * option ReferralEarning.t :=
  match get_referral_earning_by_id db earning_id with
  | None => (db, None)
  | Some db_earning =>
      let e1 := ReferralEarning.set_status new_status db_earning in
      let e2 :=
        match notes with
        | Some n => ReferralEarning.set_notes (Some n) e1
        | None => e1
        end in
      let dirty :=
        negb (status_eqb (ReferralEarning.status db_earning)
                (ReferralEarning.status e2)
              && opt_str_same (ReferralEarning.notes db_earning)
                   (ReferralEarning.notes e2)) in
      let e3 := if dirty then ReferralEarning.set_updated_at (now db) e2 else e2 in
      (with_earnings (replace_earning earning_id e3 (referral_earnings db))
         (referral_earnings_id_seq db) db,
       Some e3)
  end.

(** ** [backend/routes/referral_routes.py] *)

(** [admin_update_earning_status]: the body carries an optional status and
    optional notes. *)
Definition admin_update_earning_status (db : DB) (earning_id : Z)
    (status : option ReferralCommissionStatus) (notes : option string)
  : DB * http_result ReferralEarning.t :=
  match status with
  | None => (db, HTTPException 400 "New status must be provided.")
  | Some new_status =>
      match update_referral_earning_status db earning_id new_status notes with
      | (db', None) =>
          (db', HTTPException 404
                  ("Referral earning with ID " ++ pretty earning_id ++ " not found."))
      | (db', Some updated_earning) => (db', Response updated_earning)
      end
  end.

(** ** [backend/routes/subscription_routes.py]: commission block *)

(** The three rates, read from the environment when the block runs. *)
Record CommissionRates : Type := mkRates {
  COMMISSION_RATE_L1 : Decimal.t;
  COMMISSION_RATE_L2 : Decimal.t;
  COMMISSION_RATE_L3 : Decimal.t
}.

(** [Decimal("0.10")], [Decimal("0.05")], [Decimal("0.02")]. *)
Definition default_rates : CommissionRates :=
  mkRates (Decimal.mk 10 (-2)) (Decimal.mk 5 (-2)) (Decimal.mk 2 (-2)).

Definition upline_users_and_rates (rates : CommissionRates) (paying_user : User.t)
  : list (option Z * Decimal.t * Z) :=
  [ (User.upline_l1_id paying_user, COMMISSION_RATE_L1 rates, 1);
    (User.upline_l2_id paying_user, COMMISSION_RATE_L2 rates, 2);
    (User.upline_l3_id paying_user, COMMISSION_RATE_L3 rates, 3) ].

(** The [for upline_user_id, rate, level in upline_users_and_rates] loop. *)
Fixpoint commission_loop (paying_user : User.t) (db_payment : Payment.t)
    (todo : list (option Z * Decimal.t * Z)) : M unit :=
  match todo with
  | [] => ret tt
  | (upline_user_id, rate, level) :: rest =>
      match upline_user_id with
      | Some uid =>
          if truthy_int upline_user_id then
            let commission_amount := Decimal.mul (Payment.amount db_payment) rate in
            (run _earning <- create_referral_earning
                   (ReferralEarningCreate.mk uid (User.id paying_user)
                      (Payment.id db_payment) commission_amount rate level
                      PENDING None) in
             commission_loop paying_user db_payment rest)
          else commission_loop paying_user db_payment rest
      | None => commission_loop paying_user db_payment rest
      end
  end.

(** The "Commission Calculation" block of the [invoice.payment_succeeded]
    branch of [webhook_stripe], entered with the payer's id and the payment
    row found or created just before. *)
Definition webhook_stripe_commissions (rates : CommissionRates)
    (user_id_for_payment : Z) (db_payment : option Payment.t) : M unit :=
  fun db =>
    match get_user_by_id db user_id_for_payment, db_payment with
    | Some paying_user, Some payment =>
        commission_loop paying_user payment
          (upline_users_and_rates rates paying_user) db
    | _, _ => (db, inr tt)
    end.

(** ** [backend/crud/referral_crud.py]: downline and statistics *)

(** The two shapes of SELECT over [users] issued by the downline code. *)
Inductive user_query : Type :=
| UplineL1Eq (user_id : Z)          (* User.upline_l1_id == user_id *)
| UplineL1In (ids : list Z).        (* User.upline_l1_id.in_(ids)   *)

(** A NULL pointer satisfies neither comparison. *)
Definition matches (q : user_query) (u : User.t) : bool :=
  match User.upline_l1_id u, q with
  | Some p, UplineL1Eq user_id => p =? user_id
  | Some p, UplineL1In ids => existsb (Z.eqb p) ids
  | None, _ => false
  end.

(** [db.query(User).filter(q).all()]. *)
Definition query_users (db : DB) (q : user_query) : list User.t :=
  List.filter (matches q) (users db).

(** [{level: [] for level in range(1, max_levels + 1)}]. *)
Definition empty_levels (max_levels : Z) : gmap Z (list User.t) :=
  list_to_map ((fun level => (level, [])) <$> seqZ 1 max_levels).

(** [get_downline_users_flat].  Next to the dictionary the function
    returns, the model records the queries it sent to the store, in
    order. *)
Definition get_downline_users_flat (db : DB) (user_id : Z) (max_levels : Z)
  : gmap Z (list User.t) * list user_query :=
  let downline_by_level := empty_levels max_levels in
  let q1 := UplineL1Eq user_id in
  let level1_users := query_users db q1 in
  match level1_users with
  | [] => (downline_by_level, [q1])
  | _ :: _ =>
      let downline_by_level := <[1 := level1_users]> downline_by_level in
      if 2 <=? max_levels then
        let level1_ids := List.map User.id level1_users in
        match level1_ids with
        | [] => (downline_by_level, [q1])
        | _ :: _ =>
            let q2 := UplineL1In level1_ids in
            let level2_users := query_users db q2 in
            match level2_users with
            | [] => (downline_by_level, [q1; q2])
            | _ :: _ =>
                let downline_by_level := <[2 := level2_users]> downline_by_level in
                if 3 <=? max_levels then
                  let level2_ids := List.map User.id level2_users in
                  match level2_ids with
                  | [] => (downline_by_level, [q1; q2])
                  | _ :: _ =>
                      let q3 := UplineL1In level2_ids in
                      let level3_users := query_users db q3 in
                      (<[3 := level3_users]> downline_by_level, [q1; q2; q3])
                  end
                else (downline_by_level, [q1; q2])
            end
        end
      else (downline_by_level, [q1])
  end.

(** [schemas.ReferralStats]. *)
Record ReferralStats : Type := mkStats {
  total_direct_referrals : Z;
  total_l1_referrals : Z;
  total_l2_referrals : Z;
  total_l3_referrals : Z;
  pending_commission_total : Decimal.t;
  approved_commission_total : Decimal.t;
  paid_commission_total : Decimal.t;
  lifetime_commission_total : Decimal.t
}.

(** SQL [SUM] over a numeric column: NULL for no rows, otherwise the exact
    sum (the store's numeric type does not round sums). *)
Definition sql_sum (cells : list Decimal.t) : option Decimal.t :=
  match cells with
  | [] => None
  | c :: rest => Some (fold_left Decimal.add_exact rest c)
  end.

(** [x or Decimal("0.00")] for the scalar of a [SUM]: a NULL and a zero sum
    are both falsy. *)
Definition or_zero_00 (x : option Decimal.t) : Decimal.t :=
  match x with
  | Some d => if Decimal.truthy d then d else Decimal.zero_00
  | None => Decimal.zero_00
  end.

(** The rows selected by
    [filter(ReferralEarning.user_id == user_id, ReferralEarning.status == s)]. *)
Definition earnings_of (db : DB) (user_id : Z) (s : ReferralCommissionStatus)
  : list ReferralEarning.t :=
  List.filter
    (fun e => (ReferralEarning.user_id e =? user_id)
              && status_eqb (ReferralEarning.status e) s)
    (referral_earnings db).

Definition commission_sum (db : DB) (user_id : Z) (s : ReferralCommissionStatus)
  : Decimal.t :=
  or_zero_00
    (sql_sum (List.map ReferralEarning.commission_amount (earnings_of db user_id s))).

(** [get_referral_stats_for_user].  The three counts use sub-selects in
    place of id lists. *)
Definition get_referral_stats_for_user (db : DB) (user_id : Z) : ReferralStats :=
  let level1 := query_users db (UplineL1Eq user_id) in
  let level1_ids := List.map User.id level1 in
  let level2 := query_users db (UplineL1In level1_ids) in
  let level2_ids := List.map User.id level2 in
  let level3 := query_users db (UplineL1In level2_ids) in
  let pending_sum := commission_sum db user_id PENDING in
  let approved_sum := commission_sum db user_id APPROVED in
  let paid_sum := commission_sum db user_id PAID in
  mkStats (Z.of_nat (length level1)) (Z.of_nat (length level1))
    (Z.of_nat (length level2)) (Z.of_nat (length level3))
    pending_sum approved_sum paid_sum
    (Decimal.add (Decimal.add pending_sum approved_sum) paid_sum).

(** ** The environment and the reachable stores *)

(** The server clock moves between requests. *)
Definition advance_clock (t : Z) (db : DB) : DB :=
  mkDB (users db) (referral_earnings db) (users_id_seq db)
    (referral_earnings_id_seq db) t.

(** One request against the store. *)
Inductive step : DB → DB → Prop :=
| step_create_user db user_data :
    step db (fst (create_user db user_data))
| step_commissions db rates user_id_for_payment db_payment :
    step db (fst (webhook_stripe_commissions rates user_id_for_payment db_payment db))
| step_update_status db earning_id new_status notes :
    step db (fst (update_referral_earning_status db earning_id new_status notes))
| step_clock db t :
    now db <= t → step db (advance_clock t db).

(** The stores the application can be in, starting from empty tables. *)
Definition reachable (db : DB) : Prop := rtc step empty_db db.

(** ** Store invariants *)

Definition opt_Z_eqb (a b : option Z) : bool :=
  match a, b with
  | None, None => true
  | Some x, Some y => x =? y
  | _, _ => false
  end.

(** The lineage snapshot of one row: without a level-1 upline there is no
    level 2 or 3; otherwise levels 2 and 3 are the level-1 upline's own
    levels 1 and 2. *)
Definition lineage_okb (db : DB) (u : User.t) : bool :=
  match User.upline_l1_id u with
  | None =>
      opt_Z_eqb (User.upline_l2_id u) None && opt_Z_eqb (User.upline_l3_id u) None
  | Some r =>
      match get_user_by_id db r with
      | Some parent =>
          opt_Z_eqb (User.upline_l2_id u) (User.upline_l1_id parent)
          && opt_Z_eqb (User.upline_l3_id u) (User.upline_l2_id parent)
      | None => false
      end
  end.

(** A [users] row: a serial [id] (1 or more), upline foreign keys that
    resolve, and the lineage snapshot. *)
Definition user_okb (db : DB) (u : User.t) : bool :=
  (1 <=? User.id u)
  && fk_users (users db) (User.upline_l1_id u)
  && fk_users (users db) (User.upline_l2_id u)
  && fk_users (users db) (User.upline_l3_id u)
  && lineage_okb db u.

(** A [referral_earnings] row: the amount is a [DECIMAL(10, 2)] cell. *)
Definition earning_okb (e : ReferralEarning.t) : bool :=
  numeric_okb 10 2 (ReferralEarning.commission_amount e).

Definition db_okb (db : DB) : bool :=
  (1 <=? users_id_seq db)
  && forallb (user_okb db) (users db)
  && forallb earning_okb (referral_earnings db).

(** The invariant of the store; every reachable store has it
    ([reachable_db_ok] below). *)
Definition db_ok (db : DB) : Prop := db_okb db = true.

(** ** Reference definitions, in the words of the specification *)

(** Lineage Builder: [(R.id, R.upline_l1_id, R.upline_l2_id)] for a referrer
    [R] that resolves, three nulls otherwise. *)
Definition buildLineage (db : DB) (referrerUserId : option Z)
  : option Z * option Z * option Z :=
  match referrerUserId with
  | None => (None, None, None)
  | Some rid =>
      match get_user_by_id db rid with
      | Some R => (Some (User.id R), User.upline_l1_id R, User.upline_l2_id R)
      | None => (None, None, None)
      end
  end.

(** One (earner, level) pair per non-null upline pointer, in level order. *)
Definition owed_levels (payer : User.t) : list (Z * Z) :=
  omap (fun '(upline, level) => (fun earner => (earner, level)) <$> upline)
    [ (User.upline_l1_id payer, 1);
      (User.upline_l2_id payer, 2);
      (User.upline_l3_id payer, 3) ].

(** The rate configured for a level. *)
Definition rate_of_level (rates : CommissionRates) (level : Z) : option Decimal.t :=
  if level =? 1 then Some (COMMISSION_RATE_L1 rates)
  else if level =? 2 then Some (COMMISSION_RATE_L2 rates)
  else if level =? 3 then Some (COMMISSION_RATE_L3 rates)
  else None.

(** [amount * rate] with no rounding at all. *)
Definition exact_product (amount rate : Decimal.t) : Decimal.t :=
  Decimal.mk (Decimal.coef amount * Decimal.coef rate)
    (Decimal.exp amount + Decimal.exp rate).

(** The commission for a payment amount and a rate: the exact product,
    rounded half away from zero to two fractional digits. *)
Definition commission_for (amount rate : Decimal.t) : Decimal.t :=
  Decimal.mk (to_scale 2 (exact_product amount rate)) (-2).

(** A rate the commission block can store: a fraction between 0 and 1 with
    at most 18 significant digits. *)
Definition rate_okb (r : Decimal.t) : bool :=
  (Decimal.exp r <=? 0) && (0 <=? Decimal.coef r)
  && (Decimal.coef r <=? 10 ^ (- Decimal.exp r))
  && (Decimal.coef r <? 10 ^ 18).

Definition rates_okb (rates : CommissionRates) : bool :=
  rate_okb (COMMISSION_RATE_L1 rates)
  && rate_okb (COMMISSION_RATE_L2 rates)
  && rate_okb (COMMISSION_RATE_L3 rates).

(** The permitted transitions of the status lifecycle. *)
Definition valid_transition (from to : ReferralCommissionStatus) : bool :=
  match from, to with
  | PENDING, APPROVED | PENDING, REJECTED
  | APPROVED, PAID | APPROVED, REJECTED => true
  | _, _ => false
  end.

(** Sum of the amounts of some earnings, in cents. *)
Definition total_cents (rows : list ReferralEarning.t) : Z :=
  fold_right Z.add 0
    (List.map (fun e => Decimal.coef (ReferralEarning.commission_amount e)) rows).

(** Downline levels: the users whose [upline_l1_id] is one of [parents]. *)
Definition referred_by_any (db : DB) (parents : list Z) : list User.t :=
  List.filter
    (fun u => match User.upline_l1_id u with
              | Some p => bool_decide (p ∈ parents)
              | None => false
              end)
    (users db).

(** What the loop guarantees about a row it has inserted. *)
Definition inserted_by (paying_user : User.t) (db_payment : Payment.t)
    (todo : list (option Z * Decimal.t * Z)) (e : ReferralEarning.t) : Prop :=
  ReferralEarning.referred_user_id e = Some (User.id paying_user)
  ∧ ReferralEarning.source_payment_id e = Some (Payment.id db_payment)
  ∧ ReferralEarning.status e = PENDING
  ∧ ReferralEarning.notes e = None
  ∧ ∃ rate,
      In (Some (ReferralEarning.user_id e), rate, ReferralEarning.referral_level e) todo
      ∧ numeric_column 10 2 (Decimal.mul (Payment.amount db_payment) rate)
        = inr (ReferralEarning.commission_amount e).

(** ** Example stores *)

Definition new_user (firebase_uid email code : string) (referred_by_id : option Z)
  : UserCreateInternal.t :=
  UserCreateInternal.mk email None firebase_uid (Some code) referred_by_id.

(** U1 registers without a referrer, U2 with U1's code, U3 with U2's. *)
Definition db_chain3 : DB :=
  let db1 := fst (create_user empty_db (new_user "uid-1" "u1@example.org" "AAAA0001" None)) in
  let db2 := fst (create_user db1 (new_user "uid-2" "u2@example.org" "AAAA0002" (Some 1))) in
  fst (create_user db2 (new_user "uid-3" "u3@example.org" "AAAA0003" (Some 2))).

(** U4 registers with U3's code. *)
Definition user4_data : UserCreateInternal.t :=
  new_user "uid-4" "u4@example.org" "AAAA0004" (Some 3).

Definition db_chain4 : DB := fst (create_user db_chain3 user4_data).

(** A payment of 100.00 by U4, recorded as row 7 of [payments]. *)
Definition payment_100 : Payment.t :=
  Payment.mk 7 (Some 4) (Decimal.cents 10000) "USD" PAY_SUCCEEDED.

(** The store after the webhook for [payment_100] has run once. *)
Definition db_paid_once : DB :=
  fst (webhook_stripe_commissions default_rates 4 (Some payment_100) db_chain4).

(** Later the level-1 earning (row 1) is approved and paid out. *)
Definition db_row1_paid : DB :=
  let db1 := advance_clock 50 db_paid_once in
  let db2 := fst (update_referral_earning_status db1 1 APPROVED None) in
  fst (update_referral_earning_status (advance_clock 60 db2) 1 PAID
         (Some "paid by transfer"%string)).

(** The non-null entries of the loop's list: (earner, rate, level). *)
Definition owed (todo : list (option Z * Decimal.t * Z)) : list (Z * Decimal.t * Z) :=
  omap (fun '(upline, rate, level) => (fun earner => (earner, rate, level)) <$> upline)
    todo.

(** The earning owed to one upline: PENDING, no notes, the commission for
    the payment amount and the level's rate, the rate as its column keeps
    it. *)
Definition commission_row (id now : Z) (paying_user : User.t)
    (db_payment : Payment.t) (entry : Z * Decimal.t * Z) : ReferralEarning.t :=
  let '(earner, rate, level) := entry in
  ReferralEarning.mk id earner (Some (User.id paying_user))
    (Some (Payment.id db_payment))
    (commission_for (Payment.amount db_payment) rate)
    (Decimal.mk (to_scale 4 rate) (-4))
    level PENDING None now now.

(** The earnings owed for a list of entries, numbered from [id]. *)
Fixpoint commission_rows (id now : Z) (paying_user : User.t)
    (db_payment : Payment.t) (entries : list (Z * Decimal.t * Z))
  : list ReferralEarning.t :=
  match entries with
  | [] => []
  | entry :: rest =>
      commission_row id now paying_user db_payment entry
      :: commission_rows (id + 1) now paying_user db_payment rest
  end.

(** U2 and U3 pay 100.00 each and U2 pays another 30.00; U1 earns 10.00
    (row 1), 5.00 (row 3) and 3.00 (row 4).  Row 3 is then approved and
    row 4 approved and paid. *)
Definition db_three_statuses : DB :=
  let pay (id payer cents : Z) :=
    Payment.mk id (Some payer) (Decimal.cents cents) "USD" PAY_SUCCEEDED in
  let db1 := fst (webhook_stripe_commissions default_rates 2 (Some (pay 1 2 10000)) db_chain4) in
  let db2 := fst (webhook_stripe_commissions default_rates 3 (Some (pay 2 3 10000)) db1) in
  let db3 := fst (webhook_stripe_commissions default_rates 2 (Some (pay 3 2 3000)) db2) in
  let db4 := fst (update_referral_earning_status db3 3 APPROVED None) in
  let db5 := fst (update_referral_earning_status db4 4 APPROVED None) in
  fst (update_referral_earning_status db5 4 PAID None).

(** An entry of the loop's list the store accepts: a pointer that is set
    is truthy and resolves, and the rate is a fraction of at most 18
    digits. *)
Definition entry_ok (db : DB) (entry : option Z * Decimal.t * Z) : Prop :=
  let '(upline, rate, _) := entry in
  (∀ uid, upline = Some uid →
     truthy_int (Some uid) = true ∧ fk_users (users db) (Some uid) = true)
  ∧ rate_okb rate = true.

(** The triple on which the specification wants earnings to be unique. *)
Definition earning_triple (e : ReferralEarning.t) : Z * option Z * Z :=
  (ReferralEarning.user_id e, ReferralEarning.source_payment_id e,
   ReferralEarning.referral_level e).


(** ** [backend/crud/user_crud.py]: updates by an admin *)

(** [schemas.AdminUserUpdate] after [model_dump(exclude_unset=True)]: a
    field is absent ([None]), or present with a value that may itself be
    null ([Some None]). *)
Module AdminUserUpdate.
Record t : Type := mk {
  email : option (option string);
  role : option (option string)
}.
End AdminUserUpdate.

(** Write [u'] over the first row whose [id] is [user_id] (the row
    [get_user_by_id] loaded). *)
Fixpoint replace_user (user_id : Z) (u' : User.t) (rows : list User.t)
  : list User.t :=
  match rows with
  | [] => []
  | u :: rest =>
      if User.id u =? user_id then u' :: rest
      else u :: replace_user user_id u' rest
  end.

(** The rows other than the one [get_user_by_id] loads. *)
Fixpoint other_users (user_id : Z) (rows : list User.t) : list User.t :=
  match rows with
  | [] => []
  | u :: rest =>
      if User.id u =? user_id then rest else u :: other_users user_id rest
  end.

(** [update_user_by_admin].  [inr None] is the "not found" return; an
    [IntegrityError] is raised by the explicit e-mail check and re-raised
    when the commit fails (the unique constraint on [email], which on a
    table with unique e-mails the explicit check has already caught, or a
    null written to a NOT NULL column), and a [DataError] is re-raised when
    a new e-mail or role is too long for its column; the transaction is
    then rolled back.  Only the columns whose value changes are written. *)
Definition update_user_by_admin (db : DB) (user_id : Z)
    (data_in : AdminUserUpdate.t) : DB * (db_error + option User.t) :=
  match get_user_by_id db user_id with
  | None => (db, inr None)
  | Some db_user =>
      let email_in_use :=
        match AdminUserUpdate.email data_in with
        | Some new_email =>
            if negb (opt_str_same new_email (Some (User.email db_user))) then
              match
                match new_email with
                | Some e => get_user_by_email db e
                | None => None
                end
              with
              | Some existing => negb (User.id existing =? user_id)
              | None => false
              end
            else false
        | None => false
        end in
      if email_in_use then (db, inl IntegrityError)
      else
        let email' :=
          match AdminUserUpdate.email data_in with
          | Some v => v
          | None => Some (User.email db_user)
          end in
        let role' :=
          match AdminUserUpdate.role data_in with
          | Some v => v
          | None => Some (User.role db_user)
          end in
        match email' with
        | Some e =>
            let email_changed := negb (String.eqb e (User.email db_user)) in
            if email_changed
               && existsb (fun v => String.eqb (User.email v) e)
                    (other_users user_id (users db))
            then (db, inl IntegrityError)
            else
              let email_too_long := email_changed && negb (varchar_okb 255 e) in
              match role' with
              | Some r =>
                  let role_changed := negb (String.eqb r (User.role db_user)) in
                  if email_too_long || (role_changed && negb (varchar_okb 50 r))
                  then (db, inl DataError)
                  else
                    let updated_at' :=
                      if email_changed || role_changed then now db
                      else User.updated_at db_user in
                    let u' :=
                      User.mk (User.id db_user) (User.firebase_uid db_user) e r
                        (User.referral_code db_user) (User.referred_by_id db_user)
                        (User.upline_l1_id db_user) (User.upline_l2_id db_user)
                        (User.upline_l3_id db_user)
                        (User.stripe_customer_id db_user)
                        (User.created_at db_user) updated_at' in
                    (with_users (replace_user user_id u' (users db))
                       (users_id_seq db) db,
                     inr (Some u'))
              | None =>
                  if email_too_long then (db, inl DataError)
                  else (db, inl IntegrityError)
              end
        | None =>
            match role' with
            | Some r =>
                if negb (String.eqb r (User.role db_user))
                   && negb (varchar_okb 50 r)
                then (db, inl DataError)
                else (db, inl IntegrityError)
            | None => (db, inl IntegrityError)
            end
        end
  end.

(** ** [backend/routes/auth_routes.py]: login *)

(** [login_user_with_firebase]; [token] is the outcome of
    [verify_firebase_id_token]. *)
Definition login_user_with_firebase (db : DB) (token : http_result TokenData)
  : http_result User.t :=
  match token with
  | HTTPException c d => HTTPException c d
  | Response token_data =>
      match get_user_by_firebase_uid db (token_firebase_uid token_data) with
      | None =>
          HTTPException 404
            "User not registered in our system or account is inactive. Please complete registration or contact support."
      | Some user => Response user
      end
  end.

(** ** Requests, with the admin's user updates *)

Inductive request : DB → DB → Prop :=
| request_step db db' :
    step db db' → request db db'
| request_update_user db user_id data_in :
    request db (fst (update_user_by_admin db user_id data_in)).

Definition served (db : DB) : Prop := rtc request empty_db db.

(** ** Keys, uniqueness and the upline forest *)

Fixpoint distinctb {A : Type} (eqb : A → A → bool) (l : list A) : bool :=
  match l with
  | [] => true
  | x :: rest => negb (existsb (eqb x) rest) && distinctb eqb rest
  end.

(** Primary keys: every [id] was drawn from the sequence, none twice. *)
Definition users_keys_okb (db : DB) : bool :=
  forallb (fun u => User.id u <? users_id_seq db) (users db)
  && distinctb Z.eqb (List.map User.id (users db)).

Definition earnings_keys_okb (db : DB) : bool :=
  forallb (fun e => ReferralEarning.id e <? referral_earnings_id_seq db)
    (referral_earnings db)
  && distinctb Z.eqb (List.map ReferralEarning.id (referral_earnings db)).

(** The unique columns of [users]; a NULL referral code collides with
    nothing. *)
Definition users_uniqueb (db : DB) : bool :=
  distinctb String.eqb (List.map User.firebase_uid (users db))
  && distinctb String.eqb (List.map User.email (users db))
  && distinctb String.eqb (omap User.referral_code (users db)).

(** The level-1 upline of a user was created before the user. *)
Definition forest_okb (db : DB) : bool :=
  forallb (fun u => match User.upline_l1_id u with
                    | Some r => r <? User.id u
                    | None => true
                    end) (users db).

Definition db_wfb (db : DB) : bool :=
  db_okb db && users_keys_okb db && earnings_keys_okb db
  && users_uniqueb db && forest_okb db.

(** The full invariant of the store; every served store has it
    (shown below). *)
Definition db_wf (db : DB) : Prop := db_wfb db = true.

(** The columns of a [users] row that carry the recruitment tree. *)
Definition lineage_of (u : User.t) : Z * option Z * option Z * option Z :=
  (User.id u, User.upline_l1_id u, User.upline_l2_id u, User.upline_l3_id u).

(** (earner, level) of an earning. *)
Definition earner_level (e : ReferralEarning.t) : Z * Z :=
  (ReferralEarning.user_id e, ReferralEarning.referral_level e).

(** Rates under which the level-2 insert is refused: 100 does not fit the
    [DECIMAL(5, 4)] rate column. *)
Definition rates_l2_too_large : CommissionRates :=
  mkRates (Decimal.mk 10 (-2)) (Decimal.mk 100 0) (Decimal.mk 2 (-2)).

(** ** Downline levels by depth, and by snapshot column *)

(** The ids whose direct referrals make up level [depth + 1] below
    [user_id]. *)
Fixpoint downline_parents (db : DB) (user_id : Z) (depth : nat) : list Z :=
  match depth with
  | O => [user_id]
  | S d => List.map User.id (referred_by_any db (downline_parents db user_id d))
  end.

Definition downline_level (db : DB) (user_id : Z) (level : Z) : list User.t :=
  referred_by_any db (downline_parents db user_id (Z.to_nat (level - 1))).

(** The users that carry [user_id] in one of the upline columns. *)
Definition users_with_upline (column : User.t → option Z) (db : DB) (user_id : Z)
  : list User.t :=
  List.filter (fun u => opt_Z_eqb (column u) (Some user_id)) (users db).

(** The upline column of a level. *)
Definition upline_column (level : Z) (u : User.t) : option Z :=
  if level =? 1 then User.upline_l1_id u
  else if level =? 2 then User.upline_l2_id u
  else if level =? 3 then User.upline_l3_id u
  else None.

(** ** [backend/crud/referral_crud.py]: listings *)

(** [created_at DESC]: [a] may come before [b]. *)
Definition newest_first (a b : ReferralEarning.t) : Prop :=
  ReferralEarning.created_at b <= ReferralEarning.created_at a.

(** [.offset(skip).limit(limit)].  The store refuses a negative row count
    and one that is no [bigint], both with an error of class 22. *)
Definition offset_limit {A : Type} (skip limit : Z) (rows : list A)
  : db_error + list A :=
  if (0 <=? skip) && (skip <? 2 ^ 63) && (0 <=? limit) && (limit <? 2 ^ 63)
  then inr (take (Z.to_nat limit) (drop (Z.to_nat skip) rows))
  else inl DataError.

(** [get_referral_earnings_for_user].  [ORDER BY created_at DESC] leaves
    the order of rows with equal [created_at] to the store, so the ordering
    the store applies is a parameter, [order_by_created_at_desc]. *)
Definition get_referral_earnings_for_user
    (order_by_created_at_desc : list ReferralEarning.t → list ReferralEarning.t)
    (db : DB) (user_id : Z) (status : option ReferralCommissionStatus)
    (skip limit : Z) : db_error + list ReferralEarning.t :=
  let query :=
    List.filter (fun e => ReferralEarning.user_id e =? user_id)
      (referral_earnings db) in
  let query :=
    match status with
    | Some s => List.filter (fun e => status_eqb (ReferralEarning.status e) s) query
    | None => query
    end in
  offset_limit skip limit (order_by_created_at_desc query).

(** [get_all_referral_earnings]: [if user_id:] and [if referred_user_id:]
    skip the filter for [None] and for 0. *)
Definition get_all_referral_earnings
    (order_by_created_at_desc : list ReferralEarning.t → list ReferralEarning.t)
    (db : DB) (status : option ReferralCommissionStatus)
    (user_id referred_user_id : option Z) (skip limit : Z)
  : db_error + list ReferralEarning.t :=
  let query := referral_earnings db in
  let query :=
    match status with
    | Some s => List.filter (fun e => status_eqb (ReferralEarning.status e) s) query
    | None => query
    end in
  let query :=
    match user_id with
    | Some uid =>
        if truthy_int user_id
        then List.filter (fun e => ReferralEarning.user_id e =? uid) query
        else query
    | None => query
    end in
  let query :=
    match referred_user_id with
    | Some rid =>
        if truthy_int referred_user_id
        then List.filter
               (fun e => opt_Z_eqb (ReferralEarning.referred_user_id e) (Some rid))
               query
        else query
    | None => query
    end in
  offset_limit skip limit (order_by_created_at_desc query).

(** One ordering the store may apply: a stable merge sort. *)
Definition newest_first_dec (a b : ReferralEarning.t) : Decision (newest_first a b) :=
  Z_le_dec (ReferralEarning.created_at b) (ReferralEarning.created_at a).

Definition merge_sort_created_at_desc (rows : list ReferralEarning.t)
  : list ReferralEarning.t :=
  @merge_sort _ newest_first newest_first_dec rows.

(** ** [backend/core/dependencies.py] *)

(** [str.lower()], on the ASCII letters; the result is only compared with
    an ASCII word. *)
Definition ascii_lower (c : Ascii.ascii) : Ascii.ascii :=
  let n := Ascii.N_of_ascii c in
  if ((65 <=? n) && (n <=? 90))%N then Ascii.ascii_of_N (n + 32) else c.

Fixpoint str_lower (s : string) : string :=
  match s with
  | EmptyString => EmptyString
  | String c rest => String (ascii_lower c) (str_lower rest)
  end.

(** [get_current_user].  The header value is [None] when the request has
    no [Authorization] header; [get_authorization_scheme_param] is the
    framework's split of the header into scheme and parameter and
    [verify_firebase_id_token] the token check of [backend/core/security.py],
    which either returns the token's claims or raises an [HTTPException]. *)
Definition get_current_user
    (get_authorization_scheme_param : option string → string * string)
    (verify_firebase_id_token : string → http_result TokenData)
    (db : DB) (authorization : option string) : http_result User.t :=
  let '(scheme, param) := get_authorization_scheme_param authorization in
  if negb (truthy_str authorization)
     || negb (String.eqb (str_lower scheme) "bearer")
  then HTTPException 401 "Not authenticated. Bearer token required."
  else
    match verify_firebase_id_token param with
    | HTTPException c d => HTTPException c d
    | Response token_data =>
        match get_user_by_firebase_uid db (token_firebase_uid token_data) with
        | None =>
            HTTPException 403
              "User account not found or not fully registered in the system."
        | Some user => Response user
        end
    end.

(** [get_current_active_user] returns the current user as it is. *)
Definition get_current_active_user
    (get_authorization_scheme_param : option string → string * string)
    (verify_firebase_id_token : string → http_result TokenData)
    (db : DB) (authorization : option string) : http_result User.t :=
  get_current_user get_authorization_scheme_param verify_firebase_id_token db
    authorization.

(** [get_current_admin_user]. *)
Definition get_current_admin_user
    (get_authorization_scheme_param : option string → string * string)
    (verify_firebase_id_token : string → http_result TokenData)
    (db : DB) (authorization : option string) : http_result User.t :=
  match get_current_active_user get_authorization_scheme_param
          verify_firebase_id_token db authorization with
  | HTTPException c d => HTTPException c d
  | Response current_user =>
      if negb (String.eqb (User.role current_user) "Admin")
      then HTTPException 403 "Operation not permitted: Requires admin privileges."
      else Response current_user
  end.

(** The role-only update an admin sends to promote a user. *)
Definition promote_to_admin : AdminUserUpdate.t :=
  AdminUserUpdate.mk None (Some (Some "Admin"%string)).

(** A header split and a token check for the examples: every header is
    [Bearer] with the token of [uid-1]. *)
Definition split_bearer (_ : option string) : string * string :=
  ("Bearer"%string, "token-1"%string).

Definition verify_uid_1 (_ : string) : http_result TokenData :=
  Response (mkTokenData "uid-1" "u1@example.org").

(** A level-1 rate of 20 significant digits, and a payment of the largest
    amount a [DECIMAL(10, 2)] column holds, made by U2. *)
Definition rates_20_digits : CommissionRates :=
  mkRates (Decimal.mk 50000000010000000001 (-20)) (Decimal.mk 5 (-2))
    (Decimal.mk 2 (-2)).

Definition payment_max : Payment.t :=
  Payment.mk 9 (Some 2) (Decimal.cents 9999999999) "USD" PAY_SUCCEEDED.

(** ** [backend/crud/payment_crud.py] and the payment step of the webhook *)

Module PaymentRow.
(** A row of [payments]: the columns of [Payment.t] and the two gateway
    identifiers the handler looks a payment up by, each unique when not
    null. *)
Record t : Type := mk {
  payment : Payment.t;
  transaction_id : option string;     (* String(255), unique *)
  payment_intent_id : option string   (* String(255), unique *)
}.
End PaymentRow.

Module PaymentCreate.
(** [schemas.PaymentCreate], the fields [create_payment_record] stores. *)
Record t : Type := mk {
  user_id : Z;
  amount : Decimal.t;
  currency : string;
  status : PaymentStatus;
  transaction_id : option string;
  payment_intent_id : option string
}.
End PaymentCreate.

(** The store with its [payments] table; [tables] holds the tables of the
    referral subsystem. *)
Record Ledger : Type := mkLedger {
  payments : list PaymentRow.t;
  payments_id_seq : Z;
  tables : DB
}.

Definition with_tables (db : DB) (st : Ledger) : Ledger :=
  mkLedger (payments st) (payments_id_seq st) db.

(** [column == value] as the ORM renders it: a comparison with [None]
    becomes [IS NULL]. *)
Definition sql_eq_str (column value : option string) : bool :=
  match column, value with
  | Some a, Some b => String.eqb a b
  | None, None => true
  | _, _ => false
  end.

(** [get_payment_by_transaction_id], called without a gateway. *)
Definition get_payment_by_transaction_id (st : Ledger)
    (transaction_id : option string) : option PaymentRow.t :=
  List.find (fun p => sql_eq_str (PaymentRow.transaction_id p) transaction_id)
    (payments st).

(** [get_payment_by_payment_intent_id]. *)
Definition get_payment_by_payment_intent_id (st : Ledger)
    (payment_intent_id : option string) : option PaymentRow.t :=
  List.find
    (fun p => sql_eq_str (PaymentRow.payment_intent_id p) payment_intent_id)
    (payments st).

(** [create_payment_record]: insert, commit, refresh.  The function
    catches nothing.  A value that does not fit its column is refused with
    a [DataError] before the row gets an id; a row that violates a unique
    constraint or the foreign key on [user_id] is refused with an
    [IntegrityError] after it has drawn its id. *)
Definition create_payment_record (payment_in : PaymentCreate.t) (st : Ledger)
  : Ledger * (db_error + PaymentRow.t) :=
  let fits (n : nat) (v : option string) :=
    match v with
    | Some s => varchar_okb n s
    | None => true
    end in
  match numeric_column 10 2 (PaymentCreate.amount payment_in) with
  | inl e => (st, inl e)
  | inr amount =>
      if negb (varchar_okb 10 (PaymentCreate.currency payment_in)
               && fits 255%nat (PaymentCreate.transaction_id payment_in)
               && fits 255%nat (PaymentCreate.payment_intent_id payment_in))
      then (st, inl DataError)
      else
        let db_payment :=
          PaymentRow.mk
            (Payment.mk (payments_id_seq st) (Some (PaymentCreate.user_id payment_in))
               amount (PaymentCreate.currency payment_in)
               (PaymentCreate.status payment_in))
            (PaymentCreate.transaction_id payment_in)
            (PaymentCreate.payment_intent_id payment_in) in
        if existsb (fun p => opt_string_eqb (PaymentRow.transaction_id p)
                               (PaymentCreate.transaction_id payment_in))
             (payments st)
           || existsb (fun p => opt_string_eqb (PaymentRow.payment_intent_id p)
                                  (PaymentCreate.payment_intent_id payment_in))
                (payments st)
           || negb (fk_users (users (tables st))
                      (Some (PaymentCreate.user_id payment_in)))
        then (mkLedger (payments st) (payments_id_seq st + 1) (tables st),
              inl IntegrityError)
        else (mkLedger (payments st ++ [db_payment]) (payments_id_seq st + 1)
                (tables st),
              inr db_payment)
  end.

(** What the payment step of the handler can raise. *)
Inductive handler_exception : Type :=
| StripeError                     (* raised by [stripe.Charge.retrieve] *)
| TypeError                       (* a call that does not fit the callee's signature *)
| ValidationError                 (* raised by the [PaymentCreate] schema *)
| SQLAlchemyError (e : db_error). (* raised by a commit *)

(** The validators of [PaymentCreate] on the fields the handler fills in. *)
Definition payment_create_valid (is_http_url : string → bool)
    (amount : Decimal.t) (currency : string)
    (transaction_id payment_intent_id invoice_url receipt_url : option string)
  : bool :=
  let max_length (n : nat) (v : option string) :=
    match v with
    | Some s => varchar_okb n s
    | None => true
    end in
  let http_url (v : option string) :=
    match v with
    | Some s => is_http_url s
    | None => true
    end in
  (0 <? Decimal.coef amount)
  && varchar_okb 10 currency
  && max_length 255%nat transaction_id
  && max_length 255%nat payment_intent_id
  && http_url invoice_url
  && http_url receipt_url.

(** The [invoice.payment_succeeded] branch of [webhook_stripe], from
    "Payment Record Update/Create" to the end of the commission block,
    entered with the id of the user the payment belongs to.
    [retrieve_receipt_url] is [stripe.Charge.retrieve(charge_id).receipt_url]
    and [is_http_url] the schema's [HttpUrl] validator; [amount] is the
    value of [Decimal(amount_paid / 100) if amount_paid is not None else
    Decimal(0)] and [currency] that of [currency.upper() if currency else
    "USD"].

    When a payments row exists for the charge or the payment intent, the
    handler calls [update_payment_status] with the keyword [transaction_id];
    the function has no such parameter (its parameter is
    [transaction_id_gateway]), so the call raises [TypeError] once its
    arguments are evaluated, and the commission block is not reached.  The
    block runs for the row that [create_payment_record] has just
    inserted. *)
Definition invoice_payment_succeeded
    (retrieve_receipt_url : string → handler_exception + option string)
    (is_http_url : string → bool)
    (rates : CommissionRates) (user_id_for_payment : Z)
    (charge_id payment_intent_id invoice_url : option string)
    (amount : Decimal.t) (currency : string)
    (st : Ledger) : Ledger * (handler_exception + unit) :=
  let db_payment :=
    match get_payment_by_transaction_id st charge_id with
    | Some p => Some p
    | None =>
        if truthy_str payment_intent_id
        then get_payment_by_payment_intent_id st payment_intent_id
        else None
    end in
  let receipt_url :=
    match charge_id with
    | Some c => if truthy_str charge_id then retrieve_receipt_url c else inr None
    | None => inr None
    end in
  match db_payment with
  | Some _ =>
      match receipt_url with
      | inl exc => (st, inl exc)
      | inr _ => (st, inl TypeError)
      end
  | None =>
      match receipt_url with
      | inl exc => (st, inl exc)
      | inr receipt =>
          if payment_create_valid is_http_url amount currency charge_id
               payment_intent_id invoice_url receipt
          then
            match create_payment_record
                    (PaymentCreate.mk user_id_for_payment amount currency
                       PAY_SUCCEEDED charge_id payment_intent_id) st with
            | (st', inl e) => (st', inl (SQLAlchemyError e))
            | (st', inr row) =>
                match webhook_stripe_commissions rates user_id_for_payment
                        (Some (PaymentRow.payment row)) (tables st') with
                | (db', inl e) => (with_tables db' st', inl (SQLAlchemyError e))
                | (db', inr _) => (with_tables db' st', inr tt)
                end
            end
          else (st, inl ValidationError)
      end
  end.

(** The chain of four users with no payment yet; a Stripe lookup that finds
    no receipt and a URL validator that accepts everything. *)
Definition ledger_chain4 : Ledger := mkLedger [] 1 db_chain4.

Definition no_receipt (_ : string) : handler_exception + option string :=
  inr None.

Definition any_url (_ : string) : bool := true.

(** * Properties *)

(** ** Lookups *)

Lemma get_user_by_id_Some db i u :
  get_user_by_id db i = Some u → In u (users db) ∧ User.id u = i.
Proof.
  unfold get_user_by_id. intros H. apply find_some in H as [Hin Heq].
  split; [done | lia].
Qed.

Lemma get_user_by_id_self db i u :
  get_user_by_id db i = Some u → get_user_by_id db (User.id u) = Some u.
Proof.
  intros H. destruct (get_user_by_id_Some _ _ _ H) as [_ ->]. done.
Qed.

Lemma find_app_Some {A} (f : A → bool) (l1 l2 : list A) x :
  List.find f l1 = Some x → List.find f (l1 ++ l2) = Some x.
Proof.
  induction l1 as [|a l1 IH]; simpl; [done |].
  destruct (f a); [done | exact IH].
Qed.

Lemma fk_users_app rows extra ref :
  fk_users rows ref = true → fk_users (rows ++ extra) ref = true.
Proof.
  destruct ref as [i|]; simpl; [| done].
  rewrite existsb_app. intros ->. done.
Qed.

Lemma get_user_fk db i u :
  get_user_by_id db i = Some u → fk_users (users db) (Some (User.id u)) = true.
Proof.
  intros H. apply get_user_by_id_Some in H as [Hin _]. simpl.
  apply existsb_exists. exists u. split; [done | lia].
Qed.

Lemma find_None_existsb {A} (f : A → bool) (l : list A) :
  List.find f l = None → existsb f l = false.
Proof.
  induction l as [|a l IH]; simpl; [done |].
  destruct (f a); [done | exact IH].
Qed.

Lemma existsb_never {A} (f : A → bool) (l : list A) :
  (∀ a, f a = false) → existsb f l = false.
Proof.
  intros Hf. induction l as [|a l IH]; simpl; [done |]. by rewrite Hf, IH.
Qed.

Lemma opt_Z_eqb_eq a b : opt_Z_eqb a b = true ↔ a = b.
Proof.
  destruct a, b; simpl; split; try done.
  - intros H. f_equal. lia.
  - intros [= ->]. lia.
Qed.

(** ** What the invariant gives for one row *)

Lemma db_ok_user db u :
  db_ok db → In u (users db) → user_okb db u = true.
Proof.
  unfold db_ok, db_okb. intros H Hin.
  apply andb_prop in H as [H _]. apply andb_prop in H as [_ H].
  rewrite forallb_forall in H. auto.
Qed.

Lemma user_ok_id db u : user_okb db u = true → 1 <= User.id u.
Proof. unfold user_okb. intros H. repeat (apply andb_prop in H as [H ?]). lia. Qed.

(** In a store that satisfies the invariant no pointer is 0: a pointer that
    is set is truthy. *)
Lemma fk_truthy db p :
  db_ok db → fk_users (users db) (Some p) = true → truthy_int (Some p) = true.
Proof.
  intros Hok H. simpl in *. apply existsb_exists in H as (u & Hin & Hu).
  pose proof (user_ok_id _ _ (db_ok_user _ _ Hok Hin)).
  apply negb_true_iff. lia.
Qed.

Lemma db_ok_no_user_0 db : db_ok db → get_user_by_id db 0 = None.
Proof.
  intros Hok. destruct (get_user_by_id db 0) eqn:E; [| done].
  apply get_user_by_id_Some in E as [Hin Hid].
  pose proof (user_ok_id _ _ (db_ok_user _ _ Hok Hin)). lia.
Qed.

(** ** Lineage *)

(** On a store that satisfies the invariant the block of [create_user]
    computes the specified lineage. *)
Lemma populate_upline_buildLineage db referred_by_id :
  db_ok db → populate_upline db referred_by_id = buildLineage db referred_by_id.
Proof.
  intros Hok. unfold populate_upline, buildLineage.
  destruct referred_by_id as [rid|]; [| done].
  destruct (Z.eqb_spec rid 0) as [-> | _].
  { by rewrite db_ok_no_user_0. }
  destruct (get_user_by_id db rid) as [R|] eqn:HR; [| done].
  apply get_user_by_id_Some in HR as [HRin _].
  pose proof (db_ok_user _ _ Hok HRin) as HRok.
  unfold user_okb in HRok.
  apply andb_prop in HRok as [HRok Hlin].
  apply andb_prop in HRok as [HRok Hfk3].
  apply andb_prop in HRok as [HRok Hfk2].
  apply andb_prop in HRok as [_ Hfk1].
  unfold lineage_okb in Hlin.
  destruct (User.upline_l1_id R) as [a|] eqn:Ha.
  - rewrite (fk_truthy _ _ Hok Hfk1).
    unfold upline_l1. rewrite Ha.
    destruct (get_user_by_id db a) as [A|] eqn:HA; [| done].
    apply andb_prop in Hlin as [H2 _]. apply opt_Z_eqb_eq in H2.
    rewrite <- H2.
    destruct (User.upline_l2_id R) as [b|] eqn:Hb.
    + by rewrite (fk_truthy _ _ Hok Hfk2).
    + done.
  - apply andb_prop in Hlin as [H2 _]. apply opt_Z_eqb_eq in H2.
    simpl. by rewrite H2.
Qed.

(** Inversion of a successful [create_user]. *)
Lemma create_user_Some db user_data db' u :
  create_user db user_data = (db', Some u) →
  db' = with_users (users db ++ [u]) (users_id_seq db + 1) db
  ∧ User.id u = users_id_seq db
  ∧ User.referred_by_id u = UserCreateInternal.referred_by_id user_data
  ∧ (User.upline_l1_id u, User.upline_l2_id u, User.upline_l3_id u)
    = populate_upline db (UserCreateInternal.referred_by_id user_data)
  ∧ users_constraints_ok db u = true.
Proof.
  unfold create_user.
  destruct (get_user_by_firebase_uid _ _); [intros [= _ ?]; done |].
  destruct (get_user_by_email _ _); [intros [= _ ?]; done |].
  destruct (populate_upline _ _) as [[l1 l2] l3].
  match goal with |- context [users_widths_ok ?x] =>
    destruct (users_widths_ok x) eqn:Hwidth end; cbn [negb];
    [| intros [= _ ?]; done].
  match goal with |- context [users_constraints_ok db ?x] =>
    destruct (users_constraints_ok db x) eqn:Hc end.
  - intros [= <- <-]. simpl. done.
  - intros [= _ ?]; done.
Qed.

(** A row that was created fits its columns. *)
Lemma create_user_widths db user_data db' u :
  create_user db user_data = (db', Some u) → users_widths_ok u = true.
Proof.
  unfold create_user.
  destruct (get_user_by_firebase_uid _ _); [intros [= _ ?]; done |].
  destruct (get_user_by_email _ _); [intros [= _ ?]; done |].
  destruct (populate_upline _ _) as [[l1 l2] l3].
  match goal with |- context [users_widths_ok ?x] =>
    destruct (users_widths_ok x) eqn:Hwidth end; cbn [negb];
    [| intros [= _ ?]; done].
  match goal with |- context [users_constraints_ok db ?x] =>
    destruct (users_constraints_ok db x) end.
  - by intros [= _ <-].
  - intros [= _ ?]; done.
Qed.

(** A refused [create_user] leaves the tables as they were; the sequence
    has moved on when the row was refused by a constraint. *)
Lemma create_user_None db user_data db' :
  create_user db user_data = (db', None) →
  db' = db ∨ db' = with_users (users db) (users_id_seq db + 1) db.
Proof.
  unfold create_user.
  destruct (get_user_by_firebase_uid _ _); [intros [= <-]; by left |].
  destruct (get_user_by_email _ _); [intros [= <-]; by left |].
  destruct (populate_upline _ _) as [[l1 l2] l3].
  match goal with |- context [users_widths_ok ?x] =>
    destruct (users_widths_ok x) eqn:Hwidth end; cbn [negb];
    [| intros [= <-]; by left].
  match goal with |- context [users_constraints_ok db ?x] =>
    destruct (users_constraints_ok db x) end.
  - intros [= _ ?]; done.
  - intros [= <-]. by right.
Qed.

Lemma db_ok_sequence_draw db :
  db_ok db → db_ok (with_users (users db) (users_id_seq db + 1) db).
Proof.
  unfold db_ok, db_okb. intros H.
  apply andb_prop in H as [H Hearn].
  apply andb_prop in H as [Hseq Husers].
  cbn [users referral_earnings users_id_seq referral_earnings_id_seq with_users].
  rewrite Hearn, andb_true_r. apply andb_true_intro. split.
  - apply Z.leb_le in Hseq. apply Z.leb_le. lia.
  - exact Husers.
Qed.

(** ** The invariant is kept by every request *)

Lemma lineage_okb_grow db db' u :
  (∀ i v, get_user_by_id db i = Some v → get_user_by_id db' i = Some v) →
  lineage_okb db u = true → lineage_okb db' u = true.
Proof.
  intros Hgrow. unfold lineage_okb.
  destruct (User.upline_l1_id u) as [r|]; [| done].
  destruct (get_user_by_id db r) as [p|] eqn:E; [| done].
  by rewrite (Hgrow _ _ E).
Qed.

Lemma user_okb_grow db u extra seq :
  user_okb db u = true →
  user_okb (with_users (users db ++ extra) seq db) u = true.
Proof.
  unfold user_okb. intros H.
  apply andb_prop in H as [H Hlin].
  apply andb_prop in H as [H H3].
  apply andb_prop in H as [H H2].
  apply andb_prop in H as [H0 H1].
  rewrite H0. simpl.
  rewrite !fk_users_app by done. simpl.
  eapply lineage_okb_grow; [| exact Hlin].
  intros i v. unfold get_user_by_id. simpl. apply find_app_Some.
Qed.

Lemma create_user_db_ok db user_data :
  db_ok db → db_ok (fst (create_user db user_data)).
Proof.
  intros Hok.
  destruct (create_user db user_data) as [db' [u|]] eqn:E; simpl.
  2: { destruct (create_user_None _ _ _ E) as [-> | ->];
         [done | by apply db_ok_sequence_draw]. }
  apply create_user_Some in E as (-> & Hid & _ & Hup & Hc).
  rewrite populate_upline_buildLineage in Hup by done.
  pose proof Hok as Hok'.
  unfold db_ok, db_okb in Hok' |- *.
  apply andb_prop in Hok' as [Hok' Hearn].
  apply andb_prop in Hok' as [Hseq Husers].
  simpl. rewrite Hearn, andb_true_r.
  apply andb_true_intro. split; [lia |].
  rewrite forallb_app. apply andb_true_intro. split.
  - rewrite forallb_forall in Husers |- *.
    intros v Hv. apply user_okb_grow. auto.
  - simpl. rewrite andb_true_r.
    unfold users_constraints_ok in Hc.
    apply andb_prop in Hc as [Hc H3].
    apply andb_prop in Hc as [Hc H2].
    apply andb_prop in Hc as [Hc H1].
    unfold user_okb. simpl. rewrite H1, H2, H3, !andb_true_r.
    apply andb_true_intro. split; [lia |].
    unfold buildLineage in Hup.
    unfold lineage_okb.
    destruct (UserCreateInternal.referred_by_id user_data) as [rid|].
    2: { injection Hup as -> -> ->. done. }
    destruct (get_user_by_id db rid) as [R|] eqn:HR.
    2: { injection Hup as -> -> ->. done. }
    injection Hup as -> -> ->.
    apply get_user_by_id_self in HR.
    unfold get_user_by_id in HR |- *. simpl.
    rewrite (find_app_Some _ _ _ _ HR).
    apply andb_true_intro; split; by apply opt_Z_eqb_eq.
Qed.

(** ** One insert into [referral_earnings] *)

Lemma numeric_column_ok p s d d' :
  numeric_column p s d = inr d' → numeric_okb p s d' = true.
Proof.
  unfold numeric_column, numeric_okb.
  destruct (Z.abs (to_scale s d) <? 10 ^ p) eqn:E; [| done].
  intros [= <-]. simpl. rewrite E. apply andb_true_intro. split; [lia | done].
Qed.

Lemma numeric_column_value p s d d' :
  numeric_column p s d = inr d' → d' = Decimal.mk (to_scale s d) (- s).
Proof.
  unfold numeric_column.
  destruct (Z.abs (to_scale s d) <? 10 ^ p); [| done]. by intros [= <-].
Qed.

(** A successful insert appends exactly one row, built from the request and
    the two column roundings. *)
Lemma create_referral_earning_inr earning_in db db' e :
  create_referral_earning earning_in db = (db', inr e) →
  db' = with_earnings (referral_earnings db ++ [e])
          (referral_earnings_id_seq db + 1) db
  ∧ numeric_column 10 2 (ReferralEarningCreate.commission_amount earning_in)
    = inr (ReferralEarning.commission_amount e)
  ∧ ReferralEarning.id e = referral_earnings_id_seq db
  ∧ ReferralEarning.user_id e = ReferralEarningCreate.user_id earning_in
  ∧ ReferralEarning.referred_user_id e
    = Some (ReferralEarningCreate.referred_user_id earning_in)
  ∧ ReferralEarning.source_payment_id e
    = Some (ReferralEarningCreate.source_payment_id earning_in)
  ∧ ReferralEarning.referral_level e = ReferralEarningCreate.referral_level earning_in
  ∧ ReferralEarning.status e = ReferralEarningCreate.status earning_in
  ∧ ReferralEarning.notes e = ReferralEarningCreate.notes earning_in.
Proof.
  unfold create_referral_earning, raise.
  destruct (negb _); [done |].
  destruct (numeric_column 10 2 _) as [?|amount] eqn:Ea; [done |].
  destruct (numeric_column 5 4 _) as [?|rate]; [done |].
  intros [= <- <-]. simpl. done.
Qed.

(** A failed insert leaves the store as it was. *)
Lemma create_referral_earning_inl earning_in db db' err :
  create_referral_earning earning_in db = (db', inl err) → db' = db.
Proof.
  unfold create_referral_earning, raise.
  destruct (negb _); [by intros [= <-] |].
  destruct (numeric_column 10 2 _) as [?|amount]; [by intros [= <-] |].
  destruct (numeric_column 5 4 _) as [?|rate]; [by intros [= <-] | done].
Qed.

(** The insert goes through when both foreign keys resolve and both
    decimals fit their columns. *)
Lemma create_referral_earning_runs earning_in db amount rate :
  fk_users (users db) (Some (ReferralEarningCreate.user_id earning_in)) = true →
  fk_users (users db) (Some (ReferralEarningCreate.referred_user_id earning_in)) = true →
  numeric_column 10 2 (ReferralEarningCreate.commission_amount earning_in) = inr amount →
  numeric_column 5 4 (ReferralEarningCreate.commission_rate earning_in) = inr rate →
  let e :=
    ReferralEarning.mk (referral_earnings_id_seq db)
      (ReferralEarningCreate.user_id earning_in)
      (Some (ReferralEarningCreate.referred_user_id earning_in))
      (Some (ReferralEarningCreate.source_payment_id earning_in))
      amount rate
      (ReferralEarningCreate.referral_level earning_in)
      (ReferralEarningCreate.status earning_in)
      (ReferralEarningCreate.notes earning_in)
      (now db) (now db) in
  create_referral_earning earning_in db
  = (with_earnings (referral_earnings db ++ [e])
       (referral_earnings_id_seq db + 1) db, inr e).
Proof.
  intros H1 H2 Ha Hr. unfold create_referral_earning.
  rewrite H1, H2, Ha, Hr. reflexivity.
Qed.

(** ** The commission loop *)

Lemma inserted_by_cons paying_user db_payment x todo e :
  inserted_by paying_user db_payment todo e →
  inserted_by paying_user db_payment (x :: todo) e.
Proof.
  intros (? & ? & ? & ? & rate & Hin & ?).
  repeat split; try done. exists rate. split; [by right | done].
Qed.

(** Whatever its outcome, the loop only appends rows to
    [referral_earnings], numbered from the sequence, each built from one
    entry of the list. *)
Lemma commission_loop_appends paying_user db_payment todo :
  ∀ db db' r,
    commission_loop paying_user db_payment todo db = (db', r) →
    ∃ new,
      db' = with_earnings (referral_earnings db ++ new)
              (referral_earnings_id_seq db + Z.of_nat (length new)) db
      ∧ Forall (inserted_by paying_user db_payment todo) new.
Proof.
  induction todo as [|[[upline rate] level] todo IH]; intros db db' r; simpl.
  - intros [= <- <-]. exists []. simpl. rewrite app_nil_r, Z.add_0_r.
    split; [by destruct db | constructor].
  - assert (Hskip :
      commission_loop paying_user db_payment todo db = (db', r) →
      ∃ new,
        db' = with_earnings (referral_earnings db ++ new)
                (referral_earnings_id_seq db + Z.of_nat (length new)) db
        ∧ Forall (inserted_by paying_user db_payment
                    ((upline, rate, level) :: todo)) new).
    { intros H. apply IH in H as (new & -> & Hall). exists new. split; [done |].
      eapply Forall_impl; [exact Hall |]. intros e. apply inserted_by_cons. }
    destruct upline as [uid|]; [| exact Hskip].
    destruct (truthy_int (Some uid)); [| exact Hskip].
    unfold bind.
    destruct (create_referral_earning _ db) as [db1 [err|e]] eqn:Ec.
    + intros [= <- <-]. apply create_referral_earning_inl in Ec as ->.
      exists []. simpl. rewrite app_nil_r, Z.add_0_r.
      split; [by destruct db | constructor].
    + intros H. apply IH in H as (new & -> & Hall).
      apply create_referral_earning_inr in Ec
        as (-> & Ha & _ & Hu & Hr & Hs & Hl & Hst & Hn).
      simpl in *. exists (e :: new). split.
      * unfold with_earnings. simpl. rewrite <- app_assoc. simpl.
        f_equal. lia.
      * constructor.
        -- repeat split; try done. exists rate.
           split; [left; by rewrite Hu, Hl | done].
        -- eapply Forall_impl; [exact Hall |]. intros e'. apply inserted_by_cons.
Qed.

Lemma webhook_stripe_commissions_appends rates user_id_for_payment db_payment db db' r :
  webhook_stripe_commissions rates user_id_for_payment db_payment db = (db', r) →
  ∃ new,
    db' = with_earnings (referral_earnings db ++ new)
            (referral_earnings_id_seq db + Z.of_nat (length new)) db
    ∧ ∀ paying_user payment,
        get_user_by_id db user_id_for_payment = Some paying_user →
        db_payment = Some payment →
        Forall (inserted_by paying_user payment
                  (upline_users_and_rates rates paying_user)) new.
Proof.
  unfold webhook_stripe_commissions.
  assert (Hnone : (db, inr tt) = (db', r) →
    ∃ new : list ReferralEarning.t,
      db' = with_earnings (referral_earnings db ++ new)
              (referral_earnings_id_seq db + Z.of_nat (length new)) db
      ∧ new = []).
  { intros [= <- <-]. exists []. simpl. rewrite app_nil_r, Z.add_0_r.
    split; [by destruct db | done]. }
  destruct (get_user_by_id db user_id_for_payment) as [paying_user|].
  - destruct db_payment as [payment|].
    + intros H. apply commission_loop_appends in H as (new & -> & Hall).
      exists new. split; [done |]. by intros ? ? [= <-] [= <-].
    + intros H. apply Hnone in H as (new & -> & ->). exists []. split; [done |].
      intros; constructor.
  - intros H. apply Hnone in H as (new & -> & ->). exists []. split; [done |].
    intros; constructor.
Qed.

Lemma commission_rows_ok paying_user payment todo new :
  Forall (inserted_by paying_user payment todo) new →
  forallb earning_okb new = true.
Proof.
  intros Hall. apply forallb_forall. intros e He.
  rewrite Forall_forall in Hall.
  destruct (Hall e) as (_ & _ & _ & _ & rate & _ & Hcol).
  { by apply list_elem_of_In. }
  unfold earning_okb. eapply numeric_column_ok. exact Hcol.
Qed.

Lemma webhook_stripe_commissions_db_ok rates user_id_for_payment db_payment db :
  db_ok db →
  db_ok (fst (webhook_stripe_commissions rates user_id_for_payment db_payment db)).
Proof.
  intros Hok.
  destruct (webhook_stripe_commissions _ _ _ db) as [db' r] eqn:E. simpl.
  pose proof E as E'.
  apply webhook_stripe_commissions_appends in E' as (new & -> & Hall).
  unfold db_ok, db_okb in Hok |- *.
  apply andb_prop in Hok as [Hok Hearn]. simpl.
  change (forallb (user_okb (with_earnings _ _ db)) (users db))
    with (forallb (user_okb db) (users db)).
  rewrite Hok. simpl. rewrite forallb_app, Hearn. simpl.
  unfold webhook_stripe_commissions in E.
  destruct (get_user_by_id db user_id_for_payment) as [paying_user|] eqn:Hu.
  - destruct db_payment as [payment|].
    + eapply commission_rows_ok. by apply Hall.
    + injection E as E _. destruct new as [|e new]; [done |].
      apply (f_equal referral_earnings) in E. simpl in E.
      apply (f_equal (@length _)) in E. rewrite length_app in E. simpl in E.
      exfalso. clear -E. lia.
  - injection E as E _. destruct new as [|e new]; [done |].
    apply (f_equal referral_earnings) in E. simpl in E.
    apply (f_equal (@length _)) in E. rewrite length_app in E. simpl in E.
    exfalso. clear -E. lia.
Qed.

(** ** Status updates *)

Lemma replace_earning_forallb (P : ReferralEarning.t → bool) i e' rows :
  forallb P rows = true → P e' = true →
  forallb P (replace_earning i e' rows) = true.
Proof.
  intros Hrows He'. induction rows as [|e rows IH]; simpl in *; [done |].
  apply andb_prop in Hrows as [He Hrest].
  destruct (ReferralEarning.id e =? i); simpl.
  - by rewrite He', Hrest.
  - by rewrite He, IH.
Qed.

Lemma get_referral_earning_by_id_Some db i e :
  get_referral_earning_by_id db i = Some e →
  In e (referral_earnings db) ∧ ReferralEarning.id e = i.
Proof.
  unfold get_referral_earning_by_id. intros H.
  apply find_some in H as [Hin Heq]. split; [done | lia].
Qed.

(** Inversion of [update_referral_earning_status] on an existing row: the
    stored row is the loaded one with [status], [notes] and [updated_at]
    possibly rewritten. *)
Lemma update_referral_earning_status_Some db earning_id new_status notes e :
  get_referral_earning_by_id db earning_id = Some e →
  ∃ notes' updated_at',
    let e' := ReferralEarning.set_updated_at updated_at'
                (ReferralEarning.set_notes notes'
                   (ReferralEarning.set_status new_status e)) in
    update_referral_earning_status db earning_id new_status notes
    = (with_earnings (replace_earning earning_id e' (referral_earnings db))
         (referral_earnings_id_seq db) db, Some e')
    ∧ notes' = match notes with Some n => Some n | None => ReferralEarning.notes e end.
Proof.
  intros He. unfold update_referral_earning_status. rewrite He.
  destruct notes as [n|]; simpl.
  - match goal with |- context [if ?c then _ else _] => destruct c end.
    + exists (Some n), (now db). done.
    + exists (Some n), (ReferralEarning.updated_at e). done.
  - match goal with |- context [if ?c then _ else _] => destruct c end.
    + exists (ReferralEarning.notes e), (now db). by destruct e.
    + exists (ReferralEarning.notes e), (ReferralEarning.updated_at e).
      by destruct e.
Qed.

Lemma update_referral_earning_status_None db earning_id new_status notes :
  get_referral_earning_by_id db earning_id = None →
  update_referral_earning_status db earning_id new_status notes = (db, None).
Proof. intros He. unfold update_referral_earning_status. by rewrite He. Qed.

Lemma update_referral_earning_status_db_ok db earning_id new_status notes :
  db_ok db →
  db_ok (fst (update_referral_earning_status db earning_id new_status notes)).
Proof.
  intros Hok.
  destruct (get_referral_earning_by_id db earning_id) as [e|] eqn:He.
  2: { by rewrite update_referral_earning_status_None. }
  destruct (update_referral_earning_status_Some _ _ new_status notes _ He)
    as (notes' & ts & -> & _). simpl.
  unfold db_ok, db_okb in Hok |- *.
  apply andb_prop in Hok as [Hok Hearn]. simpl.
  change (forallb (user_okb (with_earnings _ _ db)) (users db))
    with (forallb (user_okb db) (users db)).
  rewrite Hok. simpl.
  apply replace_earning_forallb; [done |].
  apply get_referral_earning_by_id_Some in He as [Hin _].
  rewrite forallb_forall in Hearn. apply Hearn in Hin. exact Hin.
Qed.

(** ** Every reachable store satisfies the invariant *)

Lemma step_db_ok db db' : step db db' → db_ok db → db_ok db'.
Proof.
  intros Hstep Hok. destruct Hstep.
  - by apply create_user_db_ok.
  - by apply webhook_stripe_commissions_db_ok.
  - by apply update_referral_earning_status_db_ok.
  - exact Hok.
Qed.

Lemma reachable_db_ok db : reachable db → db_ok db.
Proof.
  unfold reachable. revert db.
  apply (rtc_ind_r (λ d, db_ok d) empty_db); [reflexivity |].
  intros y z _ Hstep IH. by eapply step_db_ok.
Qed.

(** * Lineage Builder *)

(** C4.  On every store that satisfies the invariant (so on every reachable
    store, by [reachable_db_ok]), a user created with a referrer [R] that
    resolves gets [upline_l1_id = R.id], [upline_l2_id = R.upline_l1_id] and
    [upline_l3_id = R.upline_l2_id]; a user created with no referrer gets
    three null pointers. *)
Theorem create_user_upline_pointers db user_data db' u :
  db_ok db →
  create_user db user_data = (db', Some u) →
  (∀ rid R,
      UserCreateInternal.referred_by_id user_data = Some rid →
      get_user_by_id db rid = Some R →
      User.upline_l1_id u = Some (User.id R)
      ∧ User.upline_l2_id u = User.upline_l1_id R
      ∧ User.upline_l3_id u = User.upline_l2_id R)
  ∧ (UserCreateInternal.referred_by_id user_data = None →
      User.upline_l1_id u = None
      ∧ User.upline_l2_id u = None
      ∧ User.upline_l3_id u = None).
Proof.
  intros Hok Hcreate.
  apply create_user_Some in Hcreate as (_ & _ & _ & Hup & _).
  rewrite populate_upline_buildLineage in Hup by done.
  unfold buildLineage in Hup. split.
  - intros rid R Href HR. rewrite Href, HR in Hup. by injection Hup as -> -> ->.
  - intros Href. rewrite Href in Hup. by injection Hup as -> -> ->.
Qed.

Lemma create_user_upline_pointers_witness :
  db_ok db_chain3
  ∧ (∃ db' u,
        create_user db_chain3 user4_data = (db', Some u)
        ∧ User.upline_l1_id u = Some 3
        ∧ User.upline_l2_id u = Some 2
        ∧ User.upline_l3_id u = Some 1).
Proof.
  split; [vm_compute; reflexivity |].
  destruct (create_user db_chain3 user4_data) as [db' [u|]] eqn:E;
    [| vm_compute in E; discriminate E].
  exists db', u. split; [reflexivity |].
  destruct (get_user_by_id db_chain3 3) as [R|] eqn:HR;
    [| vm_compute in HR; discriminate HR].
  destruct (create_user_upline_pointers db_chain3 user4_data db' u) as [H _];
    [vm_compute; reflexivity | exact E |].
  destruct (H 3 R) as (H1 & H2 & H3); [reflexivity | exact HR |].
  vm_compute in HR. injection HR as <-.
  rewrite H1, H2, H3. repeat split; reflexivity.
Defined.

(** A registration that collides with nothing and names a referrer that
    resolves (or none) does create the user. *)
Lemma create_user_runs db user_data :
  db_ok db →
  user_data_widths_ok user_data = true →
  get_user_by_firebase_uid db (UserCreateInternal.firebase_uid user_data) = None →
  get_user_by_email db (UserCreateInternal.email user_data) = None →
  (∀ code, UserCreateInternal.referral_code user_data = Some code →
           get_user_by_referral_code db code = None) →
  (∀ rid, UserCreateInternal.referred_by_id user_data = Some rid →
          ∃ R, get_user_by_id db rid = Some R) →
  ∃ u,
    create_user db user_data
    = (with_users (users db ++ [u]) (users_id_seq db + 1) db, Some u).
Proof.
  intros Hok Hfit Huid Hemail Hcode Href. unfold create_user.
  rewrite Huid, Hemail.
  rewrite populate_upline_buildLineage by done.
  destruct (buildLineage db (UserCreateInternal.referred_by_id user_data))
    as [[l1 l2] l3] eqn:Hlin.
  match goal with |- context [users_widths_ok ?x] =>
    assert (Hw : users_widths_ok x = true) end.
  { unfold user_data_widths_ok in Hfit. unfold users_widths_ok.
    cbn [User.firebase_uid User.email User.role User.referral_code
         User.stripe_customer_id].
    apply andb_prop in Hfit as [Hfit Hcodefit].
    apply andb_prop in Hfit as [Hfit Hrolefit].
    apply andb_prop in Hfit as [Huidfit Hemailfit].
    rewrite Huidfit, Hemailfit, Hcodefit, andb_true_r. cbn [andb].
    destruct (UserCreateInternal.role user_data) as [[|c r]|];
      cbn [truthy_str]; rewrite ?Hrolefit; reflexivity. }
  rewrite Hw. cbn [negb].
  match goal with |- context [users_constraints_ok db ?x] =>
    assert (Hc : users_constraints_ok db x = true) end.
  2: { rewrite Hc. eauto. }
  unfold users_constraints_ok.
  cbn [User.firebase_uid User.email User.referral_code User.stripe_customer_id
       User.referred_by_id User.upline_l1_id User.upline_l2_id User.upline_l3_id].
  unfold get_user_by_firebase_uid in Huid. unfold get_user_by_email in Hemail.
  rewrite (find_None_existsb _ _ Huid), (find_None_existsb _ _ Hemail).
  assert (Hrc : existsb
            (fun v => opt_string_eqb (User.referral_code v)
                        (UserCreateInternal.referral_code user_data))
            (users db) = false).
  { destruct (UserCreateInternal.referral_code user_data) as [code|].
    - specialize (Hcode code eq_refl). unfold get_user_by_referral_code in Hcode.
      apply find_None_existsb in Hcode. rewrite <- Hcode.
      f_equal. 
    - apply existsb_never. intros v. by destruct (User.referral_code v). }
  rewrite Hrc.
  rewrite (existsb_never (fun v => opt_string_eqb (User.stripe_customer_id v) None))
    by (intros v; by destruct (User.stripe_customer_id v)).
  cbn [negb andb].
  assert (Hfk : ∀ i R, get_user_by_id db i = Some R →
            ∀ extra, fk_users (users db ++ extra) (Some i) = true).
  { intros i R HR extra. apply fk_users_app.
    pose proof (get_user_fk _ _ _ HR) as H.
    by apply get_user_by_id_Some in HR as [_ <-]. }
  assert (Hfk' : ∀ p extra, fk_users (users db) p = true →
            fk_users (users db ++ extra) p = true)
    by (intros; by apply fk_users_app).
  unfold buildLineage in Hlin.
  destruct (UserCreateInternal.referred_by_id user_data) as [rid|].
  2: { injection Hlin as <- <- <-. reflexivity. }
  destruct (Href rid eq_refl) as (R & HR). rewrite HR in Hlin.
  injection Hlin as <- <- <-.
  pose proof HR as HRin. apply get_user_by_id_Some in HRin as [HRin HRid].
  pose proof (db_ok_user _ _ Hok HRin) as HRok. unfold user_okb in HRok.
  apply andb_prop in HRok as [HRok _].
  apply andb_prop in HRok as [HRok _].
  apply andb_prop in HRok as [HRok H2].
  apply andb_prop in HRok as [_ H1].
  rewrite (Hfk _ _ HR), HRid, (Hfk _ _ HR), (Hfk' _ _ H1), (Hfk' _ _ H2).
  reflexivity.
Qed.

(** The chain-of-four example of the specification. *)
Example lineage_chain_of_four :
  List.map (fun u => (User.id u, User.upline_l1_id u, User.upline_l2_id u,
                      User.upline_l3_id u)) (users db_chain4)
  = [ (1, None, None, None);
      (2, Some 1, None, None);
      (3, Some 2, Some 1, None);
      (4, Some 3, Some 2, Some 1) ].
Proof. vm_compute. reflexivity. Qed.

(** Outside the invariant the guard on level 3 shows: it looks at the
    level-1 upline's own pointer, not at the referrer's [upline_l2_id]. *)
Example populate_upline_off_invariant :
  let referrer := User.mk 1 "uid-1" "u1@example.org" "Subscriber" None None
                    None (Some 9) None None 0 0 in
  let db := mkDB [referrer] [] 2 1 0 in
  db_okb db = false
  ∧ populate_upline db (Some 1) = (Some 1, None, None)
  ∧ buildLineage db (Some 1) = (Some 1, None, Some 9).
Proof. vm_compute. repeat split; reflexivity. Qed.

(** C3, as the code has it.  A registration whose non-empty referral code
    matches no user is answered with HTTP 400 before any row is written: no
    user is created and the store is unchanged.  (The token is valid and
    neither its Firebase UID nor its e-mail is registered yet; otherwise
    the earlier checks answer first.) *)
Theorem register_unknown_referral_code_rejected db token_data code draws :
  get_user_by_firebase_uid db (token_firebase_uid token_data) = None →
  get_user_by_email db (token_email token_data) = None →
  truthy_str (Some code) = true →
  get_user_by_referral_code db code = None →
  register_user_after_firebase db (Response token_data) (Some code) draws
  = Some (db, HTTPException 400 ("Invalid referral code: " ++ code)).
Proof.
  intros Huid Hemail Hcode Hnone. unfold register_user_after_firebase.
  rewrite Huid, Hemail, Hcode, Hnone. reflexivity.
Qed.

Lemma register_unknown_referral_code_rejected_witness :
  register_user_after_firebase db_chain3
    (Response (mkTokenData "uid-9" "u9@example.org")) (Some "ZZZZ9999"%string)
    ["AAAA0009"%string]
  = Some (db_chain3, HTTPException 400 "Invalid referral code: ZZZZ9999").
Proof.
  apply (register_unknown_referral_code_rejected db_chain3
           (mkTokenData "uid-9" "u9@example.org") "ZZZZ9999" ["AAAA0009"%string]);
    vm_compute; reflexivity.
Defined.

(** C3 as stated fails: with a referral code that matches no user the
    registration does not succeed and no user is created. *)
Lemma register_unknown_referral_code_counterexample :
  get_user_by_referral_code db_chain3 "ZZZZ9999" = None
  ∧ ¬ (∃ db' u,
          register_user_after_firebase db_chain3
            (Response (mkTokenData "uid-9" "u9@example.org"))
            (Some "ZZZZ9999"%string) ["AAAA0009"%string]
          = Some (db', Response u)).
Proof.
  split; [vm_compute; reflexivity |].
  intros (db' & u & H). vm_compute in H. discriminate H.
Qed.

(** Without a referral code (or with an empty one) the registration goes
    through and the new user has three null upline pointers. *)
Example register_without_code :
  ∃ db' u,
    register_user_after_firebase db_chain3
      (Response (mkTokenData "uid-9" "u9@example.org")) None ["AAAA0009"%string]
    = Some (db', Response u)
    ∧ (User.upline_l1_id u, User.upline_l2_id u, User.upline_l3_id u)
      = (None, None, None).
Proof. eexists _, _. vm_compute. split; reflexivity. Qed.

(** [create_user] itself does not survive a referrer id that resolves to
    nothing: the row would carry a dangling [referred_by_id], the commit
    is refused and rolled back. *)
Lemma create_user_dangling_referrer db user_data rid :
  UserCreateInternal.referred_by_id user_data = Some rid →
  get_user_by_id db rid = None →
  rid ≠ users_id_seq db →
  snd (create_user db user_data) = None
  ∧ users (fst (create_user db user_data)) = users db.
Proof.
  intros Href Hnone Hne. unfold create_user.
  destruct (get_user_by_firebase_uid _ _); [done |].
  destruct (get_user_by_email _ _); [done |].
  destruct (populate_upline _ _) as [[l1 l2] l3].
  match goal with |- context [users_widths_ok ?x] =>
    destruct (users_widths_ok x) end; cbn [negb]; [| done].
  match goal with |- context [users_constraints_ok db ?x] =>
    destruct (users_constraints_ok db x) eqn:Hc end; [| done].
  exfalso. unfold users_constraints_ok in Hc.
  do 3 (apply andb_prop in Hc as [Hc _]).
  apply andb_prop in Hc as [_ Hfk].
  cbn [User.referred_by_id] in Hfk. rewrite Href in Hfk.
  cbn [fk_users] in Hfk. rewrite existsb_app in Hfk.
  apply orb_prop in Hfk as [Hfk | Hfk].
  - apply existsb_exists in Hfk as (u & Hin & Hu).
    unfold get_user_by_id in Hnone.
    eapply find_none in Hnone; [| exact Hin]. simpl in Hnone. congruence.
  - simpl in Hfk. lia.
Qed.

(** * Commission Ledger: status updates *)

Lemma find_replace_earning i e e' rows :
  List.find (fun x => ReferralEarning.id x =? i) rows = Some e →
  ReferralEarning.id e' = i →
  List.find (fun x => ReferralEarning.id x =? i) (replace_earning i e' rows)
  = Some e'.
Proof.
  intros Hfind Hid. induction rows as [|x rows IH]; simpl in *; [done |].
  destruct (ReferralEarning.id x =? i) eqn:Ex; simpl.
  - rewrite Hid, Z.eqb_refl. done.
  - rewrite Ex. auto.
Qed.

Lemma find_replace_earning_other i j e' rows :
  ReferralEarning.id e' = i → j ≠ i →
  List.find (fun x => ReferralEarning.id x =? j) (replace_earning i e' rows)
  = List.find (fun x => ReferralEarning.id x =? j) rows.
Proof.
  intros Hid Hne. induction rows as [|x rows IH]; simpl; [done |].
  destruct (ReferralEarning.id x =? i) eqn:Ex; simpl.
  - rewrite Hid. apply Z.eqb_eq in Ex. rewrite Ex.
    destruct (i =? j) eqn:Eij; [lia | done].
  - rewrite IH. done.
Qed.

(** C2, as the code has it.  For every existing earning and every requested
    status, the update is applied whatever the current status is: the call
    answers with the updated row, whose status is the requested one, and
    that row is what the store now holds.  No transition is refused. *)
Theorem update_status_applies_every_transition db earning_id e new_status notes :
  get_referral_earning_by_id db earning_id = Some e →
  ∃ db' e',
    admin_update_earning_status db earning_id (Some new_status) notes
    = (db', Response e')
    ∧ ReferralEarning.status e' = new_status
    ∧ get_referral_earning_by_id db' earning_id = Some e'.
Proof.
  intros He.
  destruct (update_referral_earning_status_Some _ _ new_status notes _ He)
    as (notes' & ts & Hupd & _).
  unfold admin_update_earning_status. rewrite Hupd.
  eexists _, _. split; [reflexivity |]. split; [reflexivity |].
  unfold get_referral_earning_by_id in He |- *. simpl.
  eapply find_replace_earning; [exact He |]. simpl.
  apply find_some in He as [_ Hid]. lia.
Qed.

Lemma update_status_applies_every_transition_witness :
  ∃ db' e',
    admin_update_earning_status db_paid_once 2 (Some REJECTED) None
    = (db', Response e')
    ∧ ReferralEarning.status e' = REJECTED
    ∧ get_referral_earning_by_id db' 2 = Some e'.
Proof.
  destruct (get_referral_earning_by_id db_paid_once 2) as [e|] eqn:He;
    [| vm_compute in He; discriminate He].
  exact (update_status_applies_every_transition db_paid_once 2 e REJECTED None He).
Defined.

(** C2 as stated fails: PAID → PENDING is not one of the four permitted
    transitions, yet the request is answered with the updated row and the
    stored status becomes PENDING. *)
Lemma update_status_counterexample :
  valid_transition PAID PENDING = false
  ∧ (ReferralEarning.status <$> get_referral_earning_by_id db_row1_paid 1) = Some PAID
  ∧ ∃ db' e',
      admin_update_earning_status db_row1_paid 1 (Some PENDING) None
      = (db', Response e')
      ∧ (ReferralEarning.status <$> get_referral_earning_by_id db' 1) = Some PENDING.
Proof.
  split; [reflexivity |]. split; [vm_compute; reflexivity |].
  eexists _, _. vm_compute. split; reflexivity.
Qed.

(** The two ways the update is refused: no status in the body, and an id
    that matches no earning.  The store is unchanged in both. *)
Lemma admin_update_earning_status_errors db earning_id notes :
  admin_update_earning_status db earning_id None notes
  = (db, HTTPException 400 "New status must be provided.")
  ∧ (get_referral_earning_by_id db earning_id = None →
     ∀ new_status,
       admin_update_earning_status db earning_id (Some new_status) notes
       = (db, HTTPException 404
                ("Referral earning with ID " ++ pretty earning_id ++ " not found."))).
Proof.
  split; [reflexivity |]. intros He new_status.
  unfold admin_update_earning_status.
  by rewrite update_referral_earning_status_None.
Qed.

(** C10.  A status update of an existing earning rewrites at most [status],
    [notes] and [updated_at] of that row: its id, earner, source user,
    source payment, amount, rate, level and creation time are untouched;
    with [notes = None] the stored notes are kept; every other earning and
    the [users] table are unchanged. *)
Theorem update_status_frame db earning_id e new_status notes :
  get_referral_earning_by_id db earning_id = Some e →
  ∃ db' e',
    update_referral_earning_status db earning_id new_status notes = (db', Some e')
    ∧ get_referral_earning_by_id db' earning_id = Some e'
    ∧ ReferralEarning.id e' = ReferralEarning.id e
    ∧ ReferralEarning.user_id e' = ReferralEarning.user_id e
    ∧ ReferralEarning.referred_user_id e' = ReferralEarning.referred_user_id e
    ∧ ReferralEarning.source_payment_id e' = ReferralEarning.source_payment_id e
    ∧ ReferralEarning.commission_amount e' = ReferralEarning.commission_amount e
    ∧ ReferralEarning.commission_rate e' = ReferralEarning.commission_rate e
    ∧ ReferralEarning.referral_level e' = ReferralEarning.referral_level e
    ∧ ReferralEarning.created_at e' = ReferralEarning.created_at e
    ∧ (notes = None → ReferralEarning.notes e' = ReferralEarning.notes e)
    ∧ (∀ other, other ≠ earning_id →
         get_referral_earning_by_id db' other = get_referral_earning_by_id db other)
    ∧ length (referral_earnings db') = length (referral_earnings db)
    ∧ users db' = users db.
Proof.
  intros He.
  destruct (update_referral_earning_status_Some _ _ new_status notes _ He)
    as (notes' & ts & Hupd & Hnotes).
  eexists _, _. split; [exact Hupd |].
  assert (Hid : ReferralEarning.id e = earning_id).
  { by apply get_referral_earning_by_id_Some in He as [_ ?]. }
  split.
  { unfold get_referral_earning_by_id in He |- *. simpl.
    eapply find_replace_earning; [exact He | exact Hid]. }
  do 8 (split; [reflexivity |]).
  split. { intros ->. simpl. exact Hnotes. }
  split.
  { intros other Hne. unfold get_referral_earning_by_id. simpl.
    apply find_replace_earning_other; [exact Hid | exact Hne]. }
  split; [| reflexivity].
  simpl. clear. induction (referral_earnings db) as [|x rows IH]; simpl; [done |].
  destruct (ReferralEarning.id x =? earning_id); simpl; [done | by rewrite IH].
Qed.

Lemma update_status_frame_witness :
  ∃ db' e',
    update_referral_earning_status db_row1_paid 1 REJECTED None = (db', Some e')
    ∧ ReferralEarning.commission_amount e' = Decimal.cents 1000
    ∧ ReferralEarning.referral_level e' = 1
    ∧ ReferralEarning.notes e' = Some "paid by transfer"%string.
Proof.
  destruct (get_referral_earning_by_id db_row1_paid 1) as [e|] eqn:He;
    [| vm_compute in He; discriminate He].
  destruct (update_status_frame db_row1_paid 1 e REJECTED None He)
    as (db' & e' & Hupd & _ & _ & _ & _ & _ & Ha & _ & Hl & _ & Hn & _).
  exists db', e'. split; [exact Hupd |].
  rewrite Ha, Hl, (Hn eq_refl).
  vm_compute in He. injection He as <-. repeat split; reflexivity.
Defined.

(** * Downline Traversal *)

Lemma existsb_eqb_elem_of (p : Z) (ids : list Z) :
  existsb (Z.eqb p) ids = bool_decide (p ∈ ids).
Proof.
  induction ids as [|i ids IH].
  - symmetry. apply bool_decide_eq_false_2. by intros ?%elem_of_nil.
  - cbn [existsb]. rewrite IH. destruct (Z.eqb_spec p i) as [-> | Hne]; simpl.
    + symmetry. apply bool_decide_eq_true_2. by left.
    + apply bool_decide_ext. rewrite elem_of_cons. tauto.
Qed.

(** The two query shapes select the users referred by the given parents. *)
Lemma query_users_eq db user_id :
  query_users db (UplineL1Eq user_id) = referred_by_any db [user_id].
Proof.
  unfold query_users, referred_by_any. apply filter_ext. intros u.
  unfold matches. destruct (User.upline_l1_id u) as [p|]; [| done].
  rewrite <- existsb_eqb_elem_of. simpl. by rewrite orb_false_r.
Qed.

Lemma query_users_in db ids :
  query_users db (UplineL1In ids) = referred_by_any db ids.
Proof.
  unfold query_users, referred_by_any. apply filter_ext. intros u.
  unfold matches. destruct (User.upline_l1_id u) as [p|]; [| done].
  apply existsb_eqb_elem_of.
Qed.

Lemma referred_by_nobody db : referred_by_any db [] = [].
Proof.
  unfold referred_by_any.
  induction (users db) as [|u us IH]; simpl; [done |].
  destruct (User.upline_l1_id u); simpl; exact IH.
Qed.

Lemma empty_levels_3 : empty_levels 3 = {[ 1 := []; 2 := []; 3 := [] ]}.
Proof. reflexivity. Qed.

(** C9.  With [max_levels = 3] the dictionary maps 1 to the users whose
    [upline_l1_id] is the given user, 2 to the users whose [upline_l1_id]
    is the id of a level-1 user, and 3 to the users whose [upline_l1_id] is
    the id of a level-2 user; when level 1 is empty the result is
    [{1: [], 2: [], 3: []}] and the only query sent to the store is the
    level-1 query. *)
Theorem downline_three_levels db user_id :
  let level1 := referred_by_any db [user_id] in
  let level2 := referred_by_any db (List.map User.id level1) in
  let level3 := referred_by_any db (List.map User.id level2) in
  fst (get_downline_users_flat db user_id 3)
  = {[ 1 := level1; 2 := level2; 3 := level3 ]}
  ∧ (level1 = [] →
     get_downline_users_flat db user_id 3
     = ({[ 1 := []; 2 := []; 3 := [] ]}, [UplineL1Eq user_id])).
Proof.
  cbv zeta. unfold get_downline_users_flat.
  rewrite query_users_eq, empty_levels_3.
  destruct (referred_by_any db [user_id]) as [|u1 rest1] eqn:E1.
  { cbn [List.map fst]. rewrite !referred_by_nobody. done. }
  split; [| done].
  replace (2 <=? 3) with true by reflexivity.
  replace (3 <=? 3) with true by reflexivity.
  cbn [List.map]. rewrite query_users_in.
  destruct (referred_by_any db (User.id u1 :: List.map User.id rest1))
    as [|u2 rest2] eqn:E2.
  { cbn [List.map fst]. rewrite referred_by_nobody.
    apply map_eq. intros k. rewrite !lookup_insert.
    repeat destruct (decide _); congruence. }
  cbn [List.map]. rewrite query_users_in. cbn [fst].
  apply map_eq. intros k. rewrite !lookup_insert, !lookup_singleton.
  repeat destruct (decide _); congruence.
Qed.

(** A user nobody registered under: one query, three empty levels. *)
Example downline_short_circuit :
  get_downline_users_flat db_chain4 4 3
  = ({[ 1 := []; 2 := []; 3 := [] ]}, [UplineL1Eq 4]).
Proof. vm_compute. reflexivity. Qed.

Example downline_of_first_user :
  let downline := fst (get_downline_users_flat db_chain4 1 3) in
  (List.map User.id <$> downline !! 1) = Some [2]
  ∧ (List.map User.id <$> downline !! 2) = Some [3]
  ∧ (List.map User.id <$> downline !! 3) = Some [4]
  ∧ downline !! 4 = None.
Proof. vm_compute. repeat split; reflexivity. Qed.

(** * Decimal arithmetic within the context precision *)

(** A coefficient of at most 28 digits is left alone by [_fix]. *)
Lemma fix_exact c e : Z.abs c < 10 ^ Decimal.prec → Decimal.fix_ c e = Decimal.mk c e.
Proof.
  intros Hc. unfold Decimal.fix_.
  assert (Hk : ∀ fuel, Decimal.surplus_digits fuel (Z.abs c) = 0).
  { intros [|fuel]; simpl; [done |].
    destruct (Z.ltb_spec (Z.abs c) (10 ^ Decimal.prec)); [done | lia]. }
  by rewrite Hk.
Qed.

Lemma add_cents a b :
  Z.abs (a + b) < 10 ^ Decimal.prec →
  Decimal.add (Decimal.cents a) (Decimal.cents b) = Decimal.cents (a + b).
Proof.
  intros H. unfold Decimal.add, Decimal.add_exact, Decimal.cents. simpl.
  rewrite !Z.mul_1_r. by apply fix_exact.
Qed.

(** * Commission Ledger: statistics *)

Lemma add_exact_cents a d :
  Decimal.exp d = -2 →
  Decimal.add_exact (Decimal.cents a) d = Decimal.cents (a + Decimal.coef d).
Proof.
  intros Hd. unfold Decimal.add_exact, Decimal.cents. simpl. rewrite Hd. simpl.
  by rewrite !Z.mul_1_r.
Qed.

Lemma sum_exact_cells rest :
  ∀ c0,
    Forall (fun d => Decimal.exp d = -2) rest →
    fold_left Decimal.add_exact rest (Decimal.cents c0)
    = Decimal.cents (c0 + fold_right Z.add 0 (List.map Decimal.coef rest)).
Proof.
  induction rest as [|d rest IH]; intros c0 Hall.
  - simpl. by rewrite Z.add_0_r.
  - inversion Hall as [|? ? Hd Hrest]; subst.
    cbn [fold_left List.map fold_right].
    rewrite add_exact_cents, IH by done. f_equal. lia.
Qed.

Lemma earnings_of_ok db user_id s :
  db_ok db → Forall (fun e => earning_okb e = true) (earnings_of db user_id s).
Proof.
  intros Hok. unfold db_ok, db_okb in Hok. apply andb_prop in Hok as [_ Hearn].
  rewrite forallb_forall in Hearn. apply Forall_forall. intros e He.
  apply list_elem_of_In in He. unfold earnings_of in He.
  apply filter_In in He as [He _]. auto.
Qed.

Lemma earning_ok_cell e :
  earning_okb e = true →
  Decimal.exp (ReferralEarning.commission_amount e) = -2
  ∧ Z.abs (Decimal.coef (ReferralEarning.commission_amount e)) < 10 ^ 10.
Proof.
  unfold earning_okb, numeric_okb. intros H. apply andb_prop in H as [H1 H2].
  split; lia.
Qed.

(** The scalar of a [SUM(commission_amount)] after [or Decimal("0.00")] is
    the exact total, with two decimal places. *)
Lemma commission_sum_total db user_id s :
  db_ok db →
  commission_sum db user_id s
  = Decimal.cents (total_cents (earnings_of db user_id s)).
Proof.
  intros Hok. unfold commission_sum, total_cents.
  pose proof (earnings_of_ok db user_id s Hok) as Hall.
  destruct (earnings_of db user_id s) as [|e rows]; [done |].
  inversion Hall as [|? ? He Hrows]; subst.
  apply earning_ok_cell in He as [Hexp _].
  assert (Hsum :
    fold_left Decimal.add_exact
      (List.map ReferralEarning.commission_amount rows)
      (ReferralEarning.commission_amount e)
    = Decimal.cents
        (fold_right Z.add 0
           (List.map (fun x => Decimal.coef (ReferralEarning.commission_amount x))
              (e :: rows)))).
  { replace (ReferralEarning.commission_amount e)
      with (Decimal.cents (Decimal.coef (ReferralEarning.commission_amount e))) at 1
      by (destruct (ReferralEarning.commission_amount e); simpl in *; by subst).
    rewrite sum_exact_cells.
    - by rewrite map_map.
    - apply Forall_forall. intros d Hd. apply list_elem_of_In in Hd.
      apply in_map_iff in Hd as (e' & <- & He').
      rewrite Forall_forall in Hrows.
      apply earning_ok_cell, Hrows. by apply list_elem_of_In. }
  cbn [List.map sql_sum]. rewrite Hsum.
  unfold or_zero_00, Decimal.truthy. cbn [Decimal.coef Decimal.cents].
  match goal with |- context [?x =? 0] => destruct (x =? 0) eqn:E end;
    [| done].
  apply Z.eqb_eq in E. cbn [negb].
  unfold Decimal.zero_00, Decimal.cents. f_equal. symmetry. exact E.
Qed.

Lemma total_cents_bound rows :
  Forall (fun e => earning_okb e = true) rows →
  Z.abs (total_cents rows) <= Z.of_nat (length rows) * 10 ^ 10.
Proof.
  unfold total_cents. induction rows as [|e rows IH]; intros Hall; simpl length.
  - simpl. lia.
  - inversion Hall as [|? ? He Hrows]; subst.
    apply earning_ok_cell in He as [_ He]. specialize (IH Hrows).
    cbn [List.map fold_right]. lia.
Qed.

Lemma earnings_of_length db user_id s :
  (length (earnings_of db user_id s) <= length (referral_earnings db))%nat.
Proof. unfold earnings_of. apply filter_length_le. Qed.

(** C8.  On a store that satisfies the invariant and whose earnings table
    has fewer than 2^31 rows (its key is a 32-bit integer), the three totals
    are the exact sums, in cents, of the user's earnings in each status, the
    lifetime total is the sum of the three, and a status without rows
    yields [Decimal("0.00")]. *)
Theorem stats_totals db user_id :
  db_ok db →
  Z.of_nat (length (referral_earnings db)) < 2 ^ 31 →
  let stats := get_referral_stats_for_user db user_id in
  let pending := total_cents (earnings_of db user_id PENDING) in
  let approved := total_cents (earnings_of db user_id APPROVED) in
  let paid := total_cents (earnings_of db user_id PAID) in
  pending_commission_total stats = Decimal.cents pending
  ∧ approved_commission_total stats = Decimal.cents approved
  ∧ paid_commission_total stats = Decimal.cents paid
  ∧ lifetime_commission_total stats = Decimal.cents (pending + approved + paid)
  ∧ (earnings_of db user_id PENDING = [] →
     pending_commission_total stats = Decimal.zero_00)
  ∧ (earnings_of db user_id APPROVED = [] →
     approved_commission_total stats = Decimal.zero_00)
  ∧ (earnings_of db user_id PAID = [] →
     paid_commission_total stats = Decimal.zero_00).
Proof.
  intros Hok Hrows. cbv zeta. unfold get_referral_stats_for_user. cbn [
    pending_commission_total approved_commission_total paid_commission_total
    lifetime_commission_total].
  rewrite !commission_sum_total by done.
  pose proof (total_cents_bound _ (earnings_of_ok db user_id PENDING Hok)) as Bp.
  pose proof (total_cents_bound _ (earnings_of_ok db user_id APPROVED Hok)) as Ba.
  pose proof (total_cents_bound _ (earnings_of_ok db user_id PAID Hok)) as Bd.
  pose proof (earnings_of_length db user_id PENDING) as Lp.
  pose proof (earnings_of_length db user_id APPROVED) as La.
  pose proof (earnings_of_length db user_id PAID) as Ld.
  set (p := total_cents (earnings_of db user_id PENDING)) in *.
  set (a := total_cents (earnings_of db user_id APPROVED)) in *.
  set (d := total_cents (earnings_of db user_id PAID)) in *.
  assert (Hp : Z.abs p < 2 ^ 31 * 10 ^ 10) by nia.
  assert (Ha : Z.abs a < 2 ^ 31 * 10 ^ 10) by nia.
  assert (Hd : Z.abs d < 2 ^ 31 * 10 ^ 10) by nia.
  unfold Decimal.prec in *.
  repeat split.
  - rewrite !add_cents; [done | unfold Decimal.prec; lia ..].
  - intros E. subst p. by rewrite E.
  - intros E. subst a. by rewrite E.
  - intros E. subst d. by rewrite E.
Qed.
Lemma stats_totals_witness :
  let stats := get_referral_stats_for_user db_three_statuses 1 in
  pending_commission_total stats = Decimal.cents 1000
  ∧ approved_commission_total stats = Decimal.cents 500
  ∧ paid_commission_total stats = Decimal.cents 300
  ∧ lifetime_commission_total stats = Decimal.cents 1800.
Proof.
  destruct (stats_totals db_three_statuses 1) as (Hp & Ha & Hd & Hl & _);
    [vm_compute; reflexivity | vm_compute; reflexivity |].
  cbv zeta. rewrite Hp, Ha, Hd, Hl. vm_compute. repeat split; reflexivity.
Defined.

(** A user without earnings: three times [Decimal("0.00")]. *)
Example stats_without_earnings :
  let stats := get_referral_stats_for_user db_three_statuses 4 in
  (pending_commission_total stats, approved_commission_total stats,
   paid_commission_total stats, lifetime_commission_total stats)
  = (Decimal.zero_00, Decimal.zero_00, Decimal.zero_00, Decimal.zero_00).
Proof. vm_compute. reflexivity. Qed.

(** * Commission Rule Engine *)

(** ** Rounding *)

Lemma mul_exact a r :
  Z.abs (Decimal.coef a * Decimal.coef r) < 10 ^ Decimal.prec →
  Decimal.mul a r = exact_product a r.
Proof. intros H. unfold Decimal.mul, exact_product. by apply fix_exact. Qed.

(** A [DECIMAL(10, 2)] amount times a rate of at most 18 digits is within
    the context precision: the product is exact. *)
Lemma mul_amount_rate_exact a r :
  is_numeric 10 2 a → Z.abs (Decimal.coef r) < 10 ^ 18 →
  Decimal.mul a r = exact_product a r.
Proof.
  unfold is_numeric, numeric_okb. intros Ha Hr. apply andb_prop in Ha as [_ Ha].
  apply mul_exact. unfold Decimal.prec.
  rewrite Z.abs_mul.
  assert (0 <= Z.abs (Decimal.coef a)) by lia.
  assert (0 <= Z.abs (Decimal.coef r)) by lia.
  assert (Z.abs (Decimal.coef a) < 10 ^ 10) by lia.
  change (10 ^ 28) with (10 ^ 10 * 10 ^ 18). nia.
Qed.

(** Rounding half away from zero never leaves the interval of the
    multiples of [d] around [n]. *)
Lemma round_half_away_bound n d m :
  0 < d → Z.abs n <= m * d → Z.abs (round_half_away n d) <= m.
Proof.
  intros Hd Hn. unfold round_half_away.
  pose proof (Z.div_mod (Z.abs n) d ltac:(lia)) as Hdm.
  pose proof (Z.mod_pos_bound (Z.abs n) d Hd) as Hr.
  assert (Hq : 0 <= Z.abs n / d) by (apply Z.div_pos; lia).
  set (q := Z.abs n / d) in *. set (r := Z.abs n mod d) in *.
  assert (Hx : 0 <= (if 2 * r <? d then q else q + 1) <= m).
  { destruct (Z.ltb_spec (2 * r) d); nia. }
  rewrite Z.abs_mul.
  destruct (Z.sgn_spec n) as [[_ ->] | [[_ ->] | [_ ->]]]; simpl; lia.
Qed.

(** The stored value is the nearest multiple of [d]: the error is at most
    half of [d]. *)
Lemma round_half_away_nearest n d :
  0 < d → 2 * Z.abs (round_half_away n d * d - n) <= d.
Proof.
  intros Hd. unfold round_half_away.
  pose proof (Z.div_mod (Z.abs n) d ltac:(lia)) as Hdm.
  pose proof (Z.mod_pos_bound (Z.abs n) d Hd) as Hr.
  set (q := Z.abs n / d) in *. set (r := Z.abs n mod d) in *.
  destruct (Z.sgn_spec n) as [[Hn ->] | [[Hn ->] | [Hn ->]]].
  - rewrite Z.abs_eq in Hdm by lia.
    destruct (Z.ltb_spec (2 * r) d); nia.
  - subst n. simpl in *. lia.
  - rewrite Z.abs_neq in Hdm by lia.
    destruct (Z.ltb_spec (2 * r) d); nia.
Qed.

(** ** What the columns accept *)

Lemma rate_ok_inv r :
  rate_okb r = true →
  Decimal.exp r <= 0 ∧ 0 <= Decimal.coef r <= 10 ^ (- Decimal.exp r)
  ∧ Decimal.coef r < 10 ^ 18.
Proof.
  unfold rate_okb. intros H.
  apply andb_prop in H as [H H4]. apply andb_prop in H as [H H3].
  apply andb_prop in H as [H1 H2]. lia.
Qed.

(** The commission for a [DECIMAL(10, 2)] amount and a rate between 0 and 1
    fits the amount column. *)
Lemma commission_amount_fits a r :
  is_numeric 10 2 a → rate_okb r = true →
  numeric_column 10 2 (Decimal.mul a r) = inr (commission_for a r).
Proof.
  intros Ha Hr. pose proof Ha as Ha'.
  apply rate_ok_inv in Hr as (He & [Hc0 Hc1] & Hc18).
  rewrite mul_amount_rate_exact by (done || lia).
  unfold is_numeric, numeric_okb in Ha'. apply andb_prop in Ha' as [Hexp Habs].
  apply Z.eqb_eq in Hexp. apply Z.ltb_lt in Habs.
  unfold numeric_column, commission_for.
  assert (Hfit : Z.abs (to_scale 2 (exact_product a r)) < 10 ^ 10);
    [| by destruct (Z.ltb_spec (Z.abs (to_scale 2 (exact_product a r))) (10 ^ 10));
          [| lia]].
  unfold to_scale, exact_product. cbn [Decimal.coef Decimal.exp].
  replace (Decimal.exp a + Decimal.exp r + 2) with (Decimal.exp r) by lia.
  assert (Hpow : 0 < 10 ^ (- Decimal.exp r)) by (apply Z.pow_pos_nonneg; lia).
  destruct (Z.leb_spec 0 (Decimal.exp r)) as [Hz | Hneg].
  - assert (Decimal.exp r = 0) as Hr0 by lia. rewrite Hr0 in *. simpl in Hc1.
    change (10 ^ 0) with 1. rewrite Z.mul_1_r, Z.abs_mul. nia.
  - eapply Z.le_lt_trans; [| exact Habs].
    apply round_half_away_bound; [done |].
    rewrite Z.abs_mul. nia.
Qed.

(** A rate between 0 and 1 fits the rate column. *)
Lemma commission_rate_fits r :
  rate_okb r = true →
  numeric_column 5 4 r = inr (Decimal.mk (to_scale 4 r) (-4)).
Proof.
  intros Hr. apply rate_ok_inv in Hr as (He & [Hc0 Hc1] & _).
  unfold numeric_column.
  assert (Hfit : Z.abs (to_scale 4 r) < 10 ^ 5);
    [| by destruct (Z.ltb_spec (Z.abs (to_scale 4 r)) (10 ^ 5)); [| lia]].
  unfold to_scale.
  destruct (Z.leb_spec 0 (Decimal.exp r + 4)) as [Hz | Hneg].
  - assert (Hpow : 10 ^ (- Decimal.exp r) * 10 ^ (Decimal.exp r + 4) = 10 ^ 4).
    { rewrite <- Z.pow_add_r by lia. f_equal. lia. }
    assert (0 < 10 ^ (Decimal.exp r + 4)) by (apply Z.pow_pos_nonneg; lia).
    rewrite Z.abs_eq by nia.
    change (10 ^ 5) with (10 ^ 4 * 10). nia.
  - assert (Hpow : 10 ^ (- Decimal.exp r) = 10 ^ 4 * 10 ^ (- (Decimal.exp r + 4))).
    { rewrite <- Z.pow_add_r by lia. f_equal. lia. }
    assert (0 < 10 ^ (- (Decimal.exp r + 4))) by (apply Z.pow_pos_nonneg; lia).
    apply Z.le_lt_trans with (10 ^ 4); [| done].
    apply round_half_away_bound; [done |].
    rewrite Z.abs_eq by lia. lia.
Qed.

(** ** The loop, row by row *)

(** When every entry is acceptable the loop returns normally and has
    appended exactly the owed rows, in order. *)
Lemma commission_loop_runs paying_user db_payment todo :
  ∀ db,
    fk_users (users db) (Some (User.id paying_user)) = true →
    is_numeric 10 2 (Payment.amount db_payment) →
    Forall (entry_ok db) todo →
    commission_loop paying_user db_payment todo db
    = (with_earnings
         (referral_earnings db
          ++ commission_rows (referral_earnings_id_seq db) (now db)
               paying_user db_payment (owed todo))
         (referral_earnings_id_seq db + Z.of_nat (length (owed todo))) db,
       inr tt).
Proof.
  induction todo as [|[[upline rate] level] todo IH]; intros db Hpayer Hamount Hall.
  - simpl. rewrite app_nil_r, Z.add_0_r. by destruct db.
  - inversion Hall as [|? ? Hentry Hrest]; subst.
    cbn [entry_ok] in Hentry. destruct Hentry as [Hup Hrate].
    destruct upline as [uid|].
    + destruct (Hup uid eq_refl) as [Htruthy Hfk].
      cbn [commission_loop]. rewrite Htruthy. unfold bind.
      rewrite (create_referral_earning_runs
                 (ReferralEarningCreate.mk uid (User.id paying_user)
                    (Payment.id db_payment)
                    (Decimal.mul (Payment.amount db_payment) rate) rate level
                    PENDING None)
                 db _ _ Hfk Hpayer
                 (commission_amount_fits _ _ Hamount Hrate)
                 (commission_rate_fits _ Hrate)).
      cbv zeta. rewrite IH; [| done | done | exact Hrest].
      change (owed ((Some uid, rate, level) :: todo))
        with ((uid, rate, level) :: owed todo).
      unfold with_earnings.
      cbn [owed omap fmap option_fmap option_map commission_rows
           commission_row length
           referral_earnings referral_earnings_id_seq users users_id_seq now
           ReferralEarningCreate.user_id ReferralEarningCreate.referred_user_id
           ReferralEarningCreate.source_payment_id
           ReferralEarningCreate.referral_level ReferralEarningCreate.status
           ReferralEarningCreate.notes].
      rewrite <- app_assoc. cbn [app]. f_equal. f_equal. lia.
    + cbn [commission_loop]. by apply IH.
Qed.

(** ** The commission block *)

Lemma upline_entries_ok rates db paying_user :
  db_ok db → In paying_user (users db) → rates_okb rates = true →
  Forall (entry_ok db) (upline_users_and_rates rates paying_user).
Proof.
  intros Hok Hin Hrates.
  pose proof (db_ok_user _ _ Hok Hin) as Hu. unfold user_okb in Hu.
  apply andb_prop in Hu as [Hu _].
  apply andb_prop in Hu as [Hu H3]. apply andb_prop in Hu as [Hu H2].
  apply andb_prop in Hu as [_ H1].
  unfold rates_okb in Hrates.
  apply andb_prop in Hrates as [Hr Hr3]. apply andb_prop in Hr as [Hr1 Hr2].
  assert (Hentry : ∀ p r l,
            fk_users (users db) p = true → rate_okb r = true →
            entry_ok db (p, r, l)).
  { intros p r l Hfk Hr. split; [| done].
    intros uid ->. split; [by eapply fk_truthy | done]. }
  unfold upline_users_and_rates.
  do 3 (constructor; [by apply Hentry |]). constructor.
Qed.

(** On a store that satisfies the invariant, for a payer that exists, a
    [DECIMAL(10, 2)] amount and rates between 0 and 1, the block returns
    normally and has appended exactly the owed rows. *)
Lemma webhook_stripe_commissions_runs rates db user_id_for_payment payment paying_user :
  db_ok db →
  get_user_by_id db user_id_for_payment = Some paying_user →
  is_numeric 10 2 (Payment.amount payment) →
  rates_okb rates = true →
  webhook_stripe_commissions rates user_id_for_payment (Some payment) db
  = (with_earnings
       (referral_earnings db
        ++ commission_rows (referral_earnings_id_seq db) (now db)
             paying_user payment (owed (upline_users_and_rates rates paying_user)))
       (referral_earnings_id_seq db
        + Z.of_nat (length (owed (upline_users_and_rates rates paying_user)))) db,
     inr tt).
Proof.
  intros Hok Hu Hamount Hrates. unfold webhook_stripe_commissions. rewrite Hu.
  apply commission_loop_runs; [by eapply get_user_fk | done |].
  apply upline_entries_ok; [done | | done].
  by apply get_user_by_id_Some in Hu as [? _].
Qed.

Lemma commission_rows_length id now paying_user payment entries :
  length (commission_rows id now paying_user payment entries) = length entries.
Proof.
  revert id. induction entries as [|x entries IH]; intros id; simpl;
    [done | by rewrite IH].
Qed.

Lemma commission_rows_levels id now paying_user payment rates :
  List.map (fun e => (ReferralEarning.user_id e, ReferralEarning.referral_level e))
    (commission_rows id now paying_user payment
       (owed (upline_users_and_rates rates paying_user)))
  = owed_levels paying_user.
Proof.
  unfold owed, owed_levels, upline_users_and_rates.
  destruct (User.upline_l1_id paying_user), (User.upline_l2_id paying_user),
    (User.upline_l3_id paying_user); reflexivity.
Qed.

Lemma commission_rows_spec id now paying_user payment entries :
  Forall (fun e =>
            ReferralEarning.status e = PENDING
            ∧ ReferralEarning.notes e = None
            ∧ ReferralEarning.referred_user_id e = Some (User.id paying_user)
            ∧ ReferralEarning.source_payment_id e = Some (Payment.id payment)
            ∧ ∃ rate,
                In (ReferralEarning.user_id e, rate, ReferralEarning.referral_level e)
                  entries
                ∧ ReferralEarning.commission_amount e
                  = commission_for (Payment.amount payment) rate)
    (commission_rows id now paying_user payment entries).
Proof.
  revert id. induction entries as [|[[earner rate] level] entries IH]; intros id.
  - constructor.
  - simpl. constructor.
    + simpl. repeat split. exists rate. split; [by left | done].
    + eapply Forall_impl; [apply IH |].
      intros e (? & ? & ? & ? & r & Hin & ?). repeat split; try done.
      exists r. split; [by right | done].
Qed.

Lemma owed_rate_of_level rates paying_user earner rate level :
  In (earner, rate, level) (owed (upline_users_and_rates rates paying_user)) →
  rate_of_level rates level = Some rate.
Proof.
  unfold owed, upline_users_and_rates.
  destruct (User.upline_l1_id paying_user), (User.upline_l2_id paying_user),
    (User.upline_l3_id paying_user); simpl;
    intros H; repeat (destruct H as [H | H]; [by injection H as <- <- <- |]);
    done.
Qed.



(** C5.  With the default rates 0.10, 0.05 and 0.02, a payment of 100.00 by
    a payer whose three upline pointers are set creates exactly three
    earnings, all PENDING: 10.00 for the level-1 upline, 5.00 for the
    level-2 upline and 2.00 for the level-3 upline. *)
Theorem commissions_rate_application db user_id_for_payment payment paying_user
    up1 up2 up3 :
  db_ok db →
  get_user_by_id db user_id_for_payment = Some paying_user →
  User.upline_l1_id paying_user = Some up1 →
  User.upline_l2_id paying_user = Some up2 →
  User.upline_l3_id paying_user = Some up3 →
  Payment.amount payment = Decimal.cents 10000 →
  ∃ e1 e2 e3,
    webhook_stripe_commissions default_rates user_id_for_payment (Some payment) db
    = (with_earnings (referral_earnings db ++ [e1; e2; e3])
         (referral_earnings_id_seq db + 3) db, inr tt)
    ∧ (ReferralEarning.user_id e1, ReferralEarning.referral_level e1,
       ReferralEarning.commission_amount e1, ReferralEarning.status e1)
      = (up1, 1, Decimal.cents 1000, PENDING)
    ∧ (ReferralEarning.user_id e2, ReferralEarning.referral_level e2,
       ReferralEarning.commission_amount e2, ReferralEarning.status e2)
      = (up2, 2, Decimal.cents 500, PENDING)
    ∧ (ReferralEarning.user_id e3, ReferralEarning.referral_level e3,
       ReferralEarning.commission_amount e3, ReferralEarning.status e3)
      = (up3, 3, Decimal.cents 200, PENDING).
Proof.
  intros Hok Hu H1 H2 H3 Hamount.
  rewrite (webhook_stripe_commissions_runs default_rates _ _ payment _ Hok Hu);
    [| by rewrite Hamount | reflexivity].
  unfold owed, upline_users_and_rates. rewrite H1, H2, H3.
  cbn [omap list_omap fmap option_fmap option_map commission_rows
       commission_row length Z.of_nat Pos.of_succ_nat Pos.succ].
  rewrite Hamount.
  eexists _, _, _. split; [reflexivity |].
  repeat split; reflexivity.
Qed.

Lemma commissions_rate_application_witness :
  List.map (fun e => (ReferralEarning.user_id e, ReferralEarning.referral_level e,
                      ReferralEarning.commission_amount e, ReferralEarning.status e))
    (referral_earnings db_paid_once)
  = [ (3, 1, Decimal.cents 1000, PENDING);
      (2, 2, Decimal.cents 500, PENDING);
      (1, 3, Decimal.cents 200, PENDING) ].
Proof.
  destruct (get_user_by_id db_chain4 4) as [payer|] eqn:Hu;
    [| vm_compute in Hu; discriminate Hu].
  destruct (commissions_rate_application db_chain4 4 payment_100 payer 3 2 1)
    as (e1 & e2 & e3 & Hrun & He1 & He2 & He3);
    [vm_compute; reflexivity | exact Hu
    | vm_compute in Hu; injection Hu as <-; reflexivity
    | vm_compute in Hu; injection Hu as <-; reflexivity
    | vm_compute in Hu; injection Hu as <-; reflexivity
    | reflexivity |].
  unfold db_paid_once. rewrite Hrun. cbn [fst referral_earnings with_earnings].
  change (referral_earnings db_chain4) with (@nil ReferralEarning.t).
  cbn [app List.map]. rewrite He1, He2, He3. reflexivity.
Defined.

(** ** Amounts *)

Lemma upline_entry_rate rates paying_user upline rate level :
  In (upline, rate, level) (upline_users_and_rates rates paying_user) →
  rate_of_level rates level = Some rate.
Proof.
  unfold upline_users_and_rates. simpl.
  intros [H | [H | [H | []]]]; by injection H as <- <- <-.
Qed.

(** With one rounding only: for a two-decimal amount and a rate with [k]
    fractional digits the commission is the integer product of the two
    coefficients, in units of [10 ^ -(k + 2)], rounded half away from zero
    to cents. *)
Lemma commission_for_round amount rate :
  Decimal.exp amount = -2 → Decimal.exp rate <= 0 →
  commission_for amount rate
  = Decimal.mk
      (round_half_away (Decimal.coef amount * Decimal.coef rate)
         (10 ^ (- Decimal.exp rate))) (-2).
Proof.
  intros Ha Hr. unfold commission_for, to_scale, exact_product.
  cbn [Decimal.coef Decimal.exp]. f_equal.
  replace (Decimal.exp amount + Decimal.exp rate + 2) with (Decimal.exp rate)
    by lia.
  destruct (Z.leb_spec 0 (Decimal.exp rate)) as [H0 | H0]; [| done].
  assert (Decimal.exp rate = 0) as -> by lia.
  change (10 ^ (- 0)) with 1. change (10 ^ 0) with 1.
  unfold round_half_away. rewrite Z.div_1_r, Z.mod_1_r. cbn [Z.mul Z.ltb Z.compare].
  rewrite Z.mul_1_r. symmetry. rewrite Z.mul_comm. apply Z.abs_sgn.
Qed.

(** C6.  On a store that satisfies the invariant, for a [DECIMAL(10, 2)]
    payment amount and rates between 0 and 1 of at most 18 significant
    digits, the block returns normally and has computed an amount for every
    level whose upline pointer is set: one earning per such level, whose
    amount is the exact product of the payment amount and the rate of its
    level, rounded once, half away from zero, to two decimal places, and so
    within half a cent of the exact product.  The same rounding serves the
    three levels. *)
Theorem commission_amount_rounded rates db user_id_for_payment payment paying_user :
  db_ok db →
  get_user_by_id db user_id_for_payment = Some paying_user →
  is_numeric 10 2 (Payment.amount payment) →
  rates_okb rates = true →
  ∃ new,
    webhook_stripe_commissions rates user_id_for_payment (Some payment) db
    = (with_earnings (referral_earnings db ++ new)
         (referral_earnings_id_seq db + Z.of_nat (length new)) db, inr tt)
    ∧ List.map (fun e => (ReferralEarning.user_id e, ReferralEarning.referral_level e))
        new
      = owed_levels paying_user
    ∧ Forall (fun e =>
                ∃ rate,
                  rate_of_level rates (ReferralEarning.referral_level e) = Some rate
                  ∧ ReferralEarning.commission_amount e
                    = Decimal.mk
                        (round_half_away
                           (Decimal.coef (Payment.amount payment) * Decimal.coef rate)
                           (10 ^ (- Decimal.exp rate))) (-2)
                  ∧ 2 * Z.abs (Decimal.coef (ReferralEarning.commission_amount e)
                               * 10 ^ (- Decimal.exp rate)
                               - Decimal.coef (Payment.amount payment)
                                 * Decimal.coef rate)
                    <= 10 ^ (- Decimal.exp rate)) new.
Proof.
  intros Hok Hu Hamount Hrates.
  eexists. split; [| split].
  - rewrite (webhook_stripe_commissions_runs _ _ _ _ _ Hok Hu Hamount Hrates).
    by rewrite commission_rows_length.
  - apply commission_rows_levels.
  - eapply Forall_impl; [apply commission_rows_spec |].
    intros e (_ & _ & _ & _ & rate & Hin & Ha).
    apply owed_rate_of_level in Hin.
    assert (Hrate : rate_okb rate = true).
    { unfold rates_okb in Hrates. unfold rate_of_level in Hin.
      apply andb_prop in Hrates as [Hrates H3].
      apply andb_prop in Hrates as [H1 H2].
      destruct (_ =? 1); [by injection Hin as <- |].
      destruct (_ =? 2); [by injection Hin as <- |].
      destruct (_ =? 3); [by injection Hin as <- | done]. }
    apply rate_ok_inv in Hrate as (Hexp & _ & _).
    assert (Hea : Decimal.exp (Payment.amount payment) = -2).
    { unfold is_numeric, numeric_okb in Hamount.
      apply andb_prop in Hamount as [He _]. apply Z.eqb_eq in He. lia. }
    exists rate. split; [exact Hin |].
    rewrite Ha, commission_for_round by done. split; [reflexivity |].
    cbn [Decimal.coef].
    apply round_half_away_nearest. apply Z.pow_pos_nonneg; lia.
Qed.

Lemma commission_amount_rounded_witness :
  ∃ new,
    referral_earnings db_paid_once = referral_earnings db_chain4 ++ new
    ∧ List.map (fun e => (ReferralEarning.user_id e, ReferralEarning.referral_level e,
                          ReferralEarning.commission_amount e)) new
      = [ (3, 1, Decimal.cents 1000); (2, 2, Decimal.cents 500);
          (1, 3, Decimal.cents 200) ].
Proof.
  destruct (get_user_by_id db_chain4 4) as [payer|] eqn:Hu;
    [| vm_compute in Hu; discriminate Hu].
  destruct (commission_amount_rounded default_rates db_chain4 4 payment_100 payer)
    as (new & Hrun & _ & _);
    [vm_compute; reflexivity | exact Hu | vm_compute; reflexivity
    | vm_compute; reflexivity |].
  exists new. unfold db_paid_once. rewrite Hrun.
  split; [reflexivity |].
  apply (f_equal fst) in Hrun. cbn [fst] in Hrun.
  apply (f_equal referral_earnings) in Hrun.
  cbn [referral_earnings with_earnings] in Hrun.
  change (referral_earnings db_chain4) with (@nil ReferralEarning.t) in Hrun.
  cbn [app] in Hrun. rewrite <- Hrun. vm_compute. reflexivity.
Defined.

(** C6 as stated fails for rates of more than 18 digits.  With a rate of 20
    significant digits the product of a ten-digit amount and the rate has
    30 digits and no longer fits the 28 digits of the decimal context: the context rounds it first (to
    50000000.00500000000000000000) and the column rounds the result again.
    U2 pays 99999999.99 at the level-1 rate 0.50000000010000000001: the
    exact commission is 50000000.0049999999999999999999, which is
    50000000.00 to two places, and the earning stored is 50000000.01, more
    than half a cent away. *)
Lemma commission_amount_rounding_counterexample :
  let amount := Payment.amount payment_max in
  let rate := COMMISSION_RATE_L1 rates_20_digits in
  ∃ e,
    webhook_stripe_commissions rates_20_digits 2 (Some payment_max) db_chain4
    = (with_earnings [e] 2 db_chain4, inr tt)
    ∧ ReferralEarning.referral_level e = 1
    ∧ ReferralEarning.commission_amount e = Decimal.cents 5000000001
    ∧ commission_for amount rate = Decimal.cents 5000000000
    ∧ ReferralEarning.commission_amount e
      ≠ Decimal.mk
          (round_half_away (Decimal.coef amount * Decimal.coef rate)
             (10 ^ (- Decimal.exp rate))) (-2)
    ∧ 10 ^ (- Decimal.exp rate)
      < 2 * Z.abs (Decimal.coef (ReferralEarning.commission_amount e)
                   * 10 ^ (- Decimal.exp rate)
                   - Decimal.coef amount * Decimal.coef rate).
Proof.
  cbv zeta. eexists. split; [vm_compute; reflexivity |].
  cbn [ReferralEarning.referral_level ReferralEarning.commission_amount].
  split; [reflexivity |]. split; [reflexivity |].
  split; [vm_compute; reflexivity |].
  split; [vm_compute; discriminate | vm_compute; reflexivity].
Qed.

(** The rounding is to the nearest cent: for a rate with [k] fractional
    digits, the stored cents differ from the exact product by at most half
    a cent. *)
Lemma commission_for_nearest amount rate :
  Decimal.exp amount = -2 → Decimal.exp rate < 0 →
  let k := - Decimal.exp rate in
  2 * Z.abs (Decimal.coef (commission_for amount rate) * 10 ^ k
             - Decimal.coef amount * Decimal.coef rate) <= 10 ^ k.
Proof.
  intros Ha Hr k. unfold commission_for, to_scale, exact_product.
  cbn [Decimal.coef Decimal.exp].
  replace (Decimal.exp amount + Decimal.exp rate + 2) with (Decimal.exp rate) by lia.
  destruct (Z.leb_spec 0 (Decimal.exp rate)); [lia |].
  apply round_half_away_nearest. apply Z.pow_pos_nonneg; lia.
Qed.

(** Half a cent goes away from zero: 0.125 becomes 0.13, -0.125 becomes
    -0.13, and 0.124 becomes 0.12. *)
Example rounding_half_away :
  commission_for (Decimal.cents 125) (Decimal.mk 1 (-1)) = Decimal.cents 13
  ∧ commission_for (Decimal.cents (-125)) (Decimal.mk 1 (-1)) = Decimal.cents (-13)
  ∧ commission_for (Decimal.cents 124) (Decimal.mk 1 (-1)) = Decimal.cents 12.
Proof. vm_compute. repeat split; reflexivity. Qed.

(** ** Replayed payments *)

(** A row appended to a table in which nothing matched is the one found. *)
Lemma find_snoc_new {A} (f : A → bool) (l : list A) (x : A) :
  List.find f l = None → f x = true → List.find f (l ++ [x]) = Some x.
Proof.
  induction l as [|a l IH]; simpl; intros Hl Hx.
  - by rewrite Hx.
  - destruct (f a); [done | by apply IH].
Qed.

Lemma sql_eq_str_refl v : sql_eq_str v v = true.
Proof. destruct v; simpl; [apply String.eqb_refl | done]. Qed.

(** A successful [create_payment_record] appends the row it returns, with
    the identifiers it was given. *)
Lemma create_payment_record_inr payment_in st st' row :
  create_payment_record payment_in st = (st', inr row) →
  payments st' = payments st ++ [row]
  ∧ tables st' = tables st
  ∧ Payment.id (PaymentRow.payment row) = payments_id_seq st
  ∧ PaymentRow.transaction_id row = PaymentCreate.transaction_id payment_in
  ∧ PaymentRow.payment_intent_id row = PaymentCreate.payment_intent_id payment_in.
Proof.
  unfold create_payment_record.
  destruct (numeric_column 10 2 _) as [e | amount]; [done |].
  destruct (negb _); [done |].
  destruct (_ || _); [done |].
  by intros [= <- <-].
Qed.

(** The payment step returns normally only by way of a payments row it
    has inserted itself: no row was found for the charge, the receipt
    lookup went through, and the new row carries the charge id. *)
Lemma invoice_payment_succeeded_inr retrieve_receipt_url is_http_url rates
    user_id_for_payment charge_id payment_intent_id invoice_url amount currency
    st st' :
  invoice_payment_succeeded retrieve_receipt_url is_http_url rates
    user_id_for_payment charge_id payment_intent_id invoice_url amount currency st
  = (st', inr tt) →
  ∃ row,
    get_payment_by_transaction_id st charge_id = None
    ∧ payments st' = payments st ++ [row]
    ∧ PaymentRow.transaction_id row = charge_id
    ∧ Payment.id (PaymentRow.payment row) = payments_id_seq st
    ∧ (∀ c, charge_id = Some c → truthy_str charge_id = true →
            ∃ receipt, retrieve_receipt_url c = inr receipt)
    ∧ fst (webhook_stripe_commissions rates user_id_for_payment
             (Some (PaymentRow.payment row)) (tables st))
      = tables st'.
Proof.
  unfold invoice_payment_succeeded.
  destruct (get_payment_by_transaction_id st charge_id) as [p|] eqn:Hfound.
  { by destruct (match charge_id with Some _ => _ | None => _ end). }
  destruct (if truthy_str payment_intent_id then _ else None) as [p|].
  { by destruct (match charge_id with Some _ => _ | None => _ end). }
  destruct (match charge_id with Some _ => _ | None => _ end)
    as [exc | receipt] eqn:Hreceipt; [done |].
  destruct (payment_create_valid _ _ _ _ _ _ _); [| done].
  destruct (create_payment_record _ st) as [st1 [e | row]] eqn:Hcreate; [done |].
  apply create_payment_record_inr in Hcreate as (Hrows & Htables & Hid & Htx & _).
  cbn [PaymentCreate.transaction_id] in Htx.
  destruct (webhook_stripe_commissions _ _ _ (tables st1)) as [db' [e | []]] eqn:Hblock;
    [done |].
  intros [= <-]. exists row. cbn [payments tables with_tables].
  split; [done |]. split; [exact Hrows |]. split; [exact Htx |].
  split; [exact Hid |]. split.
  - intros c -> Ht. rewrite Ht in Hreceipt. eauto.
  - rewrite <- Htables, Hblock. reflexivity.
Qed.

(** C1.  A payment event that is delivered again is not absorbed: once the
    payment step has returned normally for an event, the same event finds
    the payments row the first delivery inserted, takes the update path and
    raises [TypeError] before the commission block.  The store, and with it
    the earnings, is left as the first delivery left it. *)
Theorem payment_event_replay_raises retrieve_receipt_url is_http_url rates
    user_id_for_payment charge_id payment_intent_id invoice_url amount currency
    st st' :
  invoice_payment_succeeded retrieve_receipt_url is_http_url rates
    user_id_for_payment charge_id payment_intent_id invoice_url amount currency st
  = (st', inr tt) →
  invoice_payment_succeeded retrieve_receipt_url is_http_url rates
    user_id_for_payment charge_id payment_intent_id invoice_url amount currency st'
  = (st', inl TypeError).
Proof.
  intros Hfirst.
  apply invoice_payment_succeeded_inr in Hfirst
    as (row & Hnone & Hrows & Htx & _ & Hreceipt & _).
  assert (Hfound : get_payment_by_transaction_id st' charge_id = Some row).
  { unfold get_payment_by_transaction_id in Hnone |- *. rewrite Hrows.
    apply find_snoc_new; [exact Hnone |]. rewrite Htx. apply sql_eq_str_refl. }
  unfold invoice_payment_succeeded. rewrite Hfound.
  destruct charge_id as [c|]; [| done].
  destruct (truthy_str (Some c)) eqn:Ht; [| done].
  by destruct (Hreceipt c eq_refl eq_refl) as (receipt & ->).
Qed.

(** U4 pays 100.00 under charge [ch_1]: the first delivery of the event
    inserts payments row 1 and the three earnings; the second delivery
    raises and adds nothing. *)
Lemma payment_event_replay_raises_witness :
  ∃ st',
    invoice_payment_succeeded no_receipt any_url default_rates 4
      (Some "ch_1"%string) (Some "pi_1"%string) None (Decimal.cents 10000) "USD"
      ledger_chain4
    = (st', inr tt)
    ∧ List.map earning_triple (referral_earnings (tables st'))
      = [ (3, Some 1, 1); (2, Some 1, 2); (1, Some 1, 3) ]
    ∧ invoice_payment_succeeded no_receipt any_url default_rates 4
        (Some "ch_1"%string) (Some "pi_1"%string) None (Decimal.cents 10000) "USD"
        st'
      = (st', inl TypeError).
Proof.
  destruct (invoice_payment_succeeded no_receipt any_url default_rates 4
              (Some "ch_1"%string) (Some "pi_1"%string) None
              (Decimal.cents 10000) "USD" ledger_chain4)
    as [st' [exc | []]] eqn:E; [vm_compute in E; discriminate E |].
  exists st'. split; [reflexivity |]. split.
  - vm_compute in E. injection E as <-. vm_compute. reflexivity.
  - exact (payment_event_replay_raises _ _ _ _ _ _ _ _ _ _ _ E).
Defined.

(** An event for which a payments row exists already (here one recorded as
    pending when the payment intent was created) never reaches the
    commission block either. *)
Example payment_event_existing_row :
  let pending :=
    PaymentRow.mk (Payment.mk 1 (Some 4) (Decimal.cents 10000) "USD" PAY_PENDING)
      None (Some "pi_1"%string) in
  let st := mkLedger [pending] 2 db_chain4 in
  invoice_payment_succeeded no_receipt any_url default_rates 4
    (Some "ch_1"%string) (Some "pi_1"%string) None (Decimal.cents 10000) "USD" st
  = (st, inl TypeError).
Proof. vm_compute. reflexivity. Qed.

(** * Keys, uniqueness and the upline forest *)

(** ** Distinct lists *)

Lemma existsb_eqb_In {A} (eqb : A → A → bool) (x : A) (l : list A) :
  (∀ a b, eqb a b = true ↔ a = b) →
  existsb (eqb x) l = true ↔ x ∈ l.
Proof.
  intros Heqb. rewrite existsb_exists. split.
  - intros (y & Hin & Hy). apply Heqb in Hy as ->. by apply list_elem_of_In.
  - intros Hin. exists x. split; [by apply list_elem_of_In | by apply Heqb].
Qed.

Lemma distinctb_NoDup {A} (eqb : A → A → bool) (l : list A) :
  (∀ a b, eqb a b = true ↔ a = b) →
  distinctb eqb l = true ↔ NoDup l.
Proof.
  intros Heqb. induction l as [|x l IH]; simpl.
  - split; [constructor | done].
  - rewrite andb_true_iff, negb_true_iff, NoDup_cons, IH.
    rewrite <- not_true_iff_false, (existsb_eqb_In eqb x l Heqb). done.
Qed.

Lemma Z_eqb_iff (a b : Z) : (a =? b) = true ↔ a = b.
Proof. apply Z.eqb_eq. Qed.

Lemma string_eqb_iff (a b : string) : String.eqb a b = true ↔ a = b.
Proof. apply String.eqb_eq. Qed.

(** ** The row an update rewrites *)

(** The table around the row that a lookup by [id] loads. *)
Lemma get_user_by_id_split db user_id db_user u' :
  get_user_by_id db user_id = Some db_user →
  ∃ pre post,
    users db = pre ++ db_user :: post
    ∧ replace_user user_id u' (users db) = pre ++ u' :: post
    ∧ other_users user_id (users db) = pre ++ post
    ∧ Forall (fun v => User.id v ≠ user_id) pre.
Proof.
  unfold get_user_by_id. induction (users db) as [|v rows IH]; simpl; [done |].
  destruct (Z.eqb_spec (User.id v) user_id) as [Hv | Hv].
  - intros [= ->]. exists [], rows. repeat split; constructor.
  - intros H. destruct (IH H) as (pre & post & -> & -> & -> & Hpre).
    exists (v :: pre), post. repeat split. by constructor.
Qed.

Lemma get_referral_earning_by_id_split db earning_id e e' :
  get_referral_earning_by_id db earning_id = Some e →
  ∃ pre post,
    referral_earnings db = pre ++ e :: post
    ∧ replace_earning earning_id e' (referral_earnings db) = pre ++ e' :: post
    ∧ Forall (fun x => ReferralEarning.id x ≠ earning_id) pre.
Proof.
  unfold get_referral_earning_by_id.
  induction (referral_earnings db) as [|v rows IH]; simpl; [done |].
  destruct (Z.eqb_spec (ReferralEarning.id v) earning_id) as [Hv | Hv].
  - intros [= ->]. exists [], rows. repeat split; constructor.
  - intros H. destruct (IH H) as (pre & post & -> & -> & Hpre).
    exists (v :: pre), post. repeat split. by constructor.
Qed.

(** ** Inversion of [update_user_by_admin] *)

(** A successful update rewrites at most [email], [role] and [updated_at]
    of the loaded row. *)
Lemma update_user_by_admin_Some db user_id data_in db' u' :
  update_user_by_admin db user_id data_in = (db', inr (Some u')) →
  ∃ db_user,
    get_user_by_id db user_id = Some db_user
    ∧ db' = with_users (replace_user user_id u' (users db)) (users_id_seq db) db
    ∧ User.id u' = User.id db_user
    ∧ User.firebase_uid u' = User.firebase_uid db_user
    ∧ User.referral_code u' = User.referral_code db_user
    ∧ User.referred_by_id u' = User.referred_by_id db_user
    ∧ User.upline_l1_id u' = User.upline_l1_id db_user
    ∧ User.upline_l2_id u' = User.upline_l2_id db_user
    ∧ User.upline_l3_id u' = User.upline_l3_id db_user
    ∧ User.stripe_customer_id u' = User.stripe_customer_id db_user
    ∧ User.created_at u' = User.created_at db_user
    ∧ (User.email u' = User.email db_user
       ∨ existsb (fun v => String.eqb (User.email v) (User.email u'))
           (other_users user_id (users db)) = false).
Proof.
  unfold update_user_by_admin.
  destruct (get_user_by_id db user_id) as [db_user|]; [| done].
  match goal with |- context [if ?c then (db, inl IntegrityError) else _] =>
    destruct c end; [done |].
  destruct (match AdminUserUpdate.email data_in with
            | Some v => v | None => Some (User.email db_user) end) as [e|];
    [| by destruct (match AdminUserUpdate.role data_in with
                    | Some v => v | None => Some (User.role db_user) end)
            as [r|]; [destruct (_ && _) |]].
  cbv zeta.
  destruct (String.eqb e (User.email db_user)) eqn:Ee; cbn [negb andb orb].
  - destruct (match AdminUserUpdate.role data_in with
              | Some v => v | None => Some (User.role db_user) end) as [r|];
      [| done].
    destruct (_ && _); [done |].
    intros [= <- <-]. exists db_user. cbn. repeat split; try done.
    left. by apply String.eqb_eq.
  - destruct (existsb _ (other_users user_id (users db))) eqn:Eo; [done |].
    destruct (match AdminUserUpdate.role data_in with
              | Some v => v | None => Some (User.role db_user) end) as [r|];
      [| by destruct (negb _)].
    destruct (_ || _); [done |].
    intros [= <- <-]. exists db_user. cbn. repeat split; try done. by right.
Qed.

(** Every other outcome leaves the store as it was. *)
Lemma update_user_by_admin_unchanged db user_id data_in db' r :
  update_user_by_admin db user_id data_in = (db', r) →
  (∀ u, r ≠ inr (Some u)) →
  db' = db.
Proof.
  unfold update_user_by_admin. intros H Hr.
  destruct (get_user_by_id db user_id) as [db_user|]; [| by injection H as <- _].
  match type of H with context [if ?c then (db, inl IntegrityError) else _] =>
    destruct c end; [by injection H as <- _ |].
  cbv zeta in H.
  repeat match type of H with
         | context [match ?c with Some _ => _ | None => _ end] => destruct c
         | context [if ?c then _ else _] => destruct c
         end;
    try (by injection H as <- _).
  all: injection H as _ <-; by destruct (Hr _ eq_refl).
Qed.

(** ** The invariant reads the lineage columns only *)

Lemma lineage_of_inv u v :
  lineage_of u = lineage_of v →
  User.id u = User.id v ∧ User.upline_l1_id u = User.upline_l1_id v
  ∧ User.upline_l2_id u = User.upline_l2_id v
  ∧ User.upline_l3_id u = User.upline_l3_id v.
Proof. unfold lineage_of. by intros [= -> -> -> ->]. Qed.

Lemma map_cons_inv {A B} (f : A → B) x l y l' :
  List.map f (x :: l) = List.map f (y :: l') →
  f x = f y ∧ List.map f l = List.map f l'.
Proof. simpl. intros H. by injection H. Qed.

Lemma find_user_lineage rows rows' i :
  List.map lineage_of rows = List.map lineage_of rows' →
  lineage_of <$> List.find (fun u => User.id u =? i) rows
  = lineage_of <$> List.find (fun u => User.id u =? i) rows'.
Proof.
  revert rows'. induction rows as [|u rows IH]; intros [|u' rows'];
    try done.
  intros H. apply map_cons_inv in H as [Hu Hrest].
  pose proof (lineage_of_inv _ _ Hu) as (Hid & _).
  simpl. rewrite Hid. destruct (User.id u' =? i).
  - simpl. by rewrite Hu.
  - by apply IH.
Qed.

Lemma fk_users_lineage rows rows' p :
  List.map lineage_of rows = List.map lineage_of rows' →
  fk_users rows p = fk_users rows' p.
Proof.
  intros H. destruct p as [i|]; [| done]. simpl.
  pose proof (find_user_lineage _ _ i H) as Hf.
  destruct (existsb (fun u => User.id u =? i) rows) eqn:E1,
           (existsb (fun u => User.id u =? i) rows') eqn:E2; try done.
  - apply existsb_exists in E1 as (u & Hin & Hu).
    destruct (List.find (fun u => User.id u =? i) rows) eqn:F1.
    + destruct (List.find (fun u => User.id u =? i) rows') eqn:F2; [| done].
      apply find_some in F2 as [Hin2 Hu2].
      assert (existsb (fun u => User.id u =? i) rows' = true)
        by (apply existsb_exists; eauto). congruence.
    + eapply find_none in F1; [| exact Hin]. simpl in F1. congruence.
  - apply existsb_exists in E2 as (u & Hin & Hu).
    destruct (List.find (fun u => User.id u =? i) rows') eqn:F2.
    + destruct (List.find (fun u => User.id u =? i) rows) eqn:F1; [| done].
      apply find_some in F1 as [Hin1 Hu1].
      assert (existsb (fun u => User.id u =? i) rows = true)
        by (apply existsb_exists; eauto). congruence.
    + eapply find_none in F2; [| exact Hin]. simpl in F2. congruence.
Qed.

Lemma user_okb_lineage db db' u u' :
  List.map lineage_of (users db) = List.map lineage_of (users db') →
  lineage_of u = lineage_of u' →
  user_okb db u = user_okb db' u'.
Proof.
  intros Htab Hu. apply lineage_of_inv in Hu as (Hid & H1 & H2 & H3).
  unfold user_okb, lineage_okb. rewrite Hid, H1, H2, H3.
  rewrite !(fk_users_lineage _ _ _ Htab). do 4 f_equal.
  destruct (User.upline_l1_id u') as [r|]; [| done].
  pose proof (find_user_lineage _ _ r Htab) as Hf.
  unfold get_user_by_id.
  destruct (List.find _ (users db)) as [p|], (List.find _ (users db')) as [p'|];
    try done.
  assert (Hp : lineage_of p = lineage_of p') by (simpl in Hf; congruence).
  apply lineage_of_inv in Hp as (_ & -> & -> & _). done.
Qed.

Lemma users_ok_lineage db db' :
  List.map lineage_of (users db) = List.map lineage_of (users db') →
  forallb (user_okb db) (users db) = forallb (user_okb db') (users db').
Proof.
  intros Htab.
  assert (H : ∀ l l', List.map lineage_of l = List.map lineage_of l' →
            forallb (user_okb db) l = forallb (user_okb db') l').
  { induction l as [|u l IH]; intros [|u' l']; try done.
    intros Hl. apply map_cons_inv in Hl as [Hu Hl]. simpl.
    by rewrite (user_okb_lineage _ _ _ _ Htab Hu), (IH _ Hl). }
  by apply H.
Qed.

Lemma map_lineage_id rows rows' :
  List.map lineage_of rows = List.map lineage_of rows' →
  List.map User.id rows = List.map User.id rows'.
Proof.
  revert rows'. induction rows as [|u l IH]; intros [|u' l']; try done.
  intros Hl. apply map_cons_inv in Hl as [Hu Hl]. simpl.
  apply lineage_of_inv in Hu as (-> & _). f_equal. by apply IH.
Qed.

Lemma forest_ok_lineage rows rows' :
  List.map lineage_of rows = List.map lineage_of rows' →
  forallb (fun u => match User.upline_l1_id u with
                    | Some r => r <? User.id u
                    | None => true
                    end) rows
  = forallb (fun u => match User.upline_l1_id u with
                      | Some r => r <? User.id u
                      | None => true
                      end) rows'.
Proof.
  revert rows'. induction rows as [|u l IH]; intros [|u' l']; try done.
  intros Hl. apply map_cons_inv in Hl as [Hu Hl]. simpl.
  apply lineage_of_inv in Hu as (-> & -> & _). f_equal. by apply IH.
Qed.

(** ** What each part of the invariant says *)

Ltac split_andb H :=
  repeat match type of H with
         | (_ && _) = true => let H' := fresh H in apply andb_prop in H as [H H']
         end.

Lemma users_keys_ok_inv db :
  users_keys_okb db = true →
  Forall (fun u => User.id u < users_id_seq db) (users db)
  ∧ NoDup (List.map User.id (users db)).
Proof.
  unfold users_keys_okb. intros H. apply andb_prop in H as [H1 H2]. split.
  - apply Forall_forall. intros u Hu. rewrite forallb_forall in H1.
    apply list_elem_of_In, H1 in Hu. lia.
  - by apply (distinctb_NoDup Z.eqb _ Z_eqb_iff).
Qed.

Lemma users_keys_ok_intro db :
  Forall (fun u => User.id u < users_id_seq db) (users db) →
  NoDup (List.map User.id (users db)) →
  users_keys_okb db = true.
Proof.
  intros H1 H2. unfold users_keys_okb. apply andb_true_intro. split.
  - apply forallb_forall. intros u Hu. rewrite Forall_forall in H1.
    apply list_elem_of_In, H1 in Hu. lia.
  - by apply (distinctb_NoDup Z.eqb _ Z_eqb_iff).
Qed.

Lemma earnings_keys_ok_inv db :
  earnings_keys_okb db = true →
  Forall (fun e => ReferralEarning.id e < referral_earnings_id_seq db)
    (referral_earnings db)
  ∧ NoDup (List.map ReferralEarning.id (referral_earnings db)).
Proof.
  unfold earnings_keys_okb. intros H. apply andb_prop in H as [H1 H2]. split.
  - apply Forall_forall. intros u Hu. rewrite forallb_forall in H1.
    apply list_elem_of_In, H1 in Hu. lia.
  - by apply (distinctb_NoDup Z.eqb _ Z_eqb_iff).
Qed.

Lemma earnings_keys_ok_intro db :
  Forall (fun e => ReferralEarning.id e < referral_earnings_id_seq db)
    (referral_earnings db) →
  NoDup (List.map ReferralEarning.id (referral_earnings db)) →
  earnings_keys_okb db = true.
Proof.
  intros H1 H2. unfold earnings_keys_okb. apply andb_true_intro. split.
  - apply forallb_forall. intros u Hu. rewrite Forall_forall in H1.
    apply list_elem_of_In, H1 in Hu. lia.
  - by apply (distinctb_NoDup Z.eqb _ Z_eqb_iff).
Qed.

Lemma users_unique_iff db :
  users_uniqueb db = true ↔
  NoDup (List.map User.firebase_uid (users db))
  ∧ NoDup (List.map User.email (users db))
  ∧ NoDup (omap User.referral_code (users db)).
Proof.
  unfold users_uniqueb.
  rewrite !andb_true_iff, !(distinctb_NoDup String.eqb _ string_eqb_iff).
  tauto.
Qed.

Lemma forest_ok_inv db u r :
  forest_okb db = true → In u (users db) → User.upline_l1_id u = Some r →
  r < User.id u.
Proof.
  unfold forest_okb. intros H Hin Hr. rewrite forallb_forall in H.
  specialize (H u Hin). rewrite Hr in H. lia.
Qed.

Lemma db_wf_inv db :
  db_wf db →
  db_ok db ∧ users_keys_okb db = true ∧ earnings_keys_okb db = true
  ∧ users_uniqueb db = true ∧ forest_okb db = true.
Proof.
  unfold db_wf, db_wfb, db_ok. intros H. split_andb H. done.
Qed.

Lemma db_wf_intro db :
  db_ok db → users_keys_okb db = true → earnings_keys_okb db = true →
  users_uniqueb db = true → forest_okb db = true → db_wf db.
Proof.
  unfold db_wf, db_wfb, db_ok. by intros -> -> -> -> ->.
Qed.

(** ** [create_user] keeps the invariant *)

Lemma NoDup_snoc_fresh {A} (l : list A) (x : A) :
  NoDup l → x ∉ l → NoDup (l ++ [x]).
Proof.
  intros Hl Hx. apply NoDup_app. split; [done |]. split.
  - intros y Hy Hy'. apply list_elem_of_singleton in Hy' as ->. done.
  - apply NoDup_singleton.
Qed.

Lemma not_existsb_not_elem {A B} (f : A → B) (eqb : B → B → bool) (x : B)
    (l : list A) :
  (∀ a b, eqb a b = true ↔ a = b) →
  existsb (fun v => eqb (f v) x) l = false → x ∉ List.map f l.
Proof.
  intros Heqb H Hin. apply list_elem_of_In, in_map_iff in Hin as (v & <- & Hv).
  assert (existsb (fun v0 => eqb (f v0) (f v)) l = true).
  { apply existsb_exists. exists v. split; [done | by apply Heqb]. }
  congruence.
Qed.

(** The level-1 pointer [create_user] stamps is the id of a row of the
    table, on any store. *)
Lemma populate_upline_l1 db referred_by_id l1 l2 l3 :
  populate_upline db referred_by_id = (l1, l2, l3) →
  l1 = None ∨ ∃ R, In R (users db) ∧ l1 = Some (User.id R).
Proof.
  unfold populate_upline.
  destruct referred_by_id as [rid|]; [| intros [= <- _ _]; by left].
  destruct (rid =? 0); [intros [= <- _ _]; by left |].
  destruct (get_user_by_id db rid) as [R|] eqn:HR;
    [| intros [= <- _ _]; by left].
  apply get_user_by_id_Some in HR as [HR _].
  intros H. right. exists R. split; [done |].
  destruct (truthy_int (User.upline_l1_id R)); [| by injection H as <- _ _].
  destruct (upline_l1 db R) as [g|]; [| by injection H as <- _ _].
  destruct (truthy_int (User.upline_l1_id g)); by injection H as <- _ _.
Qed.

(** A draw from the [users] sequence that inserts nothing keeps the
    invariant. *)
Lemma db_wf_sequence_draw db :
  db_wf db → db_wf (with_users (users db) (users_id_seq db + 1) db).
Proof.
  intros (Hok & Hkeys & Hekeys & Huniq & Hforest)%db_wf_inv.
  apply users_keys_ok_inv in Hkeys as [Hlt Hnd].
  apply db_wf_intro;
    [by apply db_ok_sequence_draw | | exact Hekeys | exact Huniq | exact Hforest].
  apply users_keys_ok_intro; cbn [users users_id_seq with_users]; [| done].
  eapply Forall_impl; [exact Hlt |]. simpl. intros; lia.
Qed.

Lemma create_user_db_wf db user_data :
  db_wf db → db_wf (fst (create_user db user_data)).
Proof.
  intros Hwf. pose proof Hwf as Hwf'.
  apply db_wf_inv in Hwf' as (Hok & Hkeys & Hekeys & Huniq & Hforest).
  destruct (create_user db user_data) as [db' [u|]] eqn:E; simpl.
  2: { destruct (create_user_None _ _ _ E) as [-> | ->];
         [done | by apply db_wf_sequence_draw]. }
  pose proof (create_user_db_ok db user_data Hok) as Hok'. rewrite E in Hok'.
  simpl in Hok'.
  apply create_user_Some in E as (-> & Hid & _ & Hup & Hc).
  apply users_keys_ok_inv in Hkeys as [Hlt Hnd].
  apply db_wf_intro; [done | | exact Hekeys | |].
  - apply users_keys_ok_intro; simpl.
    + apply Forall_app. split.
      * eapply Forall_impl; [exact Hlt |]. simpl. intros; lia.
      * constructor; [lia | constructor].
    + rewrite map_app. simpl. apply NoDup_snoc_fresh; [done |].
      rewrite Hid. intros Hin.
      apply list_elem_of_In, in_map_iff in Hin as (v & Hv & Hin).
      rewrite Forall_forall in Hlt. apply list_elem_of_In, Hlt in Hin. lia.
  - apply users_unique_iff in Huniq as (Hu1 & Hu2 & Hu3).
    unfold users_constraints_ok in Hc. split_andb Hc.
    apply negb_true_iff in Hc, Hc6, Hc5.
    apply users_unique_iff. simpl. rewrite !map_app, omap_app. simpl.
    split; [| split].
    + apply NoDup_snoc_fresh; [done |].
      by apply (not_existsb_not_elem User.firebase_uid String.eqb _ _ string_eqb_iff).
    + apply NoDup_snoc_fresh; [done |].
      by apply (not_existsb_not_elem User.email String.eqb _ _ string_eqb_iff).
    + destruct (User.referral_code u) as [c|] eqn:Ec; simpl;
        [| by rewrite app_nil_r].
      apply NoDup_snoc_fresh; [done |].
      intros Hin. apply list_elem_of_omap in Hin as (v & Hv & Hcv).
      assert (existsb (fun v0 => opt_string_eqb (User.referral_code v0) (Some c))
                (users db) = true); [| congruence].
      apply existsb_exists. exists v. split; [by apply list_elem_of_In |].
      rewrite Hcv. simpl. by apply String.eqb_eq.
  - unfold forest_okb in Hforest |- *. simpl. rewrite forallb_app, Hforest.
    simpl. rewrite andb_true_r.
    destruct (populate_upline_l1 _ _ _ _ _ (eq_sym Hup)) as [-> | (R & HR & ->)];
      [done |].
    rewrite Forall_forall in Hlt. apply list_elem_of_In, Hlt in HR. lia.
Qed.

(** ** Inserts and status updates keep the invariant *)

Lemma create_referral_earning_keys earning_in db db' r :
  create_referral_earning earning_in db = (db', r) →
  earnings_keys_okb db = true → earnings_keys_okb db' = true.
Proof.
  intros H Hk. destruct r as [err|e].
  { by apply create_referral_earning_inl in H as ->. }
  apply create_referral_earning_inr in H as (-> & _ & Hid & _).
  apply earnings_keys_ok_inv in Hk as [Hlt Hnd].
  apply earnings_keys_ok_intro; simpl.
  - apply Forall_app. split.
    + eapply Forall_impl; [exact Hlt |]. simpl. intros; lia.
    + constructor; [lia | constructor].
  - rewrite map_app. simpl. apply NoDup_snoc_fresh; [done |].
    rewrite Hid. intros Hin.
    apply list_elem_of_In, in_map_iff in Hin as (v & Hv & Hin).
    rewrite Forall_forall in Hlt. apply list_elem_of_In, Hlt in Hin. lia.
Qed.

Lemma commission_loop_keys paying_user db_payment todo :
  ∀ db db' r,
    commission_loop paying_user db_payment todo db = (db', r) →
    earnings_keys_okb db = true → earnings_keys_okb db' = true.
Proof.
  induction todo as [|[[upline rate] level] todo IH]; intros db db' r; simpl.
  - by intros [= <- _].
  - destruct upline as [uid|]; [| apply IH].
    destruct (truthy_int (Some uid)); [| apply IH].
    unfold bind.
    destruct (create_referral_earning _ db) as [db1 [err|e]] eqn:Ec.
    + intros [= <- _]. by eapply create_referral_earning_keys.
    + intros H Hk. eapply IH; [exact H |].
      by eapply create_referral_earning_keys.
Qed.

(** The commission block touches nothing but [referral_earnings] and its
    sequence. *)
Lemma webhook_stripe_commissions_users rates user_id_for_payment db_payment db :
  let db' := fst (webhook_stripe_commissions rates user_id_for_payment db_payment db) in
  users db' = users db ∧ users_id_seq db' = users_id_seq db ∧ now db' = now db.
Proof.
  destruct (webhook_stripe_commissions _ _ _ db) as [db' r] eqn:E. simpl.
  by apply webhook_stripe_commissions_appends in E as (new & -> & _).
Qed.

Lemma webhook_stripe_commissions_db_wf rates user_id_for_payment db_payment db :
  db_wf db →
  db_wf (fst (webhook_stripe_commissions rates user_id_for_payment db_payment db)).
Proof.
  intros Hwf. pose proof Hwf as Hwf'.
  apply db_wf_inv in Hwf' as (Hok & Hkeys & Hekeys & Huniq & Hforest).
  pose proof (webhook_stripe_commissions_db_ok rates user_id_for_payment
                db_payment db Hok) as Hok'.
  destruct (webhook_stripe_commissions _ _ _ db) as [db' r] eqn:E. simpl in *.
  assert (Hk' : earnings_keys_okb db' = true).
  { unfold webhook_stripe_commissions in E.
    destruct (get_user_by_id db user_id_for_payment); [| by injection E as <- _].
    destruct db_payment; [| by injection E as <- _].
    by eapply commission_loop_keys. }
  apply webhook_stripe_commissions_appends in E as (new & -> & _).
  by apply db_wf_intro.
Qed.

Lemma update_referral_earning_status_db_wf db earning_id new_status notes :
  db_wf db →
  db_wf (fst (update_referral_earning_status db earning_id new_status notes)).
Proof.
  intros Hwf. pose proof Hwf as Hwf'.
  apply db_wf_inv in Hwf' as (Hok & Hkeys & Hekeys & Huniq & Hforest).
  pose proof (update_referral_earning_status_db_ok db earning_id new_status
                notes Hok) as Hok'.
  destruct (get_referral_earning_by_id db earning_id) as [e|] eqn:He.
  2: { by rewrite update_referral_earning_status_None. }
  destruct (update_referral_earning_status_Some _ _ new_status notes _ He)
    as (notes' & ts & Hupd & _).
  rewrite Hupd in Hok' |- *. simpl in *.
  apply db_wf_intro; try done.
  apply earnings_keys_ok_inv in Hekeys as [Hlt Hnd].
  destruct (get_referral_earning_by_id_split db earning_id e
    (ReferralEarning.set_updated_at ts
       (ReferralEarning.set_notes notes'
          (ReferralEarning.set_status new_status e))) He)
    as (pre & post & Hrows & Hrep & _).
  apply earnings_keys_ok_intro; simpl; rewrite Hrep.
  - rewrite Hrows in Hlt. apply Forall_app in Hlt as [Hpre Hpost].
    apply Forall_cons in Hpost as [Hx Hpost].
    apply Forall_app. split; [done |]. by constructor.
  - rewrite Hrows in Hnd. by rewrite map_app in Hnd |- *.
Qed.

(** ** [update_user_by_admin] keeps the invariant *)

Lemma update_user_by_admin_db_wf db user_id data_in :
  db_wf db → db_wf (fst (update_user_by_admin db user_id data_in)).
Proof.
  intros Hwf. pose proof Hwf as Hwf'.
  apply db_wf_inv in Hwf' as (Hok & Hkeys & Hekeys & Huniq & Hforest).
  destruct (update_user_by_admin db user_id data_in) as [db' r] eqn:E. simpl.
  destruct r as [err | [u'|]].
  1, 3: by rewrite (update_user_by_admin_unchanged _ _ _ _ _ E).
  apply update_user_by_admin_Some in E
    as (db_user & Hget & -> & Hid & Huid & Hcode & _ & H1 & H2 & H3 & _ & _ & Hemail).
  destruct (get_user_by_id_split db user_id db_user u' Hget)
    as (pre & post & Hrows & Hrep & Hothers & _).
  assert (Hlin : List.map lineage_of (users db)
                 = List.map lineage_of (pre ++ u' :: post)).
  { rewrite Hrows, !map_app. simpl. do 2 f_equal.
    unfold lineage_of. by rewrite Hid, H1, H2, H3. }
  set (db' := with_users (replace_user user_id u' (users db)) (users_id_seq db) db).
  assert (Husers : users db' = pre ++ u' :: post) by exact Hrep.
  rewrite <- Husers in Hlin.
  apply db_wf_intro.
  - unfold db_ok, db_okb in Hok |- *. split_andb Hok.
    rewrite <- (users_ok_lineage db db' Hlin).
    change (users_id_seq db') with (users_id_seq db).
    change (referral_earnings db') with (referral_earnings db).
    by rewrite Hok, Hok1, Hok0.
  - apply users_keys_ok_inv in Hkeys as [Hlt Hnd].
    unfold users_keys_okb. change (users_id_seq db') with (users_id_seq db).
    rewrite <- (map_lineage_id _ _ Hlin).
    apply andb_true_intro. split.
    + apply forallb_forall. intros v Hv.
      assert (Hvid : User.id v ∈ List.map User.id (users db)).
      { rewrite (map_lineage_id _ _ Hlin). apply list_elem_of_In, in_map.
        exact Hv. }
      apply list_elem_of_In, in_map_iff in Hvid as (w & Hw & Hin).
      rewrite Forall_forall in Hlt. apply list_elem_of_In, Hlt in Hin. lia.
    + by apply (distinctb_NoDup Z.eqb _ Z_eqb_iff).
  - exact Hekeys.
  - apply users_unique_iff in Huniq as (Hu1 & Hu2 & Hu3).
    apply users_unique_iff. rewrite Husers. rewrite Hrows in Hu1, Hu2, Hu3.
    rewrite !map_app, omap_app in *. simpl in *.
    rewrite Huid, Hcode. split; [done |]. split; [| done].
    destruct Hemail as [-> | Hfree]; [done |].
    rewrite Hothers in Hfree.
    apply (not_existsb_not_elem User.email String.eqb _ _ string_eqb_iff)
      in Hfree.
    rewrite map_app in Hfree.
    apply NoDup_app in Hu2 as (Hpre & Hdisj & Hpost).
    apply NoDup_cons in Hpost as [_ Hpost].
    apply NoDup_app. split; [done |]. split.
    + intros x Hx Hx'. apply elem_of_cons in Hx' as [-> | Hx'].
      * apply Hfree. apply elem_of_app. by left.
      * apply (Hdisj x Hx). by right.
    + apply NoDup_cons. split; [| done].
      intros Hin. apply Hfree. apply elem_of_app. by right.
  - unfold forest_okb in Hforest |- *.
    by rewrite <- (forest_ok_lineage _ _ Hlin).
Qed.

(** ** Every served store satisfies the full invariant *)

Lemma request_db_wf db db' : request db db' → db_wf db → db_wf db'.
Proof.
  intros Hreq Hwf. destruct Hreq as [db db' Hstep | db user_id data_in].
  - destruct Hstep.
    + by apply create_user_db_wf.
    + by apply webhook_stripe_commissions_db_wf.
    + by apply update_referral_earning_status_db_wf.
    + exact Hwf.
  - by apply update_user_by_admin_db_wf.
Qed.

(** X1.  Every store produced by registrations, commission runs, status
    updates, admin updates of users and clock ticks, in any order and with
    any arguments, satisfies the full invariant: the lineage snapshot and
    column types of [db_ok], primary keys drawn once from their sequence,
    unique Firebase UIDs, e-mails and referral codes, and level-1 uplines
    older than their recruits. *)
Theorem served_store_invariant db : served db → db_wf db.
Proof.
  unfold served. revert db.
  apply (rtc_ind_r (λ d, db_wf d) empty_db); [reflexivity |].
  intros y z _ Hreq IH. by eapply request_db_wf.
Qed.

Lemma served_chain4 : served db_chain4.
Proof.
  unfold served, db_chain4, db_chain3.
  repeat (eapply rtc_r; [| apply request_step, step_create_user]).
  apply rtc_refl.
Qed.

Lemma served_store_invariant_witness : db_wf db_chain4.
Proof. apply (served_store_invariant db_chain4). exact served_chain4. Defined.

(** * Lookups by key *)

Lemma find_unique {A B} (f : A → B) (eqb : B → B → bool) (l : list A) (u : A) :
  (∀ a b, eqb a b = true ↔ a = b) →
  NoDup (List.map f l) → In u l →
  List.find (fun v => eqb (f v) (f u)) l = Some u.
Proof.
  intros Heqb. induction l as [|x l IH]; simpl; [done |].
  intros Hnd Hin. apply NoDup_cons in Hnd as [Hx Hnd].
  destruct (eqb (f x) (f u)) eqn:E.
  - apply Heqb in E. destruct Hin as [-> | Hin]; [done |].
    exfalso. apply Hx. rewrite E. by apply list_elem_of_In, in_map.
  - destruct Hin as [-> | Hin]; [| by apply IH].
    assert (eqb (f u) (f u) = true) by by apply Heqb. congruence.
Qed.

Lemma find_unique_omap {A} (f : A → option string) (l : list A) (u : A) c :
  NoDup (omap f l) → In u l → f u = Some c →
  List.find (fun v => match f v with
                      | Some x => String.eqb x c
                      | None => false
                      end) l = Some u.
Proof.
  induction l as [|x l IH]; simpl; [done |].
  intros Hnd Hin Hc.
  destruct (f x) as [cx|] eqn:Ex.
  - apply NoDup_cons in Hnd as [Hx Hnd].
    destruct (String.eqb_spec cx c) as [-> | Hne].
    + destruct Hin as [-> | Hin]; [done |].
      exfalso. apply Hx. apply list_elem_of_omap. exists u.
      split; [by apply list_elem_of_In | done].
    + destruct Hin as [-> | Hin]; [congruence | by apply IH].
  - destruct Hin as [-> | Hin]; [congruence | by apply IH].
Qed.

(** X2.  In a store that satisfies the full invariant the four lookups of
    [user_crud] are unambiguous: every row of [users] is the one found by
    its own id, by its Firebase UID, by its e-mail and, when it has one, by
    its referral code. *)
Theorem user_lookups_find_the_row db u :
  db_wf db → In u (users db) →
  get_user_by_id db (User.id u) = Some u
  ∧ get_user_by_firebase_uid db (User.firebase_uid u) = Some u
  ∧ get_user_by_email db (User.email u) = Some u
  ∧ (∀ code, User.referral_code u = Some code →
             get_user_by_referral_code db code = Some u).
Proof.
  intros Hwf Hin.
  apply db_wf_inv in Hwf as (_ & Hkeys & _ & Huniq & _).
  apply users_keys_ok_inv in Hkeys as [_ Hids].
  apply users_unique_iff in Huniq as (Hu1 & Hu2 & Hu3).
  split; [| split; [| split]].
  - unfold get_user_by_id.
    exact (find_unique User.id Z.eqb _ _ Z_eqb_iff Hids Hin).
  - unfold get_user_by_firebase_uid.
    exact (find_unique User.firebase_uid String.eqb _ _ string_eqb_iff Hu1 Hin).
  - unfold get_user_by_email.
    exact (find_unique User.email String.eqb _ _ string_eqb_iff Hu2 Hin).
  - intros code Hcode. unfold get_user_by_referral_code, has_referral_code.
    exact (find_unique_omap User.referral_code _ _ _ Hu3 Hin Hcode).
Qed.

Lemma user_lookups_find_the_row_witness :
  ∃ u, get_user_by_id db_chain4 3 = Some u
       ∧ get_user_by_email db_chain4 "u3@example.org" = Some u
       ∧ get_user_by_referral_code db_chain4 "AAAA0003" = Some u.
Proof.
  destruct (get_user_by_id db_chain4 3) as [u|] eqn:Hu;
    [| vm_compute in Hu; discriminate Hu].
  destruct (user_lookups_find_the_row db_chain4 u) as (_ & _ & He & Hc);
    [vm_compute; reflexivity
    | by apply get_user_by_id_Some in Hu as [? _] |].
  exists u. split; [reflexivity |].
  vm_compute in Hu. injection Hu as <-.
  split; [exact He | exact (Hc _ eq_refl)].
Defined.

(** * The upline forest *)

(** X3.  In a store that satisfies the full invariant the upline pointers
    of a user strictly descend: the level-1 upline has a smaller id than
    the user, the level-2 upline a smaller id than the level-1 upline, and
    the level-3 upline a smaller id than the level-2 upline.  No user is
    their own upline at any level and the pointers cannot form a cycle. *)
Theorem upline_ids_descend db u :
  db_wf db → In u (users db) →
  (∀ a, User.upline_l1_id u = Some a → a < User.id u)
  ∧ (∀ a b, User.upline_l1_id u = Some a → User.upline_l2_id u = Some b → b < a)
  ∧ (∀ b c, User.upline_l2_id u = Some b → User.upline_l3_id u = Some c → c < b)
  ∧ (User.upline_l1_id u = None →
     User.upline_l2_id u = None ∧ User.upline_l3_id u = None)
  ∧ (User.upline_l2_id u = None → User.upline_l3_id u = None).
Proof.
  intros Hwf Hin.
  apply db_wf_inv in Hwf as (Hok & _ & _ & _ & Hforest).
  assert (Hlin : ∀ v, In v (users db) →
            match User.upline_l1_id v with
            | None => User.upline_l2_id v = None ∧ User.upline_l3_id v = None
            | Some r => ∃ p, In p (users db) ∧ User.id p = r
                             ∧ User.upline_l2_id v = User.upline_l1_id p
                             ∧ User.upline_l3_id v = User.upline_l2_id p
            end).
  { intros v Hv. pose proof (db_ok_user _ _ Hok Hv) as Hvok.
    unfold user_okb in Hvok. apply andb_prop in Hvok as [_ Hvl].
    unfold lineage_okb in Hvl. destruct (User.upline_l1_id v) as [r|].
    - destruct (get_user_by_id db r) as [p|] eqn:Hp; [| done].
      apply andb_prop in Hvl as [H2 H3].
      apply opt_Z_eqb_eq in H2, H3.
      apply get_user_by_id_Some in Hp as [Hp Hid]. eauto 6.
    - apply andb_prop in Hvl as [H2 H3].
      by apply opt_Z_eqb_eq in H2, H3. }
  pose proof (Hlin u Hin) as Hu.
  destruct (User.upline_l1_id u) as [a|] eqn:Ha.
  - destruct Hu as (p & Hp & Hpid & H2 & H3).
    pose proof (Hlin p Hp) as Hpl.
    split. { intros ? [= <-]. by eapply forest_ok_inv. }
    split. { intros ? b [= <-] Hb. rewrite H2 in Hb. rewrite <- Hpid.
             by eapply forest_ok_inv. }
    split.
    { intros b c Hb Hc. rewrite H2 in Hb. rewrite H3 in Hc.
      rewrite Hb in Hpl. destruct Hpl as (q & Hq & Hqid & Hq2 & _).
      rewrite Hq2 in Hc. rewrite <- Hqid. by eapply forest_ok_inv. }
    split; [done |].
    intros Hn. rewrite H2 in Hn. rewrite Hn in Hpl. rewrite H3. by destruct Hpl.
  - destruct Hu as [H2 H3]. rewrite H2, H3. repeat split; done.
Qed.

Lemma upline_ids_descend_witness :
  ∃ u, get_user_by_id db_chain4 4 = Some u
       ∧ User.upline_l1_id u = Some 3 ∧ 3 < User.id u.
Proof.
  destruct (get_user_by_id db_chain4 4) as [u|] eqn:Hu;
    [| vm_compute in Hu; discriminate Hu].
  destruct (upline_ids_descend db_chain4 u) as (H1 & _);
    [vm_compute; reflexivity
    | by apply get_user_by_id_Some in Hu as [? _] |].
  exists u. split; [reflexivity |].
  assert (Hl1 : User.upline_l1_id u = Some 3)
    by (vm_compute in Hu; by injection Hu as <-).
  split; [exact Hl1 | exact (H1 3 Hl1)].
Defined.

(** * Admin updates of users *)

(** X4.  Whatever its outcome, [update_user_by_admin] rewrites nothing but
    the e-mail, role and update time of the one user: the earnings table
    and both sequences are untouched, every row keeps its id, Firebase UID,
    referral code, referrer and three upline pointers, and every other user
    is found unchanged. *)
Theorem update_user_by_admin_frame db user_id data_in db' r :
  update_user_by_admin db user_id data_in = (db', r) →
  referral_earnings db' = referral_earnings db
  ∧ users_id_seq db' = users_id_seq db
  ∧ referral_earnings_id_seq db' = referral_earnings_id_seq db
  ∧ List.map lineage_of (users db') = List.map lineage_of (users db)
  ∧ List.map User.firebase_uid (users db') = List.map User.firebase_uid (users db)
  ∧ List.map User.referral_code (users db') = List.map User.referral_code (users db)
  ∧ List.map User.referred_by_id (users db') = List.map User.referred_by_id (users db)
  ∧ (∀ i, i ≠ user_id → get_user_by_id db' i = get_user_by_id db i).
Proof.
  intros E. destruct r as [err | [u'|]].
  1, 3: by rewrite (update_user_by_admin_unchanged _ _ _ _ _ E).
  apply update_user_by_admin_Some in E
    as (db_user & Hget & -> & Hid & Huid & Hcode & Href & H1 & H2 & H3 & _).
  destruct (get_user_by_id_split db user_id db_user u' Hget)
    as (pre & post & Hrows & Hrep & _ & Hpre).
  cbn [referral_earnings users users_id_seq referral_earnings_id_seq with_users].
  rewrite Hrep, Hrows, !map_app. cbn [List.map].
  unfold lineage_of. rewrite Hid, Huid, Hcode, Href, H1, H2, H3.
  do 7 (split; [reflexivity |]).
  intros i Hi.
  apply get_user_by_id_Some in Hget as [_ Hdb].
  unfold get_user_by_id. cbn [users with_users]. rewrite Hrows.
  clear -Hi Hid Hdb. induction pre as [|v pre IH]; simpl.
  - rewrite Hid, Hdb. destruct (Z.eqb_spec user_id i); [congruence | done].
  - destruct (User.id v =? i); [done | exact IH].
Qed.

Lemma update_user_by_admin_frame_witness :
  referral_earnings (fst (update_user_by_admin db_paid_once 2 promote_to_admin))
  = referral_earnings db_paid_once.
Proof.
  destruct (update_user_by_admin db_paid_once 2 promote_to_admin)
    as [db' r] eqn:E.
  exact (proj1 (update_user_by_admin_frame _ _ _ _ _ E)).
Defined.

(** X5.  An admin cannot give a user an e-mail address that another user
    holds: the update raises [IntegrityError] and the store is left as it
    was. *)
Theorem update_user_by_admin_email_taken db user_id db_user other e role :
  get_user_by_id db user_id = Some db_user →
  In other (users db) → User.id other ≠ user_id → User.email other = e →
  User.email db_user ≠ e →
  update_user_by_admin db user_id (AdminUserUpdate.mk (Some (Some e)) role)
  = (db, inl IntegrityError).
Proof.
  intros Hget Hin Hoid He Hne. unfold update_user_by_admin. rewrite Hget.
  cbn [AdminUserUpdate.email AdminUserUpdate.role opt_str_same].
  destruct (String.eqb_spec e (User.email db_user)) as [-> | _]; [done |].
  cbn [negb].
  match goal with |- context [if ?c then (db, inl IntegrityError) else _] =>
    destruct c end; [done |].
  assert (Hothers : existsb (fun v => String.eqb (User.email v) e)
                      (other_users user_id (users db)) = true).
  { apply existsb_exists. exists other. split; [| by apply String.eqb_eq].
    clear -Hin Hoid. induction (users db) as [|v rows IH]; simpl; [done |].
    destruct (Z.eqb_spec (User.id v) user_id) as [Hv | Hv].
    - destruct Hin as [-> | Hin]; [done | exact Hin].
    - destruct Hin as [-> | Hin]; [by left | right; by apply IH]. }
  cbv zeta. by rewrite Hothers.
Qed.

Lemma update_user_by_admin_email_taken_witness :
  update_user_by_admin db_chain4 2
    (AdminUserUpdate.mk (Some (Some "u3@example.org"%string)) None)
  = (db_chain4, inl IntegrityError).
Proof.
  destruct (get_user_by_id db_chain4 2) as [u2|] eqn:H2;
    [| vm_compute in H2; discriminate H2].
  destruct (get_user_by_id db_chain4 3) as [u3|] eqn:H3;
    [| vm_compute in H3; discriminate H3].
  apply (update_user_by_admin_email_taken db_chain4 2 u2 u3 "u3@example.org" None).
  - exact H2.
  - by apply get_user_by_id_Some in H3 as [? _].
  - apply get_user_by_id_Some in H3 as [_ ->]. lia.
  - vm_compute in H3. by injection H3 as <-.
  - vm_compute in H2. injection H2 as <-. discriminate.
Defined.

(** X6.  In a store that satisfies the full invariant, giving an existing
    user an e-mail address nobody holds, of at most 255 characters, and a
    role of at most 50 characters succeeds: the returned row carries the
    new e-mail and role, and the user is afterwards found under the same
    id and under the new address. *)
Theorem update_user_by_admin_applies db user_id db_user e role :
  db_wf db →
  get_user_by_id db user_id = Some db_user →
  get_user_by_email db e = None →
  (String.length e <= 255)%nat →
  (String.length role <= 50)%nat →
  ∃ db' u',
    update_user_by_admin db user_id
      (AdminUserUpdate.mk (Some (Some e)) (Some (Some role)))
    = (db', inr (Some u'))
    ∧ User.email u' = e ∧ User.role u' = role
    ∧ get_user_by_id db' user_id = Some u'
    ∧ get_user_by_email db' e = Some u'
    ∧ get_user_by_email db' (User.email db_user) = None.
Proof.
  intros Hwf Hget Hfree Helen Hrlen.
  assert (He255 : varchar_okb 255 e = true) by (by apply Nat.leb_le).
  assert (Hr50 : varchar_okb 50 role = true) by (by apply Nat.leb_le).
  assert (Hnone : ∀ rows, (∀ v, In v rows → In v (users db)) →
            existsb (fun v => String.eqb (User.email v) e) rows = false).
  { intros rows Hsub. destruct (existsb _ rows) eqn:Ex; [| done].
    apply existsb_exists in Ex as (v & Hv & Hve).
    unfold get_user_by_email in Hfree.
    eapply find_none in Hfree; [| exact (Hsub _ Hv)]. simpl in Hfree.
    congruence. }
  destruct (get_user_by_id_split db user_id db_user db_user Hget)
    as (pre & post & Hrows & _ & Hothers & Hpre).
  assert (Hne : String.eqb e (User.email db_user) = false).
  { destruct (String.eqb_spec e (User.email db_user)) as [-> | _]; [| done].
    apply get_user_by_id_Some in Hget as [Hin _].
    unfold get_user_by_email in Hfree.
    eapply find_none in Hfree; [| exact Hin]. simpl in Hfree.
    by rewrite String.eqb_refl in Hfree. }
  unfold update_user_by_admin. rewrite Hget.
  cbn [AdminUserUpdate.email AdminUserUpdate.role opt_str_same].
  rewrite Hne, Hfree. cbn [negb andb orb].
  rewrite Hnone.
  2: { intros v Hv. rewrite Hothers in Hv. rewrite Hrows.
       apply in_app_iff in Hv as [Hv | Hv]; apply in_app_iff;
         [by left | right; by right]. }
  rewrite He255, Hr50. cbn [negb orb]. rewrite andb_false_r.
  eexists _, _. split; [reflexivity |].
  cbn [User.email User.role].
  split; [done |]. split; [done |].
  set (u' := User.mk _ _ _ _ _ _ _ _ _ _ _ _).
  destruct (get_user_by_id_split db user_id db_user u' Hget)
    as (pre' & post' & Hrows' & Hrep & _ & Hpre').
  assert (Hnone_pre : ∀ (f : User.t → bool) l,
            Forall (fun v => f v = false) l → ∀ x rest,
            f x = true → List.find f (l ++ x :: rest) = Some x).
  { intros f l Hl x rest Hx. induction Hl as [|v l Hv _ IH]; simpl.
    - by rewrite Hx.
    - by rewrite Hv. }
  split; [| split].
  - unfold get_user_by_id. cbn [users with_users]. rewrite Hrep.
    apply Hnone_pre.
    + eapply Forall_impl; [exact Hpre' |]. simpl. intros v Hv.
      by apply Z.eqb_neq.
    + apply get_user_by_id_Some in Hget as [_ Hid]. subst u'. simpl. lia.
  - unfold get_user_by_email. cbn [users with_users]. rewrite Hrep.
    apply Hnone_pre.
    + apply Forall_forall. intros v Hv.
      destruct (String.eqb (User.email v) e) eqn:Ev; [| done].
      unfold get_user_by_email in Hfree.
      eapply find_none in Hfree.
      2: { rewrite Hrows'. apply in_app_iff. left.
           apply list_elem_of_In. exact Hv. }
      simpl in Hfree. congruence.
    + subst u'. simpl. apply String.eqb_refl.
  - apply db_wf_inv in Hwf as (_ & _ & _ & Huniq & _).
    apply users_unique_iff in Huniq as (_ & Hu2 & _).
    unfold get_user_by_email. cbn [users with_users]. rewrite Hrep.
    destruct (List.find _ (pre' ++ u' :: post')) as [w|] eqn:Hw; [| done].
    exfalso. apply find_some in Hw as [Hw Hwe]. apply String.eqb_eq in Hwe.
    rewrite Hrows', map_app in Hu2. simpl in Hu2.
    apply NoDup_app in Hu2 as (_ & Hdisj & Hpost).
    apply NoDup_cons in Hpost as [Hx _].
    apply in_app_iff in Hw as [Hw | [<- | Hw]].
    + apply (Hdisj (User.email db_user)).
      * rewrite <- Hwe. by apply list_elem_of_In, in_map.
      * by left.
    + subst u'. simpl in Hwe. subst e. by rewrite String.eqb_refl in Hne.
    + apply Hx. rewrite <- Hwe. by apply list_elem_of_In, in_map.
Qed.

Lemma update_user_by_admin_applies_witness :
  ∃ db' u',
    update_user_by_admin db_chain4 2
      (AdminUserUpdate.mk (Some (Some "new@example.org"%string))
         (Some (Some "Admin"%string)))
    = (db', inr (Some u'))
    ∧ get_user_by_email db' "new@example.org" = Some u'
    ∧ get_user_by_email db' "u2@example.org" = None.
Proof.
  destruct (get_user_by_id db_chain4 2) as [u2|] eqn:H2;
    [| vm_compute in H2; discriminate H2].
  destruct (update_user_by_admin_applies db_chain4 2 u2 "new@example.org" "Admin")
    as (db' & u' & Hupd & _ & _ & _ & He & Hold);
    [ vm_compute; reflexivity | exact H2 | vm_compute; reflexivity
    | simpl; lia | simpl; lia | ].
  exists db', u'. split; [exact Hupd |]. split; [exact He |].
  vm_compute in H2. injection H2 as <-. exact Hold.
Defined.

(** A role of 51 characters does not fit [String(50)]: the update is
    refused with a [DataError] and the store is left as it was. *)
Example update_user_by_admin_role_too_long :
  update_user_by_admin db_chain4 2
    (AdminUserUpdate.mk None
       (Some (Some "012345678901234567890123456789012345678901234567890"%string)))
  = (db_chain4, inl DataError).
Proof. vm_compute. reflexivity. Qed.

(** * Registration and login *)

(** The row a successful [create_user] writes. *)
Lemma create_user_row db user_data db' u :
  create_user db user_data = (db', Some u) →
  get_user_by_firebase_uid db (UserCreateInternal.firebase_uid user_data) = None
  ∧ get_user_by_email db (UserCreateInternal.email user_data) = None
  ∧ User.firebase_uid u = UserCreateInternal.firebase_uid user_data
  ∧ User.email u = UserCreateInternal.email user_data
  ∧ User.referral_code u = UserCreateInternal.referral_code user_data
  ∧ User.stripe_customer_id u = None
  ∧ User.created_at u = now db.
Proof.
  unfold create_user.
  destruct (get_user_by_firebase_uid _ _); [done |].
  destruct (get_user_by_email _ _); [done |].
  destruct (populate_upline _ _) as [[l1 l2] l3].
  match goal with |- context [users_widths_ok ?x] =>
    destruct (users_widths_ok x) end; cbn [negb]; [| done].
  match goal with |- context [users_constraints_ok db ?x] =>
    destruct (users_constraints_ok db x) end; [| done].
  by intros [= _ <-].
Qed.

(** Inversion of a successful registration. *)
Lemma register_Some db token referral_code_used draws db' u :
  register_user_after_firebase db token referral_code_used draws
  = Some (db', Response u) →
  ∃ token_data code referred_by,
    token = Response token_data
    ∧ generate_unique_referral_code db draws = Some code
    ∧ create_user db
        (UserCreateInternal.mk (token_email token_data) (Some "Subscriber"%string)
           (token_firebase_uid token_data) (Some code) referred_by)
      = (db', Some u)
    ∧ match referred_by with
      | None => truthy_str referral_code_used = false
      | Some rid =>
          ∃ used referrer,
            referral_code_used = Some used
            ∧ get_user_by_referral_code db used = Some referrer
            ∧ rid = User.id referrer
      end.
Proof.
  unfold register_user_after_firebase.
  destruct token as [token_data | c d]; [| done].
  destruct (get_user_by_firebase_uid db _) eqn:Huid; [done |].
  destruct (get_user_by_email db _) eqn:Hemail; [done |].
  destruct referral_code_used as [used|].
  - destruct (truthy_str (Some used)) eqn:Ht.
    + destruct (get_user_by_referral_code db used) as [referrer|] eqn:Hr;
        [| done].
      destruct (generate_unique_referral_code db draws) as [code|]; [| done].
      match goal with |- context [create_user db ?x] =>
        destruct (create_user db x) as [db1 [u1|]] eqn:Hc end; [| done].
      intros [= <- <-]. eexists _, _, _. repeat split; try done. simpl. eauto.
    + destruct (generate_unique_referral_code db draws) as [code|]; [| done].
      match goal with |- context [create_user db ?x] =>
        destruct (create_user db x) as [db1 [u1|]] eqn:Hc end; [| done].
      intros [= <- <-]. eexists _, _, _. repeat split; try done.
  - destruct (generate_unique_referral_code db draws) as [code|]; [| done].
    match goal with |- context [create_user db ?x] =>
      destruct (create_user db x) as [db1 [u1|]] eqn:Hc end; [| done].
    intros [= <- <-]. eexists _, _, _. repeat split; try done.
Qed.

(** X7.  After a successful registration the account exists for the
    token: a login with the same token answers with the user that the
    registration returned, and a second registration with the token is
    refused with HTTP 409 and leaves the store as it is. *)
Theorem register_then_login db token_data referral_code_used draws db' u :
  register_user_after_firebase db (Response token_data) referral_code_used draws
  = Some (db', Response u) →
  login_user_with_firebase db' (Response token_data) = Response u
  ∧ ∀ referral_code_used' draws',
      register_user_after_firebase db' (Response token_data)
        referral_code_used' draws'
      = Some (db', HTTPException 409 "User with this Firebase UID already exists.").
Proof.
  intros Hreg.
  apply register_Some in Hreg
    as (td & code & referred_by & [= <-] & _ & Hcreate & _).
  pose proof (create_user_row _ _ _ _ Hcreate) as (Huid & _ & Hu & _).
  apply create_user_Some in Hcreate as (-> & _).
  cbn [UserCreateInternal.firebase_uid] in Huid, Hu.
  assert (Hfound : get_user_by_firebase_uid
                     (with_users (users db ++ [u]) (users_id_seq db + 1) db)
                     (token_firebase_uid token_data) = Some u).
  { unfold get_user_by_firebase_uid in Huid |- *. cbn [users with_users].
    apply find_snoc_new; [exact Huid |]. rewrite Hu. apply String.eqb_refl. }
  split.
  - unfold login_user_with_firebase. by rewrite Hfound.
  - intros code' draws'. unfold register_user_after_firebase. by rewrite Hfound.
Qed.

Lemma register_then_login_witness :
  ∃ db' u,
    register_user_after_firebase db_chain3
      (Response (mkTokenData "uid-9" "u9@example.org"))
      (Some "AAAA0002"%string) ["AAAA0001"; "BBBB0009"]%string
    = Some (db', Response u)
    ∧ login_user_with_firebase db' (Response (mkTokenData "uid-9" "u9@example.org"))
      = Response u.
Proof.
  destruct (register_user_after_firebase db_chain3
              (Response (mkTokenData "uid-9" "u9@example.org"))
              (Some "AAAA0002"%string) ["AAAA0001"; "BBBB0009"]%string)
    as [[db' [u | c d]]|] eqn:E;
    [| vm_compute in E; discriminate E ..].
  exists db', u. split; [reflexivity |].
  exact (proj1 (register_then_login _ _ _ _ _ _ E)).
Defined.

(** A login for a Firebase UID without an account is answered with 404. *)
Example login_unregistered :
  login_user_with_firebase db_chain4 (Response (mkTokenData "uid-9" "u9@example.org"))
  = HTTPException 404
      "User not registered in our system or account is inactive. Please complete registration or contact support.".
Proof. vm_compute. reflexivity. Qed.

(** X8.  In a store that satisfies the full invariant, a registration with
    a fresh Firebase UID and e-mail of at most 255 characters each, the
    referral code of an existing user [R] and at least one unused draw (of
    at most 255 characters) goes through: the new user is appended with the
    first unused draw as referral code, [R] as referrer and the lineage
    [(R.id, R.upline_l1_id, R.upline_l2_id)]. *)
Theorem register_with_referral_code db token_data used R draws code :
  db_wf db →
  get_user_by_firebase_uid db (token_firebase_uid token_data) = None →
  get_user_by_email db (token_email token_data) = None →
  (String.length (token_firebase_uid token_data) <= 255)%nat →
  (String.length (token_email token_data) <= 255)%nat →
  (String.length code <= 255)%nat →
  truthy_str (Some used) = true →
  get_user_by_referral_code db used = Some R →
  generate_unique_referral_code db draws = Some code →
  ∃ u,
    register_user_after_firebase db (Response token_data) (Some used) draws
    = Some (with_users (users db ++ [u]) (users_id_seq db + 1) db, Response u)
    ∧ User.id u = users_id_seq db
    ∧ User.referral_code u = Some code
    ∧ User.referred_by_id u = Some (User.id R)
    ∧ User.upline_l1_id u = Some (User.id R)
    ∧ User.upline_l2_id u = User.upline_l1_id R
    ∧ User.upline_l3_id u = User.upline_l2_id R.
Proof.
  intros Hwf Huid Hemail Huidlen Hemaillen Hcodelen Htruthy HR Hgen.
  pose proof Hwf as Hwf'.
  apply db_wf_inv in Hwf' as (Hok & Hkeys & _ & _ & _).
  apply users_keys_ok_inv in Hkeys as [_ Hids].
  assert (HRin : In R (users db)).
  { unfold get_user_by_referral_code in HR. by apply find_some in HR as [? _]. }
  assert (HRid : get_user_by_id db (User.id R) = Some R).
  { unfold get_user_by_id.
    exact (find_unique User.id Z.eqb _ _ Z_eqb_iff Hids HRin). }
  assert (Hfresh : get_user_by_referral_code db code = None).
  { clear -Hgen. induction draws as [|d draws IH]; simpl in Hgen; [done |].
    destruct (get_user_by_referral_code db d) eqn:Hd; [by apply IH |].
    by injection Hgen as <-. }
  set (user_data :=
         UserCreateInternal.mk (token_email token_data) (Some "Subscriber"%string)
           (token_firebase_uid token_data) (Some code) (Some (User.id R))).
  assert (Hfit : user_data_widths_ok user_data = true).
  { unfold user_data_widths_ok, varchar_okb. subst user_data.
    cbn [UserCreateInternal.firebase_uid UserCreateInternal.email
         UserCreateInternal.role UserCreateInternal.referral_code].
    apply Nat.leb_le in Huidlen, Hemaillen, Hcodelen.
    by rewrite Huidlen, Hemaillen, Hcodelen. }
  destruct (create_user_runs db user_data Hok Hfit) as (u & Hcreate); try done.
  { by intros c [= <-]. }
  { intros rid [= <-]. eauto. }
  exists u. split.
  - unfold register_user_after_firebase.
    rewrite Huid, Hemail, Htruthy, HR, Hgen. fold user_data. by rewrite Hcreate.
  - pose proof (create_user_row _ _ _ _ Hcreate) as (_ & _ & _ & _ & Hcode & _).
    pose proof (create_user_Some _ _ _ _ Hcreate) as (_ & Hid & Href & Hup & _).
    rewrite populate_upline_buildLineage in Hup by done.
    unfold buildLineage in Hup. cbn [UserCreateInternal.referred_by_id user_data] in Hup.
    rewrite HRid in Hup. injection Hup as -> -> ->.
    repeat split; done.
Qed.

Lemma register_with_referral_code_witness :
  ∃ u,
    register_user_after_firebase db_chain3
      (Response (mkTokenData "uid-9" "u9@example.org"))
      (Some "AAAA0003"%string) ["AAAA0001"; "BBBB0009"]%string
    = Some (with_users (users db_chain3 ++ [u]) 5 db_chain3, Response u)
    ∧ User.referral_code u = Some "BBBB0009"%string
    ∧ (User.upline_l1_id u, User.upline_l2_id u, User.upline_l3_id u)
      = (Some 3, Some 2, Some 1).
Proof.
  destruct (get_user_by_referral_code db_chain3 "AAAA0003") as [R|] eqn:HR;
    [| vm_compute in HR; discriminate HR].
  destruct (register_with_referral_code db_chain3
              (mkTokenData "uid-9" "u9@example.org") "AAAA0003" R
              ["AAAA0001"; "BBBB0009"]%string "BBBB0009")
    as (u & Hreg & _ & Hcode & _ & H1 & H2 & H3);
    [vm_compute; reflexivity | vm_compute; reflexivity | vm_compute; reflexivity
    | simpl; lia | simpl; lia | simpl; lia
    | reflexivity | exact HR | vm_compute; reflexivity |].
  exists u. split; [exact Hreg |]. split; [exact Hcode |].
  rewrite H1, H2, H3. vm_compute in HR. by injection HR as <-.
Defined.

(** X9.  [generate_unique_referral_code] returns the first draw that no
    user holds as referral code, having passed over draws that are all in
    use; it runs out of draws only when every draw is in use. *)
Theorem generate_unique_referral_code_first_unused db draws :
  match generate_unique_referral_code db draws with
  | Some code =>
      get_user_by_referral_code db code = None
      ∧ ∃ passed rest,
          draws = passed ++ code :: rest
          ∧ Forall (fun d => is_Some (get_user_by_referral_code db d)) passed
  | None => Forall (fun d => is_Some (get_user_by_referral_code db d)) draws
  end.
Proof.
  induction draws as [|d draws IH]; simpl; [constructor |].
  destruct (get_user_by_referral_code db d) as [holder|] eqn:Hd.
  - destruct (generate_unique_referral_code db draws) as [code|].
    + destruct IH as (Hfree & passed & rest & -> & Hpassed).
      split; [done |]. exists (d :: passed), rest. split; [done |].
      constructor; [by rewrite Hd | done].
    + constructor; [by rewrite Hd | done].
  - split; [done |]. exists [], draws. split; [done | constructor].
Qed.

(** * Earnings: inserts and lookups *)

(** X10.  In a store whose earnings keys are in order, a successful
    [create_referral_earning] can be read back: the returned row is the one
    found under its id, and every earning that could be found before is
    still found, unchanged. *)
Theorem create_referral_earning_lookup earning_in db db' e :
  earnings_keys_okb db = true →
  create_referral_earning earning_in db = (db', inr e) →
  get_referral_earning_by_id db' (ReferralEarning.id e) = Some e
  ∧ ∀ i e0, get_referral_earning_by_id db i = Some e0 →
            get_referral_earning_by_id db' i = Some e0.
Proof.
  intros Hk Hins.
  apply create_referral_earning_inr in Hins as (-> & _ & Hid & _).
  apply earnings_keys_ok_inv in Hk as [Hlt _].
  unfold get_referral_earning_by_id. cbn [referral_earnings with_earnings].
  split.
  - apply find_snoc_new; [| lia].
    destruct (List.find _ (referral_earnings db)) as [x|] eqn:Hx; [| done].
    apply find_some in Hx as [Hin Hx]. rewrite Forall_forall in Hlt.
    apply list_elem_of_In, Hlt in Hin. lia.
  - intros i e0. apply find_app_Some.
Qed.

Lemma create_referral_earning_lookup_witness :
  ∃ db' e,
    create_referral_earning
      (ReferralEarningCreate.mk 3 4 7 (Decimal.cents 1234) (Decimal.mk 10 (-2)) 1
         PENDING None) db_paid_once
    = (db', inr e)
    ∧ ReferralEarning.id e = 4
    ∧ get_referral_earning_by_id db' 4 = Some e.
Proof.
  destruct (create_referral_earning
              (ReferralEarningCreate.mk 3 4 7 (Decimal.cents 1234)
                 (Decimal.mk 10 (-2)) 1 PENDING None) db_paid_once)
    as [db' [err|e]] eqn:E; [vm_compute in E; discriminate E |].
  exists db', e. split; [reflexivity |].
  assert (Hid : ReferralEarning.id e = 4)
    by (vm_compute in E; by injection E as _ <-).
  split; [exact Hid |]. rewrite <- Hid.
  refine (proj1 (create_referral_earning_lookup _ db_paid_once db' e _ E)).
  vm_compute. reflexivity.
Defined.

(** * Commission runs that fail half-way *)

Lemma commission_loop_prefix paying_user db_payment todo :
  ∀ db db' r,
    Forall (fun '(upline, _, _) =>
              ∀ uid, upline = Some uid → truthy_int (Some uid) = true) todo →
    commission_loop paying_user db_payment todo db = (db', r) →
    ∃ new,
      referral_earnings db' = referral_earnings db ++ new
      ∧ List.map earner_level new
        `prefix_of` List.map (fun '(earner, _, level) => (earner, level)) (owed todo)
      ∧ (r = inr tt →
         List.map earner_level new
         = List.map (fun '(earner, _, level) => (earner, level)) (owed todo)).
Proof.
  induction todo as [|[[upline rate] level] todo IH]; intros db db' r Hall.
  - simpl. intros [= <- <-]. exists []. by rewrite app_nil_r.
  - inversion Hall as [|? ? Hentry Hrest]; subst.
    destruct upline as [uid|]; [| cbn [commission_loop]; by apply IH].
    cbn [commission_loop]. rewrite (Hentry uid eq_refl). unfold bind.
    change (owed ((Some uid, rate, level) :: todo))
      with ((uid, rate, level) :: owed todo).
    destruct (create_referral_earning _ db) as [db1 [err|e]] eqn:Ec.
    + intros [= <- <-]. apply create_referral_earning_inl in Ec as ->.
      exists []. rewrite app_nil_r. split; [done |].
      split; [apply prefix_nil | done].
    + intros H. apply IH in H as (new & Hrows & Hpre & Heq); [| done].
      apply create_referral_earning_inr in Ec
        as (-> & _ & _ & Hu & _ & _ & Hl & _).
      cbn [referral_earnings with_earnings] in Hrows.
      exists (e :: new). rewrite Hrows, <- app_assoc. split; [done |].
      cbn [List.map]. unfold earner_level at 1 3. rewrite Hu, Hl.
      cbn [ReferralEarningCreate.user_id ReferralEarningCreate.referral_level].
      split; [by apply prefix_cons | intros Hr; by rewrite Heq].
Qed.

(** X11.  The commission block is append-only and keeps what it has
    committed.  On a store that satisfies the invariant, whatever the
    outcome, the earnings present before are untouched and the rows added
    are, in level order, an initial part of the rows owed for the payer's
    non-null uplines; when the block returns normally they are all of
    them.  An insert that raises ends the loop: the rows of the earlier
    levels stay, the later levels are not attempted. *)
Theorem commissions_partial_failure rates db user_id_for_payment payment
    paying_user db' outcome :
  db_ok db →
  get_user_by_id db user_id_for_payment = Some paying_user →
  webhook_stripe_commissions rates user_id_for_payment (Some payment) db
  = (db', outcome) →
  ∃ new,
    referral_earnings db' = referral_earnings db ++ new
    ∧ users db' = users db
    ∧ List.map earner_level new `prefix_of` owed_levels paying_user
    ∧ (outcome = inr tt → List.map earner_level new = owed_levels paying_user).
Proof.
  intros Hok Hu Hrun.
  pose proof (webhook_stripe_commissions_users rates user_id_for_payment
                (Some payment) db) as (Husers & _).
  rewrite Hrun in Husers. simpl in Husers.
  unfold webhook_stripe_commissions in Hrun. rewrite Hu in Hrun.
  apply commission_loop_prefix in Hrun as (new & Hrows & Hpre & Heq).
  - exists new. split; [done |]. split; [done |].
    assert (Hlev : List.map (fun '(earner, _, level) => (earner, level))
                     (owed (upline_users_and_rates rates paying_user))
                   = owed_levels paying_user).
    { unfold owed, owed_levels, upline_users_and_rates.
      destruct (User.upline_l1_id paying_user), (User.upline_l2_id paying_user),
        (User.upline_l3_id paying_user); reflexivity. }
    by rewrite Hlev in Hpre, Heq.
  - apply get_user_by_id_Some in Hu as [Hin _].
    pose proof (db_ok_user _ _ Hok Hin) as Hok'. unfold user_okb in Hok'.
    apply andb_prop in Hok' as [Hok' _].
    apply andb_prop in Hok' as [Hok' H3]. apply andb_prop in Hok' as [Hok' H2].
    apply andb_prop in Hok' as [_ H1].
    unfold upline_users_and_rates.
    repeat constructor; intros uid Hp.
    + rewrite Hp in H1. by eapply fk_truthy.
    + rewrite Hp in H2. by eapply fk_truthy.
    + rewrite Hp in H3. by eapply fk_truthy.
Qed.

Lemma commissions_partial_failure_witness :
  ∃ db' e,
    webhook_stripe_commissions rates_l2_too_large 4 (Some payment_100) db_chain4
    = (db', inl DataError)
    ∧ referral_earnings db' = [e]
    ∧ earner_level e = (3, 1).
Proof.
  destruct (get_user_by_id db_chain4 4) as [payer|] eqn:Hu;
    [| vm_compute in Hu; discriminate Hu].
  destruct (webhook_stripe_commissions rates_l2_too_large 4 (Some payment_100)
              db_chain4) as [db' outcome] eqn:E.
  destruct (commissions_partial_failure rates_l2_too_large db_chain4 4
              payment_100 payer db' outcome)
    as (new & Hrows & _ & _ & _); [vm_compute; reflexivity | exact Hu | exact E |].
  vm_compute in E. injection E as <- <-.
  eexists _, _. split; [reflexivity |]. vm_compute. split; reflexivity.
Defined.

(** * Commissions never exceed the payment *)

Lemma round_half_away_nonneg n d m :
  0 < d → 0 <= n → n <= m * d → 0 <= round_half_away n d <= m.
Proof.
  intros Hd Hn Hm.
  pose proof (round_half_away_bound n d m Hd ltac:(lia)) as Hb.
  assert (0 <= round_half_away n d); [| lia].
  unfold round_half_away. rewrite Z.abs_eq by lia.
  pose proof (Z.div_pos n d Hn Hd).
  destruct (Z.sgn_spec n) as [[_ ->] | [[_ ->] | [? _]]]; [| lia | lia].
  destruct (2 * (n mod d) <? d); lia.
Qed.

Lemma commission_for_bounds amount rate :
  is_numeric 10 2 amount → rate_okb rate = true → 0 <= Decimal.coef amount →
  0 <= Decimal.coef (commission_for amount rate) <= Decimal.coef amount.
Proof.
  intros Ha Hr Hpos.
  apply rate_ok_inv in Hr as (He & [Hc0 Hc1] & _).
  unfold is_numeric, numeric_okb in Ha. apply andb_prop in Ha as [Hexp _].
  apply Z.eqb_eq in Hexp.
  unfold commission_for, to_scale, exact_product. cbn [Decimal.coef Decimal.exp].
  replace (Decimal.exp amount + Decimal.exp rate + 2) with (Decimal.exp rate) by lia.
  assert (Hpow : 0 < 10 ^ (- Decimal.exp rate)) by (apply Z.pow_pos_nonneg; lia).
  destruct (Z.leb_spec 0 (Decimal.exp rate)) as [Hz | Hneg].
  - assert (Decimal.exp rate = 0) as Hr0 by lia. rewrite Hr0 in *. simpl in Hc1.
    change (10 ^ 0) with 1. nia.
  - apply round_half_away_nonneg; [done | nia | nia].
Qed.

(** X12.  For a payment of a non-negative [DECIMAL(10, 2)] amount and
    rates between 0 and 1, every earning the commission block inserts,
    whatever the outcome of the block, carries an amount between 0 and the
    amount paid. *)
Theorem commission_within_payment rates db user_id_for_payment payment
    paying_user db' outcome :
  get_user_by_id db user_id_for_payment = Some paying_user →
  is_numeric 10 2 (Payment.amount payment) →
  0 <= Decimal.coef (Payment.amount payment) →
  rates_okb rates = true →
  webhook_stripe_commissions rates user_id_for_payment (Some payment) db
  = (db', outcome) →
  ∃ new,
    referral_earnings db' = referral_earnings db ++ new
    ∧ Forall (fun e =>
                Decimal.exp (ReferralEarning.commission_amount e) = -2
                ∧ 0 <= Decimal.coef (ReferralEarning.commission_amount e)
                  <= Decimal.coef (Payment.amount payment)) new.
Proof.
  intros Hu Hamount Hpos Hrates Hrun.
  apply webhook_stripe_commissions_appends in Hrun as (new & -> & Hall).
  exists new. split; [reflexivity |].
  specialize (Hall _ _ Hu eq_refl).
  eapply Forall_impl; [exact Hall |].
  intros e (_ & _ & _ & _ & rate & Hin & Hcol).
  assert (Hrate : rate_okb rate = true).
  { unfold rates_okb in Hrates. apply andb_prop in Hrates as [Hr H3].
    apply andb_prop in Hr as [H1 H2].
    unfold upline_users_and_rates in Hin. simpl in Hin.
    destruct Hin as [H | [H | [H | []]]]; by injection H as _ <- _. }
  rewrite commission_amount_fits in Hcol by done. injection Hcol as <-.
  split; [reflexivity |]. by apply commission_for_bounds.
Qed.

Lemma commission_within_payment_witness :
  Forall (fun e => 0 <= Decimal.coef (ReferralEarning.commission_amount e) <= 10000)
    (referral_earnings db_paid_once).
Proof.
  destruct (get_user_by_id db_chain4 4) as [payer|] eqn:Hu;
    [| vm_compute in Hu; discriminate Hu].
  destruct (commission_within_payment default_rates db_chain4 4 payment_100 payer
              db_paid_once
              (snd (webhook_stripe_commissions default_rates 4 (Some payment_100)
                      db_chain4)))
    as (new & Hrows & Hall);
    [exact Hu | vm_compute; reflexivity | vm_compute; discriminate
    | vm_compute; reflexivity
    | unfold db_paid_once; by destruct (webhook_stripe_commissions _ _ _ _) |].
  rewrite Hrows. change (referral_earnings db_chain4) with (@nil ReferralEarning.t).
  simpl. eapply Forall_impl; [exact Hall |]. intros e [_ He]. exact He.
Defined.

(** * Statistics after a commission run and after a status update *)

Lemma total_cents_app rows rows' :
  total_cents (rows ++ rows') = total_cents rows + total_cents rows'.
Proof.
  unfold total_cents. induction rows as [|e rows IH]; simpl; [done |].
  rewrite IH. lia.
Qed.

(** The new rows of one earner, by status. *)
Lemma earnings_of_app db new seq user_id s :
  earnings_of (with_earnings (referral_earnings db ++ new) seq db) user_id s
  = earnings_of db user_id s
    ++ List.filter (fun e => (ReferralEarning.user_id e =? user_id)
                             && status_eqb (ReferralEarning.status e) s) new.
Proof. unfold earnings_of. cbn [referral_earnings with_earnings]. apply List.filter_app. Qed.

(** X13.  A commission run that returns normally raises the pending total
    of each user by exactly the amounts of the new earnings credited to
    that user, and leaves every approved and paid total as it was. *)
Theorem stats_after_commissions rates db user_id_for_payment payment paying_user
    user_id :
  db_ok db →
  get_user_by_id db user_id_for_payment = Some paying_user →
  is_numeric 10 2 (Payment.amount payment) →
  rates_okb rates = true →
  ∃ db' new,
    webhook_stripe_commissions rates user_id_for_payment (Some payment) db
    = (db', inr tt)
    ∧ referral_earnings db' = referral_earnings db ++ new
    ∧ pending_commission_total (get_referral_stats_for_user db' user_id)
      = Decimal.cents
          (total_cents (earnings_of db user_id PENDING)
           + total_cents
               (List.filter (fun e => ReferralEarning.user_id e =? user_id) new))
    ∧ approved_commission_total (get_referral_stats_for_user db' user_id)
      = approved_commission_total (get_referral_stats_for_user db user_id)
    ∧ paid_commission_total (get_referral_stats_for_user db' user_id)
      = paid_commission_total (get_referral_stats_for_user db user_id).
Proof.
  intros Hok Hu Hamount Hrates.
  pose proof (webhook_stripe_commissions_runs _ _ _ _ _ Hok Hu Hamount Hrates)
    as Hrun.
  pose proof (webhook_stripe_commissions_db_ok rates user_id_for_payment
                (Some payment) db Hok) as Hok'.
  rewrite Hrun in Hok'. cbn [fst] in Hok'.
  set (entries := owed (upline_users_and_rates rates paying_user)) in *.
  set (new := commission_rows (referral_earnings_id_seq db) (now db)
                paying_user payment entries) in *.
  eexists _, new. split; [exact Hrun |]. split; [reflexivity |].
  pose proof (commission_rows_spec (referral_earnings_id_seq db) (now db)
                paying_user payment entries) as Hspec. fold new in Hspec.
  assert (Hpend : ∀ s,
            List.filter (fun e => (ReferralEarning.user_id e =? user_id)
                                  && status_eqb (ReferralEarning.status e) s) new
            = if status_eqb PENDING s
              then List.filter (fun e => ReferralEarning.user_id e =? user_id) new
              else []).
  { intros s. clear -Hspec. induction Hspec as [|e l (Hs & _) _ IH].
    - by destruct s.
    - cbn [List.filter]. rewrite Hs, IH. destruct s; cbn [status_eqb].
      all: try (rewrite andb_false_r; reflexivity).
      rewrite andb_true_r. reflexivity. }
  unfold get_referral_stats_for_user.
  cbn [pending_commission_total approved_commission_total paid_commission_total].
  rewrite !commission_sum_total by done.
  rewrite !earnings_of_app, !Hpend. cbn [status_eqb].
  rewrite !app_nil_r, total_cents_app.
  split; [| split; reflexivity].
  f_equal.
Qed.

Lemma stats_after_commissions_witness :
  pending_commission_total (get_referral_stats_for_user db_paid_once 3)
  = Decimal.cents 1000.
Proof.
  destruct (get_user_by_id db_chain4 4) as [payer|] eqn:Hu;
    [| vm_compute in Hu; discriminate Hu].
  destruct (stats_after_commissions default_rates db_chain4 4 payment_100 payer 3)
    as (db' & new & Hrun & Hrows & Hp & _);
    [vm_compute; reflexivity | exact Hu | vm_compute; reflexivity
    | vm_compute; reflexivity |].
  unfold db_paid_once. rewrite Hrun. cbn [fst]. rewrite Hp.
  vm_compute in Hrun. injection Hrun as <-.
  vm_compute in Hrows. subst new. reflexivity.
Defined.

Lemma total_cents_filter_one (f : ReferralEarning.t → bool) e :
  total_cents (List.filter f [e])
  = if f e then Decimal.coef (ReferralEarning.commission_amount e) else 0.
Proof. unfold total_cents. simpl. destruct (f e); simpl; lia. Qed.

(** X14.  A status update moves the amount of the earning between the
    totals of its earner: for every user and status, the total afterwards
    is the total before, less the amount if the earning counted towards it
    before, plus the amount if it counts towards it now.  The totals of
    every other user, and of the statuses not involved, stay the same. *)
Theorem stats_after_status_update db earning_id e new_status notes user_id s :
  db_ok db →
  get_referral_earning_by_id db earning_id = Some e →
  let db' := fst (update_referral_earning_status db earning_id new_status notes) in
  let amount := Decimal.coef (ReferralEarning.commission_amount e) in
  let mine := ReferralEarning.user_id e =? user_id in
  commission_sum db' user_id s
  = Decimal.cents
      (total_cents (earnings_of db user_id s)
       - (if mine && status_eqb (ReferralEarning.status e) s then amount else 0)
       + (if mine && status_eqb new_status s then amount else 0)).
Proof.
  intros Hok He. cbv zeta.
  pose proof (update_referral_earning_status_db_ok db earning_id new_status
                notes Hok) as Hok'.
  destruct (update_referral_earning_status_Some _ _ new_status notes _ He)
    as (notes' & ts & Hupd & _).
  rewrite Hupd in Hok' |- *. cbn [fst] in *.
  rewrite commission_sum_total by done. f_equal.
  set (e' := ReferralEarning.set_updated_at ts
               (ReferralEarning.set_notes notes'
                  (ReferralEarning.set_status new_status e))).
  destruct (get_referral_earning_by_id_split db earning_id e e' He)
    as (pre & post & Hrows & Hrep & _).
  unfold earnings_of. cbn [referral_earnings with_earnings].
  rewrite Hrep, Hrows.
  change (pre ++ e' :: post) with (pre ++ [e'] ++ post).
  change (pre ++ e :: post) with (pre ++ [e] ++ post).
  rewrite !List.filter_app, !total_cents_app, !total_cents_filter_one.
  subst e'. cbn [ReferralEarning.user_id ReferralEarning.status
    ReferralEarning.commission_amount ReferralEarning.set_updated_at
    ReferralEarning.set_notes ReferralEarning.set_status].
  lia.
Qed.

Lemma stats_after_status_update_witness :
  commission_sum db_paid_once 3 PENDING = Decimal.cents 1000
  ∧ commission_sum (fst (update_referral_earning_status db_paid_once 1 APPROVED None))
      3 PENDING = Decimal.cents 0
  ∧ commission_sum (fst (update_referral_earning_status db_paid_once 1 APPROVED None))
      3 APPROVED = Decimal.cents 1000.
Proof.
  split; [vm_compute; reflexivity |].
  destruct (get_referral_earning_by_id db_paid_once 1) as [e|] eqn:He;
    [| vm_compute in He; discriminate He].
  pose proof (stats_after_status_update db_paid_once 1 e APPROVED None 3 PENDING)
    as Hp.
  pose proof (stats_after_status_update db_paid_once 1 e APPROVED None 3 APPROVED)
    as Ha.
  cbv zeta in Hp, Ha.
  rewrite Hp, Ha; [| vm_compute; reflexivity | exact He
                   | vm_compute; reflexivity | exact He].
  vm_compute in He. injection He as <-. vm_compute. split; reflexivity.
Defined.

(** * Repeated status updates *)

Lemma status_eqb_refl s : status_eqb s s = true.
Proof. by destruct s. Qed.

Lemma opt_str_same_refl o : opt_str_same o o = true.
Proof. destruct o; simpl; [apply String.eqb_refl | done]. Qed.

Lemma replace_earning_same i e rows :
  List.find (fun x => ReferralEarning.id x =? i) rows = Some e →
  replace_earning i e rows = rows.
Proof.
  induction rows as [|x rows IH]; simpl; [done |].
  destruct (ReferralEarning.id x =? i).
  - by intros [= ->].
  - intros H. by rewrite IH.
Qed.

(** X15.  Repeating a status update changes nothing: after an update of an
    existing earning, the same request, at whatever later time, returns
    the same row and leaves the table, [updated_at] included, as the first
    update left it. *)
Theorem update_status_repeat db earning_id e new_status notes t :
  get_referral_earning_by_id db earning_id = Some e →
  let first := update_referral_earning_status db earning_id new_status notes in
  update_referral_earning_status (advance_clock t (fst first)) earning_id
    new_status notes
  = (advance_clock t (fst first), snd first).
Proof.
  intros He. cbv zeta.
  destruct (update_referral_earning_status_Some _ _ new_status notes _ He)
    as (notes' & ts & Hupd & Hnotes).
  rewrite Hupd. cbn [fst snd].
  set (e1 := ReferralEarning.set_updated_at ts
               (ReferralEarning.set_notes notes'
                  (ReferralEarning.set_status new_status e))).
  set (db1 := with_earnings (replace_earning earning_id e1 (referral_earnings db))
                (referral_earnings_id_seq db) db).
  assert (Hid : ReferralEarning.id e1 = earning_id).
  { apply get_referral_earning_by_id_Some in He as [_ Hid]. exact Hid. }
  assert (He1 : get_referral_earning_by_id (advance_clock t db1) earning_id
                = Some e1).
  { unfold get_referral_earning_by_id in He |- *.
    cbn [referral_earnings advance_clock with_earnings db1].
    by eapply find_replace_earning. }
  unfold update_referral_earning_status. rewrite He1.
  assert (Hstep : (match notes with
                   | Some n => ReferralEarning.set_notes (Some n)
                                 (ReferralEarning.set_status new_status e1)
                   | None => ReferralEarning.set_status new_status e1
                   end) = e1).
  { subst e1. destruct notes as [n|]; subst notes'; by destruct e. }
  rewrite Hstep, status_eqb_refl, opt_str_same_refl. cbn [andb negb].
  f_equal. unfold with_earnings, advance_clock.
  cbn [users referral_earnings users_id_seq referral_earnings_id_seq now db1
       with_earnings].
  f_equal. apply replace_earning_same.
  unfold get_referral_earning_by_id in He1.
  by cbn [referral_earnings advance_clock with_earnings db1] in He1.
Qed.

Lemma update_status_repeat_witness :
  update_referral_earning_status
    (advance_clock 99 (fst (update_referral_earning_status db_paid_once 1 APPROVED None)))
    1 APPROVED None
  = (advance_clock 99 (fst (update_referral_earning_status db_paid_once 1 APPROVED None)),
     snd (update_referral_earning_status db_paid_once 1 APPROVED None)).
Proof.
  destruct (get_referral_earning_by_id db_paid_once 1) as [e|] eqn:He;
    [| vm_compute in He; discriminate He].
  exact (update_status_repeat db_paid_once 1 e APPROVED None 99 He).
Defined.

(** * The downline, level by level *)

Lemma empty_levels_lookup max_levels k :
  empty_levels max_levels !! k
  = if (1 <=? k) && (k <=? max_levels) then Some [] else None.
Proof.
  unfold empty_levels.
  destruct ((1 <=? k) && (k <=? max_levels)) eqn:E.
  - apply andb_prop in E as [H1 H2]. apply Z.leb_le in H1, H2.
    apply elem_of_list_to_map_1.
    + rewrite <- list_fmap_compose.
      rewrite (list_fmap_ext _ id (seqZ 1 max_levels)) by done.
      rewrite list_fmap_id. apply NoDup_seqZ.
    + apply list_elem_of_fmap. exists k. split; [done |].
      apply elem_of_seqZ. lia.
  - apply not_elem_of_list_to_map_1. rewrite <- list_fmap_compose.
    intros (x & Hx & Hin)%list_elem_of_fmap. simpl in Hx. subst x.
    apply elem_of_seqZ in Hin.
    apply andb_false_iff in E as [E | E]; apply Z.leb_gt in E; lia.
Qed.

Lemma downline_level_1 db user_id :
  downline_level db user_id 1 = referred_by_any db [user_id].
Proof. reflexivity. Qed.

Lemma downline_level_2 db user_id :
  downline_level db user_id 2
  = referred_by_any db (List.map User.id (downline_level db user_id 1)).
Proof. reflexivity. Qed.

Lemma downline_level_3 db user_id :
  downline_level db user_id 3
  = referred_by_any db (List.map User.id (downline_level db user_id 2)).
Proof. reflexivity. Qed.

Ltac leb_cases :=
  repeat match goal with
         | |- context [?a <=? ?b] => destruct (Z.leb_spec a b)
         | H : context [?a <=? ?b] |- _ => destruct (Z.leb_spec a b)
         end.

(** The dictionary returned for [max_levels] of 1 or more, key by key. *)
Lemma get_downline_users_flat_lookup db user_id max_levels k :
  1 <= max_levels →
  fst (get_downline_users_flat db user_id max_levels) !! k
  = if (1 <=? k) && (k <=? max_levels)
    then Some (if k <=? 3 then downline_level db user_id k else [])
    else None.
Proof.
  intros Hm.
  pose proof (downline_level_1 db user_id) as H1.
  pose proof (downline_level_2 db user_id) as H2.
  pose proof (downline_level_3 db user_id) as H3.
  assert (Hk : k < 1 ∨ k = 1 ∨ k = 2 ∨ k = 3 ∨ 3 < k) by lia.
  unfold get_downline_users_flat. rewrite query_users_eq, <- H1.
  destruct (downline_level db user_id 1) as [|u1 r1] eqn:E1.
  { cbn [List.map] in H2. rewrite referred_by_nobody in H2.
    rewrite H2 in H3. cbn [List.map] in H3. rewrite referred_by_nobody in H3.
    cbn [fst]. rewrite empty_levels_lookup.
    destruct Hk as [Hk | [-> | [-> | [-> | Hk]]]];
      rewrite ?E1, ?H2, ?H3; try reflexivity; leb_cases; try lia; reflexivity. }
  rewrite <- E1 in H2 |- *.
  destruct (Z.leb_spec 2 max_levels) as [Hm2 | Hm2].
  2: { cbn [fst]. rewrite lookup_insert, empty_levels_lookup.
       destruct (decide (1 = k)) as [<- | Hne].
       - leb_cases; try lia; reflexivity.
       - leb_cases; try lia; reflexivity. }
  destruct (List.map User.id (downline_level db user_id 1)) as [|i1 is1] eqn:Eids.
  { rewrite E1 in Eids. discriminate Eids. }
  rewrite <- Eids in H2 |- *.
  rewrite query_users_in, <- H2.
  destruct (downline_level db user_id 2) as [|u2 r2] eqn:E2.
  { cbn [List.map] in H3. rewrite referred_by_nobody in H3.
    cbn [fst]. rewrite lookup_insert, empty_levels_lookup.
    destruct (decide (1 = k)) as [<- | Hne].
    - leb_cases; try lia; reflexivity.
    - destruct Hk as [Hk | [-> | [-> | [-> | Hk]]]];
        rewrite ?E2, ?H3; try done; leb_cases; try lia; reflexivity. }
  rewrite <- E2 in H3 |- *.
  destruct (Z.leb_spec 3 max_levels) as [Hm3 | Hm3].
  2: { cbn [fst]. rewrite !lookup_insert, empty_levels_lookup.
       destruct (decide (2 = k)) as [<- | Hne2];
         [leb_cases; try lia; reflexivity |].
       destruct (decide (1 = k)) as [<- | Hne1];
         [leb_cases; try lia; reflexivity |].
       leb_cases; try lia; reflexivity. }
  destruct (List.map User.id (downline_level db user_id 2)) as [|i2 is2] eqn:Eids2.
  { rewrite E2 in Eids2. discriminate Eids2. }
  rewrite <- Eids2 in H3 |- *.
  rewrite query_users_in, <- H3. cbn [fst].
  rewrite !lookup_insert, empty_levels_lookup.
  destruct (decide (3 = k)) as [<- | Hne3];
    [leb_cases; try lia; reflexivity |].
  destruct (decide (2 = k)) as [<- | Hne2];
    [leb_cases; try lia; reflexivity |].
  destruct (decide (1 = k)) as [<- | Hne1];
    [leb_cases; try lia; reflexivity |].
  leb_cases; try lia; reflexivity.
Qed.

(** The queries sent: a prefix of the three level queries, cut at the
    requested depth and after the first empty level. *)
Lemma get_downline_users_flat_queries db user_id max_levels :
  1 <= max_levels →
  let queries := snd (get_downline_users_flat db user_id max_levels) in
  queries `prefix_of`
    [ UplineL1Eq user_id;
      UplineL1In (List.map User.id (downline_level db user_id 1));
      UplineL1In (List.map User.id (downline_level db user_id 2)) ]
  ∧ (1 <= length queries <= Z.to_nat (Z.min max_levels 3))%nat
  ∧ (downline_level db user_id 1 = [] → length queries = 1%nat)
  ∧ (downline_level db user_id 2 = [] → (length queries <= 2)%nat).
Proof.
  intros Hm. cbv zeta.
  pose proof (downline_level_1 db user_id) as H1.
  pose proof (downline_level_2 db user_id) as H2.
  unfold get_downline_users_flat. rewrite query_users_eq, <- H1.
  destruct (downline_level db user_id 1) as [|u1 r1] eqn:E1.
  { cbn [snd length]. split; [by eexists [_; _] |].
    split; [lia |]. split; [done | intros _; lia]. }
  rewrite <- E1 in H2 |- *.
  destruct (Z.leb_spec 2 max_levels) as [Hm2 | Hm2].
  2: { cbn [snd length]. split; [by eexists [_; _] |].
       split; [lia |]. split; [done | intros _; lia]. }
  destruct (List.map User.id (downline_level db user_id 1)) as [|i1 is1] eqn:Eids.
  { rewrite E1 in Eids. discriminate Eids. }
  rewrite <- Eids in H2 |- *.
  rewrite query_users_in, <- H2.
  destruct (downline_level db user_id 2) as [|u2 r2] eqn:E2.
  { cbn [snd length]. split; [by eexists [_] |].
    split; [lia |]. split; [intros Hx; congruence | intros _; lia]. }
  rewrite <- E2.
  destruct (Z.leb_spec 3 max_levels) as [Hm3 | Hm3].
  2: { cbn [snd length]. split; [by eexists [_] |].
       split; [lia |]. split; [intros Hx; congruence | intros _; lia]. }
  destruct (List.map User.id (downline_level db user_id 2)) as [|i2 is2] eqn:Eids2.
  { rewrite E2 in Eids2. discriminate Eids2. }
  rewrite <- Eids2. cbn [snd length].
  split; [by eexists [] |]. split; [lia |].
  split; intros Hx; congruence.
Qed.

(** X16.  The downline for any requested depth of 1 or more: the keys of
    the dictionary are exactly 1 to [max_levels]; keys 1 to 3 hold the
    users referred by the given user, by the level-1 users and by the
    level-2 users; keys above 3 hold empty lists, since the traversal never
    goes deeper than three levels.  At most three queries are sent, never
    more than the requested depth, and none after the first empty level. *)
Theorem downline_levels_upto db user_id max_levels :
  1 <= max_levels →
  let downline := fst (get_downline_users_flat db user_id max_levels) in
  let queries := snd (get_downline_users_flat db user_id max_levels) in
  (∀ k, downline !! k
        = if (1 <=? k) && (k <=? max_levels)
          then Some (if k <=? 3 then downline_level db user_id k else [])
          else None)
  ∧ queries `prefix_of`
      [ UplineL1Eq user_id;
        UplineL1In (List.map User.id (downline_level db user_id 1));
        UplineL1In (List.map User.id (downline_level db user_id 2)) ]
  ∧ (1 <= length queries <= Z.to_nat (Z.min max_levels 3))%nat
  ∧ (downline_level db user_id 1 = [] → length queries = 1%nat)
  ∧ (downline_level db user_id 2 = [] → (length queries <= 2)%nat).
Proof.
  intros Hm. cbv zeta. split.
  - intros k. by apply get_downline_users_flat_lookup.
  - by apply get_downline_users_flat_queries.
Qed.

Lemma downline_levels_upto_witness :
  fst (get_downline_users_flat db_chain4 2 5) !! 2
  = Some (downline_level db_chain4 2 2)
  ∧ fst (get_downline_users_flat db_chain4 2 5) !! 4 = Some []
  ∧ fst (get_downline_users_flat db_chain4 2 5) !! 6 = None
  ∧ length (snd (get_downline_users_flat db_chain4 2 5)) = 3%nat.
Proof.
  destruct (downline_levels_upto db_chain4 2 5) as (Hk & _ & Hlen & _);
    [lia |].
  split; [exact (Hk 2) |]. split; [exact (Hk 4) |]. split; [exact (Hk 6) |].
  vm_compute. reflexivity.
Defined.

(** With a depth of 0 the dictionary starts empty, and a user with direct
    referrals still gets key 1. *)
Example downline_depth_zero :
  List.map User.id <$> fst (get_downline_users_flat db_chain4 1 0) !! 1
  = Some [2].
Proof. vm_compute. reflexivity. Qed.

(** * The downline and the upline columns *)

(** The lineage snapshot of a row, by way of its level-1 upline. *)
Lemma lineage_parent db v :
  db_ok db → In v (users db) →
  match User.upline_l1_id v with
  | None => User.upline_l2_id v = None ∧ User.upline_l3_id v = None
  | Some r => ∃ p, In p (users db) ∧ User.id p = r
                   ∧ User.upline_l2_id v = User.upline_l1_id p
                   ∧ User.upline_l3_id v = User.upline_l2_id p
  end.
Proof.
  intros Hok Hv. pose proof (db_ok_user _ _ Hok Hv) as Hvok.
  unfold user_okb in Hvok. apply andb_prop in Hvok as [_ Hvl].
  unfold lineage_okb in Hvl. destruct (User.upline_l1_id v) as [r|].
  - destruct (get_user_by_id db r) as [p|] eqn:Hp; [| done].
    apply andb_prop in Hvl as [H2 H3].
    apply opt_Z_eqb_eq in H2, H3.
    apply get_user_by_id_Some in Hp as [Hp Hid]. eauto 6.
  - apply andb_prop in Hvl as [H2 H3].
    by apply opt_Z_eqb_eq in H2, H3.
Qed.

Lemma NoDup_map_inj_in {A B} (f : A → B) (l : list A) x y :
  NoDup (List.map f l) → In x l → In y l → f x = f y → x = y.
Proof.
  induction l as [|a l IH]; [done |].
  cbn [List.map]. intros [Hnot Hnd]%NoDup_cons [-> | Hx] [-> | Hy] Hf.
  - done.
  - exfalso. apply Hnot. rewrite Hf. apply list_elem_of_In. by apply in_map.
  - exfalso. apply Hnot. rewrite <- Hf. apply list_elem_of_In. by apply in_map.
  - by apply IH.
Qed.

Lemma NoDup_map_filter {A B} (f : A → B) (g : A → bool) (l : list A) :
  NoDup (List.map f l) → NoDup (List.map f (List.filter g l)).
Proof.
  induction l as [|a l IH]; [done |].
  cbn [List.map List.filter]. intros [Hnot Hnd]%NoDup_cons.
  destruct (g a); [| by apply IH].
  cbn [List.map]. apply NoDup_cons. split; [| by apply IH].
  intros Hin. apply Hnot.
  apply list_elem_of_In, in_map_iff in Hin as (x & Hx & Hin).
  apply filter_In in Hin as [Hin _].
  apply list_elem_of_In, in_map_iff. eauto.
Qed.

Lemma opt_Z_eqb_Some o x : opt_Z_eqb o (Some x) = true ↔ o = Some x.
Proof.
  destruct o as [y|]; simpl; [| done].
  rewrite Z.eqb_eq. split; congruence.
Qed.

Lemma users_with_upline_In column db user_id u :
  In u (users_with_upline column db user_id)
  ↔ In u (users db) ∧ column u = Some user_id.
Proof. unfold users_with_upline. by rewrite filter_In, opt_Z_eqb_Some. Qed.

Lemma level1_by_column db user_id :
  referred_by_any db [user_id] = users_with_upline User.upline_l1_id db user_id.
Proof.
  unfold referred_by_any, users_with_upline. apply filter_ext. intros u.
  destruct (User.upline_l1_id u) as [p|]; simpl; [| done].
  destruct (Z.eqb_spec p user_id) as [-> | Hne].
  - apply bool_decide_eq_true_2. by left.
  - apply bool_decide_eq_false_2. intros Hin%list_elem_of_singleton. done.
Qed.

(** One level down: the users referred by the users that carry [user_id]
    in one column are the users that carry it in the next. *)
Lemma level_next_by_column db user_id (column parent_column : User.t → option Z) :
  NoDup (List.map User.id (users db)) →
  (∀ v, In v (users db) →
        match User.upline_l1_id v with
        | None => column v = None
        | Some r => ∃ p, In p (users db) ∧ User.id p = r
                         ∧ column v = parent_column p
        end) →
  referred_by_any db
    (List.map User.id (users_with_upline parent_column db user_id))
  = users_with_upline column db user_id.
Proof.
  intros Hnd Hlin. unfold referred_by_any.
  unfold users_with_upline at 2. apply List.filter_ext_in. intros u Hu.
  specialize (Hlin u Hu). destruct (User.upline_l1_id u) as [r|].
  - destruct Hlin as (p & Hp & Hid & Hcol). rewrite Hcol.
    destruct (opt_Z_eqb (parent_column p) (Some user_id)) eqn:E.
    + apply bool_decide_eq_true_2. apply list_elem_of_In, in_map_iff.
      exists p. split; [done |].
      apply users_with_upline_In. split; [done |]. by apply opt_Z_eqb_Some.
    + apply bool_decide_eq_false_2. intros Hin.
      apply list_elem_of_In, in_map_iff in Hin as (x & Hx & Hin).
      apply users_with_upline_In in Hin as [Hin Hxc].
      assert (x = p) as ->.
      { eapply NoDup_map_inj_in; [exact Hnd | done | done | congruence]. }
      apply opt_Z_eqb_Some in Hxc. congruence.
  - rewrite Hlin. done.
Qed.

Lemma downline_level_column db user_id :
  db_wf db →
  downline_level db user_id 1 = users_with_upline User.upline_l1_id db user_id
  ∧ downline_level db user_id 2 = users_with_upline User.upline_l2_id db user_id
  ∧ downline_level db user_id 3 = users_with_upline User.upline_l3_id db user_id.
Proof.
  intros (Hok & Hkeys & _ & _ & _)%db_wf_inv.
  apply users_keys_ok_inv in Hkeys as [_ Hnd].
  assert (H1 := level1_by_column db user_id).
  rewrite <- downline_level_1 in H1.
  assert (H2 : downline_level db user_id 2
               = users_with_upline User.upline_l2_id db user_id).
  { rewrite downline_level_2, H1. apply level_next_by_column; [done |].
    intros v Hv. pose proof (lineage_parent db v Hok Hv) as Hl.
    destruct (User.upline_l1_id v); [| tauto].
    destruct Hl as (p & ? & ? & ? & ?). eauto. }
  split; [done |]. split; [done |].
  rewrite downline_level_3, H2. apply level_next_by_column; [done |].
  intros v Hv. pose proof (lineage_parent db v Hok Hv) as Hl.
  destruct (User.upline_l1_id v); [| tauto].
  destruct Hl as (p & ? & ? & ? & ?). eauto.
Qed.

Lemma downline_level_upline_column db user_id k :
  db_wf db → 1 <= k <= 3 →
  downline_level db user_id k = users_with_upline (upline_column k) db user_id.
Proof.
  intros Hwf Hk.
  destruct (downline_level_column db user_id Hwf) as (H1 & H2 & H3).
  assert (k = 1 ∨ k = 2 ∨ k = 3) as [-> | [-> | ->]] by lia; done.
Qed.

(** X17.  In a store that satisfies the full invariant the traversal and
    the upline columns agree: level [k] of the downline of a user, for [k]
    from 1 to 3 and within the requested depth, is the list of the users
    whose [upline_l1_id], [upline_l2_id] or [upline_l3_id] column (the one
    for [k]) holds that user's id, in table order. *)
Theorem downline_by_upline_columns db user_id max_levels k :
  db_wf db → 1 <= k <= 3 → k <= max_levels →
  fst (get_downline_users_flat db user_id max_levels) !! k
  = Some (users_with_upline (upline_column k) db user_id).
Proof.
  intros Hwf Hk Hm.
  rewrite get_downline_users_flat_lookup by lia.
  rewrite <- downline_level_upline_column by done.
  leb_cases; try lia. reflexivity.
Qed.

Lemma downline_by_upline_columns_witness :
  fst (get_downline_users_flat db_chain4 1 3) !! 3
  = Some (users_with_upline User.upline_l3_id db_chain4 1).
Proof.
  apply (downline_by_upline_columns db_chain4 1 3 3);
    [vm_compute; reflexivity | lia | lia].
Defined.

(** The upline columns of a row descend, and a deeper pointer needs the
    shallower one. *)
Lemma upline_columns_descend db u :
  db_wf db → In u (users db) →
  (∀ a, User.upline_l1_id u = Some a → a < User.id u)
  ∧ (∀ b, User.upline_l2_id u = Some b →
          ∃ a, User.upline_l1_id u = Some a ∧ b < a)
  ∧ (∀ c, User.upline_l3_id u = Some c →
          ∃ b, User.upline_l2_id u = Some b ∧ c < b).
Proof.
  intros (Hok & _ & _ & _ & Hforest)%db_wf_inv Hin.
  pose proof (lineage_parent db u Hok Hin) as Hu.
  destruct (User.upline_l1_id u) as [a|] eqn:Ha.
  - destruct Hu as (p & Hp & Hpid & H2 & H3).
    pose proof (lineage_parent db p Hok Hp) as Hpl.
    split. { intros ? [= <-]. by eapply forest_ok_inv. }
    split.
    { intros b Hb. exists a. split; [done |]. rewrite H2 in Hb.
      rewrite <- Hpid. by eapply forest_ok_inv. }
    intros c Hc. rewrite H3 in Hc. rewrite H2.
    destruct (User.upline_l1_id p) as [b|] eqn:Hb.
    + exists b. split; [done |].
      destruct Hpl as (q & Hq & Hqid & Hq2 & _). rewrite Hq2 in Hc.
      rewrite <- Hqid. by eapply forest_ok_inv.
    + destruct Hpl as [Hn _]. congruence.
  - destruct Hu as [H2 H3]. rewrite H2, H3. repeat split; done.
Qed.

(** The column of a deeper level holds a smaller id. *)
Lemma upline_column_order db u i j a b :
  db_wf db → In u (users db) → 1 <= i < j → j <= 3 →
  upline_column i u = Some a → upline_column j u = Some b → b < a.
Proof.
  intros Hwf Hin Hij Hj Ha Hb.
  destruct (upline_columns_descend db u Hwf Hin) as (_ & H2 & H3).
  assert ((i = 1 ∧ j = 2) ∨ (i = 1 ∧ j = 3) ∨ (i = 2 ∧ j = 3))
    as [[-> ->] | [[-> ->] | [-> ->]]] by lia;
    cbn in Ha, Hb.
  - destruct (H2 _ Hb) as (a' & Ha' & Hlt). congruence.
  - destruct (H3 _ Hb) as (b' & Hb' & Hlt).
    destruct (H2 _ Hb') as (a' & Ha' & Hlt'). assert (a' = a) by congruence. lia.
  - destruct (H3 _ Hb) as (b' & Hb' & Hlt). congruence.
Qed.

Lemma upline_column_below db u i a :
  db_wf db → In u (users db) → 1 <= i <= 3 →
  upline_column i u = Some a → a < User.id u.
Proof.
  intros Hwf Hin Hi Ha.
  destruct (upline_columns_descend db u Hwf Hin) as (H1 & H2 & H3).
  assert (i = 1 ∨ i = 2 ∨ i = 3) as [-> | [-> | ->]] by lia; cbn in Ha.
  - by apply H1.
  - destruct (H2 _ Ha) as (a1 & Ha1 & Hlt). specialize (H1 _ Ha1). lia.
  - destruct (H3 _ Ha) as (a2 & Ha2 & Hlt).
    destruct (H2 _ Ha2) as (a1 & Ha1 & Hlt'). specialize (H1 _ Ha1). lia.
Qed.

(** A level of the dictionary, in a store with the full invariant. *)
Lemma downline_level_members db user_id max_levels i li u :
  db_wf db → 1 <= max_levels →
  fst (get_downline_users_flat db user_id max_levels) !! i = Some li →
  In u li →
  1 <= i <= 3 ∧ li = users_with_upline (upline_column i) db user_id.
Proof.
  intros Hwf Hm Hi Hu.
  rewrite get_downline_users_flat_lookup in Hi by done.
  destruct ((1 <=? i) && (i <=? max_levels)) eqn:E; [| done].
  apply andb_prop in E as [E1 E2]. apply Z.leb_le in E1, E2.
  destruct (Z.leb_spec i 3); injection Hi as <-; [| done].
  split; [lia |]. apply downline_level_upline_column; [done | lia].
Qed.

(** X18.  In a store that satisfies the full invariant nobody appears twice
    in a downline: every member has a larger id than the user the downline
    belongs to (so the user is not in it), no level lists an id twice, and
    a user listed at one level is listed at no other. *)
Theorem downline_no_user_twice db user_id max_levels i li u :
  db_wf db → 1 <= max_levels →
  fst (get_downline_users_flat db user_id max_levels) !! i = Some li →
  In u li →
  user_id < User.id u
  ∧ NoDup (List.map User.id li)
  ∧ ∀ j lj v,
      fst (get_downline_users_flat db user_id max_levels) !! j = Some lj →
      In v lj → User.id v = User.id u → j = i.
Proof.
  intros Hwf Hm Hi Hu.
  destruct (downline_level_members _ _ _ _ _ _ Hwf Hm Hi Hu) as [Hirange ->].
  apply users_with_upline_In in Hu as [Hu Hcol].
  pose proof (db_wf_inv _ Hwf) as (_ & Hkeys & _).
  apply users_keys_ok_inv in Hkeys as [_ Hnd].
  split; [by eapply upline_column_below |].
  split; [by apply NoDup_map_filter |].
  intros j lj v Hj Hv Hid.
  destruct (downline_level_members _ _ _ _ _ _ Hwf Hm Hj Hv) as [Hjrange ->].
  apply users_with_upline_In in Hv as [Hv Hcolv].
  assert (v = u) as -> by (by eapply NoDup_map_inj_in).
  destruct (Z.lt_trichotomy i j) as [Hlt | [Heq | Hlt]]; [| done |].
  - pose proof (upline_column_order db u i j _ _ Hwf Hu ltac:(lia) ltac:(lia)
                  Hcol Hcolv). lia.
  - pose proof (upline_column_order db u j i _ _ Hwf Hu ltac:(lia) ltac:(lia)
                  Hcolv Hcol). lia.
Qed.

Lemma downline_no_user_twice_witness :
  ∃ li u,
    fst (get_downline_users_flat db_chain4 1 3) !! 2 = Some li
    ∧ In u li
    ∧ 1 < User.id u
    ∧ NoDup (List.map User.id li).
Proof.
  destruct (fst (get_downline_users_flat db_chain4 1 3) !! 2) as [li|] eqn:Hli;
    [| vm_compute in Hli; discriminate Hli].
  destruct li as [|u rest] eqn:Eli;
    [vm_compute in Hli; discriminate Hli |].
  destruct (downline_no_user_twice db_chain4 1 3 2 (u :: rest) u)
    as (Hlt & Hnd & _);
    [vm_compute; reflexivity | lia | exact Hli | by left |].
  exists (u :: rest), u. split; [reflexivity |]. split; [by left |]. done.
Defined.

(** X19.  In a store that satisfies the full invariant the referral counts
    of the statistics are the numbers of users that carry the user's id in
    [upline_l1_id], [upline_l2_id] and [upline_l3_id]. *)
Theorem stats_counts_by_upline_column db user_id :
  db_wf db →
  let stats := get_referral_stats_for_user db user_id in
  let count column := Z.of_nat (length (users_with_upline column db user_id)) in
  total_direct_referrals stats = count User.upline_l1_id
  ∧ total_l1_referrals stats = count User.upline_l1_id
  ∧ total_l2_referrals stats = count User.upline_l2_id
  ∧ total_l3_referrals stats = count User.upline_l3_id.
Proof.
  intros Hwf. cbv zeta.
  destruct (downline_level_column db user_id Hwf) as (H1 & H2 & H3).
  unfold get_referral_stats_for_user.
  cbn [total_direct_referrals total_l1_referrals total_l2_referrals
       total_l3_referrals].
  rewrite query_users_eq, !query_users_in.
  rewrite <- downline_level_1, <- downline_level_2, <- downline_level_3.
  rewrite H1, H2, H3. done.
Qed.

Lemma stats_counts_by_upline_column_witness :
  total_l3_referrals (get_referral_stats_for_user db_chain4 1)
  = Z.of_nat (length (users_with_upline User.upline_l3_id db_chain4 1)).
Proof.
  destruct (stats_counts_by_upline_column db_chain4 1) as (_ & _ & _ & H3);
    [vm_compute; reflexivity | exact H3].
Defined.

(** * Commissions and the downline *)

Lemma upline_entry_column rates paying_user earner rate level :
  In (Some earner, rate, level) (upline_users_and_rates rates paying_user) →
  1 <= level <= 3 ∧ upline_column level paying_user = Some earner.
Proof.
  unfold upline_users_and_rates.
  intros [[= <- _ <-] | [[= <- _ <-] | [[= <- _ <-] | []]]];
    (split; [lia | reflexivity]).
Qed.

(** X20.  Who earns on a payment: every earning a commission run inserts
    is for a user in whose downline the payer stands, at the level the
    earning records.  Level [k] of the earner's downline, as
    [get_downline_users_flat] returns it, contains the paying user. *)
Theorem commission_payer_in_downline rates db user_id_for_payment payment
    paying_user db' outcome :
  db_wf db →
  get_user_by_id db user_id_for_payment = Some paying_user →
  webhook_stripe_commissions rates user_id_for_payment (Some payment) db
  = (db', outcome) →
  ∃ new,
    referral_earnings db' = referral_earnings db ++ new
    ∧ Forall (fun e =>
                ∃ level_users,
                  fst (get_downline_users_flat db (ReferralEarning.user_id e) 3)
                    !! ReferralEarning.referral_level e = Some level_users
                  ∧ In paying_user level_users
                  ∧ ReferralEarning.user_id e < User.id paying_user)
        new.
Proof.
  intros Hwf Hpayer Hrun.
  destruct (webhook_stripe_commissions_appends _ _ _ _ _ _ Hrun)
    as (new & -> & Hnew).
  specialize (Hnew _ _ Hpayer eq_refl).
  exists new. split; [done |].
  apply get_user_by_id_Some in Hpayer as [Hin _].
  eapply Forall_impl; [exact Hnew |]. intros e (_ & _ & _ & _ & rate & Hentry & _).
  apply upline_entry_column in Hentry as [Hlevel Hcol].
  exists (users_with_upline (upline_column (ReferralEarning.referral_level e))
            db (ReferralEarning.user_id e)).
  split; [apply downline_by_upline_columns; (done || lia) |].
  split; [by apply users_with_upline_In |].
  by eapply upline_column_below.
Qed.

Lemma commission_payer_in_downline_witness :
  ∃ new,
    referral_earnings db_paid_once = referral_earnings db_chain4 ++ new
    ∧ length new = 3%nat
    ∧ Forall (fun e => ReferralEarning.user_id e < 4) new.
Proof.
  destruct (get_user_by_id db_chain4 4) as [payer|] eqn:Hpayer;
    [| vm_compute in Hpayer; discriminate Hpayer].
  destruct (commission_payer_in_downline default_rates db_chain4 4 payment_100
              payer db_paid_once (inr tt))
    as (new & Hrows & Hnew);
    [vm_compute; reflexivity | exact Hpayer | vm_compute; reflexivity |].
  exists new. split; [exact Hrows |].
  assert (Hid : User.id payer = 4).
  { vm_compute in Hpayer. by injection Hpayer as <-. }
  split.
  - apply (f_equal (@length _)) in Hrows. rewrite length_app in Hrows.
    remember (length new) as n. vm_compute in Hrows. by symmetry.
  - eapply Forall_impl; [exact Hnew |].
    intros e (_ & _ & _ & Hlt). by rewrite <- Hid.
Defined.

(** * Listings of earnings *)

Lemma offset_limit_inr {A} (skip limit : Z) (rows : list A) :
  0 <= skip < 2 ^ 63 → 0 <= limit < 2 ^ 63 →
  offset_limit skip limit rows
  = inr (take (Z.to_nat limit) (drop (Z.to_nat skip) rows)).
Proof.
  intros Hs Hl. unfold offset_limit.
  destruct (Z.leb_spec 0 skip); [| lia].
  destruct (Z.ltb_spec skip (2 ^ 63)); [| lia].
  destruct (Z.leb_spec 0 limit); [| lia].
  destruct (Z.ltb_spec limit (2 ^ 63)); [| lia].
  reflexivity.
Qed.

Lemma offset_limit_negative {A} (skip limit : Z) (rows : list A) :
  skip < 0 ∨ limit < 0 → offset_limit skip limit rows = inl DataError.
Proof.
  intros H. unfold offset_limit.
  destruct (Z.leb_spec 0 skip); [| reflexivity].
  destruct (Z.ltb_spec skip (2 ^ 63)); [| reflexivity].
  destruct (Z.leb_spec 0 limit); [| reflexivity]. lia.
Qed.

Lemma StronglySorted_sublist {A} (R : relation A) (k l : list A) :
  k `sublist_of` l → StronglySorted R l → StronglySorted R k.
Proof.
  induction 1 as [|x k l Hsub IH|x k l Hsub IH]; intros Hs.
  - constructor.
  - apply StronglySorted_inv in Hs as [Hs Hall]. constructor; [by apply IH |].
    apply Forall_forall. intros y Hy.
    rewrite Forall_forall in Hall. apply Hall.
    by eapply elem_of_sublist.
  - apply StronglySorted_inv in Hs as [Hs _]. by apply IH.
Qed.

Lemma page_sublist {A} (skip limit : nat) (rows : list A) :
  take limit (drop skip rows) `sublist_of` rows.
Proof. etrans; [apply sublist_take | apply sublist_drop]. Qed.

Lemma total_cents_perm rows rows' :
  rows ≡ₚ rows' → total_cents rows = total_cents rows'.
Proof.
  unfold total_cents. induction 1; cbn [List.map fold_right]; lia.
Qed.

Lemma filter_filter_andb {A} (f g : A → bool) (l : list A) :
  List.filter g (List.filter f l) = List.filter (fun x => f x && g x) l.
Proof.
  induction l as [|x l IH]; [done |]. cbn [List.filter].
  destruct (f x); cbn [List.filter andb]; [destruct (g x) |]; by rewrite IH.
Qed.

Lemma filter_filter_comm {A} (f g : A → bool) (l : list A) :
  List.filter g (List.filter f l) = List.filter f (List.filter g l).
Proof.
  rewrite !filter_filter_andb. apply filter_ext. intros x. apply andb_comm.
Qed.

(** The stable merge sort is one of the orderings the store may apply. *)
Lemma merge_sort_created_at_desc_perm rows :
  merge_sort_created_at_desc rows ≡ₚ rows.
Proof. apply merge_sort_Permutation. Qed.

Lemma merge_sort_created_at_desc_sorted rows :
  StronglySorted newest_first (merge_sort_created_at_desc rows).
Proof.
  apply StronglySorted_merge_sort.
  - intros a b c. unfold newest_first. lia.
  - intros a b. unfold newest_first. lia.
Qed.

Section Listings.

Variable order_by_created_at_desc : list ReferralEarning.t → list ReferralEarning.t.
Hypothesis order_perm : ∀ rows, order_by_created_at_desc rows ≡ₚ rows.
Hypothesis order_sorted :
  ∀ rows, StronglySorted newest_first (order_by_created_at_desc rows).

(** X21.  A page of a user's earnings: for a non-negative offset and limit
    the listing returns rows of the table that all belong to the user and,
    when a status is asked for, all have it; no more rows than the limit;
    and newest first.  A negative offset or limit is refused by the store
    with a [DataError]. *)
Theorem my_earnings_page db user_id status skip limit :
  0 <= skip < 2 ^ 63 → 0 <= limit < 2 ^ 63 →
  ∃ page,
    get_referral_earnings_for_user order_by_created_at_desc db user_id status
      skip limit = inr page
    ∧ Forall (fun e =>
                In e (referral_earnings db)
                ∧ ReferralEarning.user_id e = user_id
                ∧ ∀ s, status = Some s → ReferralEarning.status e = s) page
    ∧ Z.of_nat (length page) <= limit
    ∧ StronglySorted newest_first page
    ∧ ∀ neg, neg < 0 →
        get_referral_earnings_for_user order_by_created_at_desc db user_id
          status neg limit = inl DataError
        ∧ get_referral_earnings_for_user order_by_created_at_desc db user_id
            status skip neg = inl DataError.
Proof.
  intros Hs Hl. unfold get_referral_earnings_for_user.
  cbv zeta. rewrite offset_limit_inr by done.
  eexists. split; [reflexivity |].
  split.
  { apply Forall_forall. intros e He.
    eapply elem_of_sublist in He; [| apply page_sublist].
    rewrite order_perm in He. apply list_elem_of_In in He.
    destruct status as [s|].
    - apply filter_In in He as [He Hst]. apply filter_In in He as [He Hu].
      split; [done |]. split; [by apply Z.eqb_eq |].
      intros ? [= <-]. destruct (ReferralEarning.status e), s; done.
    - apply filter_In in He as [He Hu].
      split; [done |]. split; [by apply Z.eqb_eq | done]. }
  split.
  { rewrite length_take. lia. }
  split.
  { eapply StronglySorted_sublist; [apply page_sublist | apply order_sorted]. }
  intros neg Hneg. split; apply offset_limit_negative; lia.
Qed.

(** X22.  The listing and the statistics agree: when the limit covers all
    of a user's earnings with a status, the first page lists exactly those
    earnings, in some order, and the statistics' total for that status is
    the sum of the amounts listed. *)
Theorem listing_sums_to_stats db user_id s limit :
  db_ok db →
  Z.of_nat (length (earnings_of db user_id s)) <= limit < 2 ^ 63 →
  ∃ page,
    get_referral_earnings_for_user order_by_created_at_desc db user_id (Some s)
      0 limit = inr page
    ∧ page ≡ₚ earnings_of db user_id s
    ∧ commission_sum db user_id s = Decimal.cents (total_cents page).
Proof.
  intros Hok Hl. unfold get_referral_earnings_for_user. cbv zeta.
  rewrite offset_limit_inr by lia.
  rewrite filter_filter_andb. fold (earnings_of db user_id s).
  eexists. split; [reflexivity |].
  change (Z.to_nat 0) with 0%nat. rewrite drop_0.
  rewrite take_ge.
  2: { rewrite (Permutation_length (order_perm _)). lia. }
  split; [apply order_perm |].
  rewrite commission_sum_total by done.
  f_equal. symmetry. apply total_cents_perm, order_perm.
Qed.

End Listings.

Lemma my_earnings_page_witness :
  ∃ page,
    get_referral_earnings_for_user merge_sort_created_at_desc db_three_statuses
      1 (Some APPROVED) 0 20 = inr page
    ∧ (length page <= 20)%nat.
Proof.
  destruct (my_earnings_page merge_sort_created_at_desc
              merge_sort_created_at_desc_perm merge_sort_created_at_desc_sorted
              db_three_statuses 1 (Some APPROVED) 0 20)
    as (page & Hpage & _ & Hlen & _); [lia | lia |].
  exists page. split; [exact Hpage | lia].
Defined.

Lemma listing_sums_to_stats_witness :
  ∃ page,
    get_referral_earnings_for_user merge_sort_created_at_desc db_three_statuses
      1 (Some PENDING) 0 20 = inr page
    ∧ commission_sum db_three_statuses 1 PENDING
      = Decimal.cents (total_cents page).
Proof.
  destruct (listing_sums_to_stats merge_sort_created_at_desc
              merge_sort_created_at_desc_perm db_three_statuses 1 PENDING 20)
    as (page & Hpage & _ & Hsum);
    [vm_compute; reflexivity | vm_compute; split; [discriminate | reflexivity] |].
  exists page. split; [exact Hpage | exact Hsum].
Defined.

(** X23.  The admin listing filtered by earner: for a user id other than 0
    it is the listing the user gets for themselves; for the id 0 the
    filter is skipped and the earnings of every user are listed. *)
Theorem admin_listing_by_earner order_by_created_at_desc db status user_id
    skip limit :
  get_all_referral_earnings order_by_created_at_desc db status (Some user_id)
    None skip limit
  = if user_id =? 0
    then get_all_referral_earnings order_by_created_at_desc db status None None
           skip limit
    else get_referral_earnings_for_user order_by_created_at_desc db user_id
           status skip limit.
Proof.
  unfold get_all_referral_earnings, get_referral_earnings_for_user.
  cbn [truthy_int]. destruct (user_id =? 0); cbn [negb]; [done |].
  destruct status as [s|]; [| done].
  by rewrite filter_filter_comm.
Qed.

(** Asked for the earnings of id 0, the admin listing returns all three
    rows of the table, where no row belongs to user 0. *)
Example admin_listing_user_0 :
  match get_all_referral_earnings merge_sort_created_at_desc db_paid_once None
          (Some 0) None 0 100 with
  | inr page =>
      (length page, existsb (fun e => ReferralEarning.user_id e =? 0) page)
  | inl _ => (0%nat, true)
  end = (3%nat, false).
Proof. vm_compute. reflexivity. Qed.

(** * The authentication gate *)

Lemma create_user_role db user_data db' u :
  create_user db user_data = (db', Some u) →
  User.role u
  = match UserCreateInternal.role user_data with
    | Some r => if truthy_str (Some r) then r else "Subscriber"%string
    | None => "Subscriber"%string
    end.
Proof.
  unfold create_user.
  destruct (get_user_by_firebase_uid _ _); [done |].
  destruct (get_user_by_email _ _); [done |].
  destruct (populate_upline _ _) as [[l1 l2] l3].
  match goal with |- context [users_widths_ok ?x] =>
    destruct (users_widths_ok x) end; cbn [negb]; [| done].
  match goal with |- context [users_constraints_ok db ?x] =>
    destruct (users_constraints_ok db x) end; [| done].
  by intros [= _ <-].
Qed.

(** A role-only update of an existing user goes through when the role
    fits its column. *)
Lemma update_user_by_admin_role db user_id db_user r :
  get_user_by_id db user_id = Some db_user →
  (String.length r <= 50)%nat →
  ∃ u',
    update_user_by_admin db user_id (AdminUserUpdate.mk None (Some (Some r)))
    = (with_users (replace_user user_id u' (users db)) (users_id_seq db) db,
       inr (Some u'))
    ∧ User.role u' = r
    ∧ User.id u' = User.id db_user
    ∧ User.firebase_uid u' = User.firebase_uid db_user
    ∧ User.email u' = User.email db_user.
Proof.
  intros Hget Hlen. unfold update_user_by_admin. rewrite Hget.
  cbn [AdminUserUpdate.email AdminUserUpdate.role].
  rewrite String.eqb_refl. cbn [negb andb orb].
  assert (Hfit : varchar_okb 50 r = true) by (by apply Nat.leb_le).
  rewrite Hfit. cbn [negb]. rewrite andb_false_r.
  eexists. split; [reflexivity |]. done.
Qed.

Lemma get_current_user_bearer split verify db authorization token_data :
  truthy_str authorization = true →
  str_lower (fst (split authorization)) = "bearer"%string →
  verify (snd (split authorization)) = Response token_data →
  get_current_user split verify db authorization
  = match get_user_by_firebase_uid db (token_firebase_uid token_data) with
    | None =>
        HTTPException 403
          "User account not found or not fully registered in the system."
    | Some user => Response user
    end.
Proof.
  intros Hauth Hscheme Hverify. unfold get_current_user.
  destruct (split authorization) as [scheme param]. cbn [fst snd] in *.
  by rewrite Hauth, Hscheme, Hverify.
Qed.

(** X24.  The admin gate lets only administrators through: when
    [get_current_admin_user] returns a user, the request carried a
    non-empty [Authorization] header with the scheme [bearer] in any
    letter case, its token was verified, and the user returned is the row
    of the store with the token's Firebase uid, with the role [Admin]. *)
Theorem admin_gate_sound split verify db authorization u :
  get_current_admin_user split verify db authorization = Response u →
  truthy_str authorization = true
  ∧ str_lower (fst (split authorization)) = "bearer"%string
  ∧ ∃ token_data,
      verify (snd (split authorization)) = Response token_data
      ∧ get_user_by_firebase_uid db (token_firebase_uid token_data) = Some u
      ∧ In u (users db)
      ∧ User.firebase_uid u = token_firebase_uid token_data
      ∧ User.role u = "Admin"%string.
Proof.
  unfold get_current_admin_user, get_current_active_user, get_current_user.
  destruct (split authorization) as [scheme param]. cbn [fst snd].
  destruct (truthy_str authorization); [| done].
  destruct (String.eqb_spec (str_lower scheme) "bearer") as [Hs | _]; [| done].
  cbn [negb orb].
  destruct (verify param) as [token_data | c d]; [| done].
  destruct (get_user_by_firebase_uid db _) as [user|] eqn:Huser; [| done].
  destruct (String.eqb_spec (User.role user) "Admin") as [Hrole | _]; [| done].
  cbn [negb]. intros [= <-].
  split; [done |]. split; [done |]. exists token_data.
  split; [done |]. split; [done |].
  unfold get_user_by_firebase_uid in Huser.
  apply find_some in Huser as [Hin Huid]. apply String.eqb_eq in Huid.
  done.
Qed.

(** A request with no [Authorization] header is refused before the token
    check and the store are consulted. *)
Lemma get_current_user_no_header split verify db :
  get_current_user split verify db None
  = HTTPException 401 "Not authenticated. Bearer token required.".
Proof. unfold get_current_user. by destruct (split None). Qed.

(** X25.  Registration gives no admin rights: after a successful
    registration, a request that carries the same user's verified bearer
    token is recognised as the new user, and the admin gate refuses it
    with status 403. *)
Theorem registration_grants_no_admin_rights split verify db token_data
    referral_code_used draws db' u authorization :
  register_user_after_firebase db (Response token_data) referral_code_used draws
  = Some (db', Response u) →
  truthy_str authorization = true →
  str_lower (fst (split authorization)) = "bearer"%string →
  verify (snd (split authorization)) = Response token_data →
  get_current_user split verify db' authorization = Response u
  ∧ get_current_admin_user split verify db' authorization
    = HTTPException 403 "Operation not permitted: Requires admin privileges.".
Proof.
  intros Hreg Hauth Hscheme Hverify.
  apply register_Some in Hreg
    as (td & code & referred_by & [= <-] & _ & Hcreate & _).
  pose proof (create_user_row _ _ _ _ Hcreate) as (Huid & _ & Hu & _).
  pose proof (create_user_role _ _ _ _ Hcreate) as Hrole.
  apply create_user_Some in Hcreate as (-> & _).
  cbn [UserCreateInternal.firebase_uid UserCreateInternal.role truthy_str]
    in Huid, Hu, Hrole.
  assert (Hfound : get_user_by_firebase_uid
                     (with_users (users db ++ [u]) (users_id_seq db + 1) db)
                     (token_firebase_uid token_data) = Some u).
  { unfold get_user_by_firebase_uid in Huid |- *. cbn [users with_users].
    apply find_snoc_new; [exact Huid |]. rewrite Hu. apply String.eqb_refl. }
  assert (Hcur : get_current_user split verify
                   (with_users (users db ++ [u]) (users_id_seq db + 1) db)
                   authorization = Response u).
  { rewrite (get_current_user_bearer _ _ _ _ token_data) by done.
    by rewrite Hfound. }
  split; [exact Hcur |].
  unfold get_current_admin_user, get_current_active_user.
  by rewrite Hcur, Hrole.
Qed.

(** X26.  Promotion opens the admin gate: in a store that satisfies the
    full invariant, the role-only update that sets a user's role to
    [Admin] succeeds, and afterwards a request with that user's verified
    bearer token passes the admin gate as the updated row. *)
Theorem promotion_opens_admin_gate split verify db u token_data authorization :
  db_wf db → In u (users db) →
  truthy_str authorization = true →
  str_lower (fst (split authorization)) = "bearer"%string →
  verify (snd (split authorization)) = Response token_data →
  token_firebase_uid token_data = User.firebase_uid u →
  ∃ db' u',
    update_user_by_admin db (User.id u) promote_to_admin = (db', inr (Some u'))
    ∧ get_current_admin_user split verify db' authorization = Response u'
    ∧ User.id u' = User.id u
    ∧ User.email u' = User.email u
    ∧ User.role u' = "Admin"%string.
Proof.
  intros Hwf Hin Hauth Hscheme Hverify Htok.
  assert (Hget : get_user_by_id db (User.id u) = Some u).
  { pose proof (db_wf_inv _ Hwf) as (_ & Hkeys & _).
    apply users_keys_ok_inv in Hkeys as [_ Hids].
    exact (find_unique User.id Z.eqb _ _ Z_eqb_iff Hids Hin). }
  destruct (update_user_by_admin_role db (User.id u) u "Admin" Hget)
    as (u' & Hupd & Hrole & Hid & Huid & Hemail); [simpl; lia |].
  pose proof (update_user_by_admin_db_wf db (User.id u) promote_to_admin Hwf)
    as Hwf'.
  unfold promote_to_admin in *. rewrite Hupd in Hwf'. cbn [fst] in Hwf'.
  eexists _, u'. split; [exact Hupd |].
  split; [| done].
  set (db' := with_users _ _ _) in *.
  assert (Hin' : In u' (users db')).
  { destruct (get_user_by_id_split db (User.id u) u u' Hget)
      as (pre & post & _ & Hrep & _).
    subst db'. cbn [users with_users]. rewrite Hrep.
    apply in_or_app. right. by left. }
  assert (Hfound : get_user_by_firebase_uid db' (token_firebase_uid token_data)
                   = Some u').
  { rewrite Htok, <- Huid.
    pose proof (db_wf_inv _ Hwf') as (_ & _ & _ & Huniq & _).
    apply users_unique_iff in Huniq as (Hu1 & _).
    exact (find_unique User.firebase_uid String.eqb _ _ string_eqb_iff Hu1 Hin'). }
  unfold get_current_admin_user, get_current_active_user.
  rewrite (get_current_user_bearer _ _ _ _ token_data) by done.
  by rewrite Hfound, Hrole.
Qed.

Lemma promotion_opens_admin_gate_witness :
  ∃ db' u',
    update_user_by_admin db_chain4 1 promote_to_admin = (db', inr (Some u'))
    ∧ get_current_admin_user split_bearer verify_uid_1 db'
        (Some "Bearer token-1"%string) = Response u'.
Proof.
  destruct (get_user_by_id db_chain4 1) as [u|] eqn:Hu;
    [| vm_compute in Hu; discriminate Hu].
  destruct (get_user_by_id_Some _ _ _ Hu) as [HinU Hid].
  destruct (promotion_opens_admin_gate split_bearer verify_uid_1 db_chain4 u
              (mkTokenData "uid-1" "u1@example.org")
              (Some "Bearer token-1"%string))
    as (db' & u' & Hupd & Hgate & _);
    [ vm_compute; reflexivity
    | exact HinU
    | reflexivity | reflexivity | reflexivity
    | vm_compute in Hu; injection Hu as <-; reflexivity
    | ].
  rewrite Hid in Hupd. by exists db', u'.
Defined.

Lemma admin_gate_sound_witness :
  ∃ u,
    get_current_admin_user split_bearer verify_uid_1
      (fst (update_user_by_admin db_chain4 1 promote_to_admin))
      (Some "Bearer token-1"%string) = Response u
    ∧ User.role u = "Admin"%string.
Proof.
  destruct (get_current_admin_user split_bearer verify_uid_1
              (fst (update_user_by_admin db_chain4 1 promote_to_admin))
              (Some "Bearer token-1"%string)) as [u | c d] eqn:E;
    [| vm_compute in E; discriminate E].
  exists u. split; [reflexivity |].
  destruct (admin_gate_sound _ _ _ _ _ E)
    as (_ & _ & td & _ & _ & _ & _ & Hrole).
  exact Hrole.
Defined.

Lemma registration_grants_no_admin_rights_witness :
  ∃ db' u,
    register_user_after_firebase db_chain3
      (Response (mkTokenData "uid-9" "u9@example.org"))
      (Some "AAAA0002"%string) ["AAAA0001"; "BBBB0009"]%string
    = Some (db', Response u)
    ∧ get_current_admin_user split_bearer
        (fun _ => Response (mkTokenData "uid-9" "u9@example.org")) db'
        (Some "bearer token-9"%string)
      = HTTPException 403 "Operation not permitted: Requires admin privileges.".
Proof.
  destruct (register_user_after_firebase db_chain3
              (Response (mkTokenData "uid-9" "u9@example.org"))
              (Some "AAAA0002"%string) ["AAAA0001"; "BBBB0009"]%string)
    as [[db' [u | c d]]|] eqn:E;
    [| vm_compute in E; discriminate E ..].
  exists db', u. split; [reflexivity |].
  refine (proj2 (registration_grants_no_admin_rights split_bearer _ _ _ _ _ _ _
                   (Some "bearer token-9"%string) E _ _ _));
    reflexivity.
Defined.
